(** * FlashMQ: authentication facade, subscription trie and retained store

    A shallow embedding of [Authentication] (authplugin.cpp), of
    [ThreadData::reload] (threaddata.cpp) and of [SubscriptionStore],
    [SubscriptionNode] and [RetainedMessageNode] (subscriptionstore.cpp),
    followed by the properties of the broker's specification that concern
    them.

    Conventions of the embedding:
    - a C++ object mutated in place is a record that every member function
      takes and returns;
    - [std::unordered_map] and [std::unordered_set] are [gmap]s; a
      [unique_ptr] that may be null is an [option];
    - a [shared_ptr<Session>] is the address of the session object and a
      [weak_ptr<Session>] is an address that may have left the heap;
    - the mutexes and reader-writer locks are not represented: every member
      function is embedded as the atomic step it is under its lock. *)

From stdpp Require Import gmap strings list fin_maps.
From Stdlib Require Import ZArith Ascii Strings.Byte.

Set Warnings "-register-all".
Set Default Proof Using "Type".

Local Open Scope Z_scope.

(** ** Part I. Definitions *)

(** *** Authentication (authplugin.cpp) *)

Module Auth.

(** [enum class AuthResult]. The enumerators are the four the source names;
    their integer values are declared in a header that is not among the
    sources, so a plugin's [int] may also cast to a value that is none of
    them. *)
Inductive AuthResult :=
| success
| acl_denied
| login_denied
| error
| undeclared (v : Z).

#[global] Instance AuthResult_eq_dec : EqDecision AuthResult.
Proof. solve_decision. Defined.

Inductive AclAccess := read | write | subscribe.

#[global] Instance byte_eq_dec : EqDecision byte := Byte.byte_eq_dec.

Inductive exn := FatalError | AuthPluginException | runtime_error.

#[global] Instance exn_eq_dec : EqDecision exn.
Proof. solve_decision. Defined.

Inductive outcome (A : Type) :=
| Returned (a : A)
| Thrown (e : exn).
Arguments Returned {A} a.
Arguments Thrown {A} e.

Record timespec := { tv_sec : Z; tv_nsec : Z }.

Record MosquittoPasswordFileEntry := {
  salt : list byte;
  cryptedPassword : list byte }.

Record Settings := {
  allowAnonymous : bool;
  authPluginSerializeInit : bool;
  authPluginSerializeAuthChecks : bool;
  authOpts : list (string * string) }.

(** What [access], [stat] and the [getline] loop see of the password file at
    the moment of a tick. *)
Record PasswordFileOnDisk := {
  access_R_OK : bool;
  st_ctim : option timespec;
  file_lines : list string }.

(** The calls made into the plugin; a member function's [calls] lists them
    in order, each with the [int] the plugin returned. *)
Inductive PluginCall :=
| call_security_init (reloading : bool)
| call_security_cleanup (reloading : bool)
| call_acl_check (clientid username topic : string) (access : Z)
| call_unpwd_check (username password : string).

(** The calls of the plugin's life cycle: its [init] and [cleanup], and the
    calls above. *)
Inductive LifecycleCall :=
| call_init
| call_cleanup
| security_call (c : PluginCall).

(** What [access], [dlopen] and [dlsym] find of the plugin's file, and what
    its [mosquitto_auth_plugin_version] returns. *)
Record SharedObject := {
  so_access_R_OK : bool;
  so_dlopen : bool;
  so_symbols : list string;
  so_version : Z }.

(** The symbols [loadPlugin] resolves after the version. *)
Definition plugin_symbols : list string :=
  ["mosquitto_auth_plugin_init";
   "mosquitto_auth_plugin_cleanup";
   "mosquitto_auth_security_init";
   "mosquitto_auth_security_cleanup";
   "mosquitto_auth_acl_check";
   "mosquitto_auth_unpwd_check";
   "mosquitto_auth_psk_key_get"].

Section WithPlugin.

(** The plugin's own data behind [void *pluginData]. *)
Context {PluginData : Type}.

(** The version 2 entry points resolved by [loadPlugin]; each may change the
    plugin's data and returns an [int]. *)
Variable security_init_v2 :
  PluginData -> list (string * string) -> bool -> PluginData * Z.
Variable security_cleanup_v2 :
  PluginData -> list (string * string) -> bool -> PluginData * Z.
Variable acl_check_v2 :
  PluginData -> string -> string -> string -> Z -> PluginData * Z.
Variable unpwd_check_v2 :
  PluginData -> string -> string -> PluginData * Z.

(** [static_cast<AuthResult>(int)] and [static_cast<int>(AclAccess)]: fixed
    by the enum declarations of the missing headers. *)
Variable static_cast_AuthResult : Z -> AuthResult.
Variable static_cast_int : AclAccess -> Z.

(** utils: [splitToVector(input, sep, max, keep_empty_parts)] and
    [base64Decode], which throws on malformed input. *)
Variable splitToVector : string -> ascii -> Z -> bool -> list string.
Variable base64Decode : string -> option (list byte).

(** OpenSSL's SHA-512 over the bytes fed by [EVP_DigestUpdate]. *)
Variable sha512 : list byte -> list byte.

Record Authentication := {
  settings : Settings;
  mosquittoPasswordFile : string;
  mosquittoPasswordEntries : option (gmap string MosquittoPasswordFileEntry);
  mosquittoPasswordFileLastLoad : timespec;
  pluginData : PluginData;
  useExternalPlugin : bool;
  initialized : bool;
  quitting : bool }.

Definition set_initialized (b : bool) (a : Authentication) : Authentication :=
  {| settings := settings a;
     mosquittoPasswordFile := mosquittoPasswordFile a;
     mosquittoPasswordEntries := mosquittoPasswordEntries a;
     mosquittoPasswordFileLastLoad := mosquittoPasswordFileLastLoad a;
     pluginData := pluginData a;
     useExternalPlugin := useExternalPlugin a;
     initialized := b;
     quitting := quitting a |}.

Definition set_pluginData (d : PluginData) (a : Authentication) : Authentication :=
  {| settings := settings a;
     mosquittoPasswordFile := mosquittoPasswordFile a;
     mosquittoPasswordEntries := mosquittoPasswordEntries a;
     mosquittoPasswordFileLastLoad := mosquittoPasswordFileLastLoad a;
     pluginData := d;
     useExternalPlugin := useExternalPlugin a;
     initialized := initialized a;
     quitting := quitting a |}.

Definition set_quitting (b : bool) (a : Authentication) : Authentication :=
  {| settings := settings a;
     mosquittoPasswordFile := mosquittoPasswordFile a;
     mosquittoPasswordEntries := mosquittoPasswordEntries a;
     mosquittoPasswordFileLastLoad := mosquittoPasswordFileLastLoad a;
     pluginData := pluginData a;
     useExternalPlugin := useExternalPlugin a;
     initialized := initialized a;
     quitting := b |}.

Definition set_passwords (es : gmap string MosquittoPasswordFileEntry)
    (t : timespec) (a : Authentication) : Authentication :=
  {| settings := settings a;
     mosquittoPasswordFile := mosquittoPasswordFile a;
     mosquittoPasswordEntries := Some es;
     mosquittoPasswordFileLastLoad := t;
     pluginData := pluginData a;
     useExternalPlugin := useExternalPlugin a;
     initialized := initialized a;
     quitting := quitting a |}.

(** A member function: it reads and writes the object, calls into the plugin
    and either returns or throws. *)
Record run (A : Type) := Run {
  after : Authentication;
  calls : list (PluginCall * Z);
  result : outcome A }.
Arguments Run {A} after calls result.
Arguments after {A} r.
Arguments calls {A} r.
Arguments result {A} r.

Definition M (A : Type) : Type := Authentication -> run A.

Definition ret {A} (x : A) : M A := fun a => Run a [] (Returned x).

Definition throw {A} (e : exn) : M A := fun a => Run a [] (Thrown e).

Definition bind {A B} (m : M A) (k : A -> M B) : M B := fun a =>
  let r := m a in
  match result r with
  | Returned x =>
      let r' := k x (after r) in
      Run (after r') (calls r ++ calls r') (result r')
  | Thrown e => Run (after r) (calls r) (Thrown e)
  end.

(** [try { m } catch (E &) { h }] for one exception class [E]. *)
Definition try_catch {A} (m : M A) (E : exn) (h : M A) : M A := fun a =>
  let r := m a in
  match result r with
  | Thrown e =>
      if bool_decide (e = E)
      then let r' := h (after r) in
           Run (after r') (calls r ++ calls r') (result r')
      else r
  | Returned _ => r
  end.

Definition get : M Authentication := fun a => Run a [] (Returned a).

Definition modify (f : Authentication -> Authentication) : M unit :=
  fun a => Run (f a) [] (Returned tt).

(** A call through one of the plugin's function pointers. *)
Definition plugin (c : PluginCall) (f : PluginData -> PluginData * Z) : M Z :=
  fun a =>
    let dr := f (pluginData a) in
    Run (set_pluginData (fst dr) a) [(c, snd dr)] (Returned (snd dr)).

#[local] Instance M_ret : MRet M := @ret.
#[local] Instance M_bind : MBind M := fun A B k m => bind m k.

(** [Authentication::securityInit] *)
Definition securityInit (reloading : bool) : M unit :=
  a ← get;
  if negb (useExternalPlugin a) then ret tt else
  if quitting a then ret tt else
  result ← plugin (call_security_init reloading)
    (fun d => security_init_v2 d (authOpts (settings a)) reloading);
  if bool_decide (result ≠ 0) then throw AuthPluginException else
  modify (set_initialized true).

(** [Authentication::securityCleanup] *)
Definition securityCleanup (reloading : bool) : M unit :=
  a ← get;
  if negb (useExternalPlugin a) then ret tt else
  _ ← modify (set_initialized false);
  result ← plugin (call_security_cleanup reloading)
    (fun d => security_cleanup_v2 d (authOpts (settings a)) reloading);
  if bool_decide (result ≠ 0) then throw AuthPluginException else
  ret tt.

(** [ThreadData::reload] (threaddata.cpp): the handler only logs. *)
Definition reload : M unit :=
  try_catch
    (_ ← securityCleanup true; securityInit true)
    AuthPluginException
    (ret tt).

(** [Authentication::aclCheck] *)
Definition aclCheck (clientid username topic : string) (access : AclAccess)
    : M AuthResult :=
  a ← get;
  if negb (useExternalPlugin a) then ret success else
  if negb (initialized a) then ret error else
  result ← plugin
    (call_acl_check clientid username topic (static_cast_int access))
    (fun d => acl_check_v2 d clientid username topic (static_cast_int access));
  ret (static_cast_AuthResult result).

(** [Authentication::unPwdCheckFromMosquittoPasswordFile] *)
Definition unPwdCheckFromMosquittoPasswordFile (username password : string)
    (a : Authentication) : AuthResult :=
  if bool_decide (mosquittoPasswordFile a = "") then success else
  match mosquittoPasswordEntries a with
  | None => login_denied
  | Some entries =>
      let result :=
        if allowAnonymous (settings a) then success else login_denied in
      match entries !! username with
      | Some entry =>
          let hashedSalted :=
            sha512 (String.list_byte_of_string password ++ salt entry) in
          if bool_decide (hashedSalted = cryptedPassword entry)
          then success else login_denied
      | None => result
      end
  end.

(** [Authentication::unPwdCheck] *)
Definition unPwdCheck (username password : string) : M AuthResult :=
  a ← get;
  let firstResult := unPwdCheckFromMosquittoPasswordFile username password a in
  if bool_decide (firstResult ≠ success) then ret firstResult else
  if negb (useExternalPlugin a) then ret firstResult else
  if negb (initialized a) then ret error else
  result ← plugin (call_unpwd_check username password)
    (fun d => unpwd_check_v2 d username password);
  ret (static_cast_AuthResult result).

(** [Authentication::setQuitting] *)
Definition setQuitting : M unit := modify (set_quitting true).

(** One line of the password file: the body of the inner [try], whose
    [catch] drops the line. [None] is a thrown [std::exception]. *)
Definition parse_line (line : string)
    : option (string * MosquittoPasswordFileEntry) :=
  let fields := splitToVector line ":"%char 2147483647 true in
  if bool_decide (length fields ≠ 2%nat) then None else
  match fields with
  | [username; field1] =>
      if bool_decide (Exists (fun field => String.length field = 0%nat) fields)
      then None else
      let fields2 := splitToVector field1 "$"%char 3 false in
      match fields2 with
      | [f0; f1; f2] =>
          if bool_decide (f0 ≠ "6") then None else
          s ← base64Decode f1;
          c ← base64Decode f2;
          Some (username, {| salt := s; cryptedPassword := c |})
      | _ => None
      end
  | _ => None
  end.

(** The [getline] loop: empty lines are skipped, a line that throws is
    dropped, and [emplace] keeps the first entry of a user name. *)
Fixpoint load_lines (lines : list string)
    (passwordEntries_tmp : gmap string MosquittoPasswordFileEntry)
    : gmap string MosquittoPasswordFileEntry :=
  match lines with
  | [] => passwordEntries_tmp
  | line :: rest =>
      if bool_decide (line = "") then load_lines rest passwordEntries_tmp else
      match parse_line line with
      | Some (username, entry) =>
          match passwordEntries_tmp !! username with
          | Some _ => load_lines rest passwordEntries_tmp
          | None => load_lines rest (<[username := entry]> passwordEntries_tmp)
          end
      | None => load_lines rest passwordEntries_tmp
      end
  end.

(** [Authentication::loadMosquittoPasswordFile], run against the file as it
    is on disk at the tick. *)
Definition loadMosquittoPasswordFile (file : PasswordFileOnDisk) : M unit :=
  a ← get;
  if bool_decide (mosquittoPasswordFile a = "") then ret tt else
  if negb (access_R_OK file) then ret tt else
  match st_ctim file with
  | None => throw runtime_error
  | Some ctime =>
      if bool_decide (tv_sec ctime = tv_sec (mosquittoPasswordFileLastLoad a))
      then ret tt else
      modify (set_passwords (load_lines (file_lines file) ∅) ctime)
  end.

(** The entry points a worker thread uses once the plugin is loaded. *)
Inductive call :=
| CallSecurityInit (reloading : bool)
| CallSecurityCleanup (reloading : bool)
| CallReload
| CallAclCheck (clientid username topic : string) (access : AclAccess)
| CallUnPwdCheck (username password : string)
| CallSetQuitting
| CallLoadMosquittoPasswordFile (file : PasswordFileOnDisk).

(** What the caller of an entry point is handed back. *)
Inductive reply :=
| Checked (r : AuthResult)
| Done.

Definition step (c : call) : M reply :=
  match c with
  | CallSecurityInit reloading => _ ← securityInit reloading; ret Done
  | CallSecurityCleanup reloading => _ ← securityCleanup reloading; ret Done
  | CallReload => _ ← reload; ret Done
  | CallAclCheck clientid username topic access =>
      r ← aclCheck clientid username topic access; ret (Checked r)
  | CallUnPwdCheck username password =>
      r ← unPwdCheck username password; ret (Checked r)
  | CallSetQuitting => _ ← setQuitting; ret Done
  | CallLoadMosquittoPasswordFile file =>
      _ ← loadMosquittoPasswordFile file; ret Done
  end.

(** A sequence of entry points run one after the other: for each, the
    object before it, the call, and its run. An exception that leaves an
    entry point is its caller's to handle; the object stays as it was left. *)
Fixpoint history (cs : list call) (a : Authentication)
    : list (Authentication * call * run reply) :=
  match cs with
  | [] => []
  | c :: rest => let r := step c a in (a, c, r) :: history rest (after r)
  end.

(** The plugin is configured and the facade refuses to consult it. *)
Definition fails_closed (a : Authentication) : Prop :=
  useExternalPlugin a = true ∧ initialized a = false.

(** The entry of the first line of the file that gives [username] one: what
    the [getline] loop leaves in the table for that name. *)
Fixpoint first_entry (username : string) (lines : list string)
    : option MosquittoPasswordFileEntry :=
  match lines with
  | [] => None
  | line :: rest =>
      if bool_decide (line = "") then first_entry username rest else
      match parse_line line with
      | Some (u, entry) =>
          if bool_decide (u = username) then Some entry
          else first_entry username rest
      | None => first_entry username rest
      end
  end.

(** **** Loading, initialising and cleaning up the plugin *)

(** The remaining entry points of the plugin: [init] stores the plugin's
    data through its first argument; [cleanup_v2] is a null pointer until
    [loadPlugin] has resolved it. *)
Variable init_v2 : PluginData -> list (string * string) -> PluginData * Z.
Variable cleanup_v2 :
  option (PluginData -> list (string * string) -> PluginData * Z).

Definition set_useExternalPlugin (b : bool) (a : Authentication)
    : Authentication :=
  {| settings := settings a;
     mosquittoPasswordFile := mosquittoPasswordFile a;
     mosquittoPasswordEntries := mosquittoPasswordEntries a;
     mosquittoPasswordFileLastLoad := mosquittoPasswordFileLastLoad a;
     pluginData := pluginData a;
     useExternalPlugin := b;
     initialized := initialized a;
     quitting := quitting a |}.

(** A member function of the plugin's life cycle: the object afterwards,
    the calls into the plugin with the [int] each returned, and the
    outcome. *)
Record lifecycle (A : Type) := Lifecycle {
  object : Authentication;
  plugin_calls : list (LifecycleCall * Z);
  outcome_of : outcome A }.
Arguments Lifecycle {A} object plugin_calls outcome_of.
Arguments object {A} l.
Arguments plugin_calls {A} l.
Arguments outcome_of {A} l.

Definition security_calls (tr : list (PluginCall * Z))
    : list (LifecycleCall * Z) :=
  (fun cz : PluginCall * Z => (security_call (fst cz), snd cz)) <$> tr.

(** [Authentication::loadPlugin], against the file as [access], [dlopen] and
    [dlsym] find it. *)
Definition loadPlugin (pathToSoFile : string) (so : SharedObject)
    (a : Authentication) : Authentication * outcome unit :=
  if bool_decide (pathToSoFile = "") then (a, Returned tt) else
  let a := set_useExternalPlugin true (set_initialized false a) in
  if negb (so_access_R_OK so) then (a, Thrown FatalError) else
  if negb (so_dlopen so) then (a, Thrown FatalError) else
  if negb (bool_decide ("mosquitto_auth_plugin_version" ∈ so_symbols so))
  then (a, Thrown FatalError) else
  if bool_decide (so_version so ≠ 2) then (a, Thrown FatalError) else
  if negb (forallb (fun symbol => bool_decide (symbol ∈ so_symbols so))
             plugin_symbols)
  then (a, Thrown FatalError) else
  (set_initialized true a, Returned tt).

(** [Authentication::init] *)
Definition init (a : Authentication) : lifecycle unit :=
  if negb (useExternalPlugin a) then Lifecycle a [] (Returned tt) else
  if quitting a then Lifecycle a [] (Returned tt) else
  let dr := init_v2 (pluginData a) (authOpts (settings a)) in
  Lifecycle (set_pluginData (fst dr) a) [(call_init, snd dr)]
    (if bool_decide (snd dr ≠ 0) then Thrown FatalError else Returned tt).

(** [Authentication::cleanup]; a failure of the plugin's [cleanup] is only
    logged. *)
Definition cleanup (a : Authentication) : lifecycle unit :=
  match cleanup_v2 with
  | None => Lifecycle a [] (Returned tt)
  | Some cleanup_v2 =>
      let r := securityCleanup false a in
      match result r with
      | Thrown e => Lifecycle (after r) (security_calls (calls r)) (Thrown e)
      | Returned _ =>
          let dr := cleanup_v2 (pluginData (after r)) (authOpts (settings a)) in
          Lifecycle (set_pluginData (fst dr) (after r))
            (security_calls (calls r) ++ [(call_cleanup, snd dr)])
            (Returned tt)
      end
  end.

(** [ThreadData::initAuthPlugin] (threaddata.cpp) *)
Definition initAuthPlugin (authPluginPath : string) (so : SharedObject)
    (a : Authentication) : lifecycle unit :=
  match loadPlugin authPluginPath so a with
  | (a1, Thrown e) => Lifecycle a1 [] (Thrown e)
  | (a1, Returned _) =>
      let i := init a1 in
      match outcome_of i with
      | Thrown e => Lifecycle (object i) (plugin_calls i) (Thrown e)
      | Returned _ =>
          let r := securityInit false (object i) in
          Lifecycle (after r) (plugin_calls i ++ security_calls (calls r))
            (result r)
      end
  end.

End WithPlugin.

(** A [securityInit] ran to its end: the plugin's [security_init] was called
    and returned 0. *)
Definition init_completed (tr : list (PluginCall * Z)) : Prop :=
  ∃ reloading, (call_security_init reloading, 0) ∈ tr.

Arguments Lifecycle {PluginData A} object plugin_calls outcome_of.
Arguments object {PluginData A} l.
Arguments plugin_calls {PluginData A} l.
Arguments outcome_of {PluginData A} l.

Arguments Run {PluginData A} after calls result.
Arguments after {PluginData A} r.
Arguments calls {PluginData A} r.
Arguments result {PluginData A} r.

(** **** A plugin and two brokers to run the facade on *)

Module Sample.

(** A plugin that counts the calls it gets, accepts every check, and whose
    [security_init] fails whenever it is a reload. *)
Definition security_init_v2 (d : nat) (_ : list (string * string))
    (reloading : bool) : nat * Z :=
  (S d, if reloading then 1 else 0).

Definition security_cleanup_v2 (d : nat) (_ : list (string * string))
    (_ : bool) : nat * Z :=
  (S d, 0).

Definition acl_check_v2 (d : nat) (_ _ _ : string) (_ : Z) : nat * Z :=
  (S d, 0).

Definition unpwd_check_v2 (d : nat) (_ _ : string) : nat * Z :=
  (S d, 0).

(** Mosquitto's numbering: success 0, auth 11, ACL denied 12, unknown 13. *)
Definition static_cast_AuthResult (z : Z) : AuthResult :=
  if bool_decide (z = 0) then success
  else if bool_decide (z = 11) then login_denied
  else if bool_decide (z = 12) then acl_denied
  else if bool_decide (z = 13) then error
  else undeclared z.

Definition static_cast_int (access : AclAccess) : Z :=
  match access with
  | read => 1
  | write => 2
  | subscribe => 4
  end.

(** Stand-ins for the parsing helpers and the digest; the runs below never
    reach them. *)
Definition splitToVector (_ : string) (_ : ascii) (_ : Z) (_ : bool)
    : list string := [].

Definition base64Decode (_ : string) : option (list byte) := None.

Definition sha512 (bytes : list byte) : list byte := bytes.

Definition plain_settings : Settings :=
  {| allowAnonymous := false;
     authPluginSerializeInit := false;
     authPluginSerializeAuthChecks := false;
     authOpts := [] |}.

Definition anonymous_settings : Settings :=
  {| allowAnonymous := true;
     authPluginSerializeInit := false;
     authPluginSerializeAuthChecks := false;
     authOpts := [] |}.

(** A broker with the plugin loaded and initialised and no password file. *)
Definition with_plugin : @Authentication nat :=
  {| settings := plain_settings;
     mosquittoPasswordFile := "";
     mosquittoPasswordEntries := None;
     mosquittoPasswordFileLastLoad := {| tv_sec := 0; tv_nsec := 0 |};
     pluginData := 0%nat;
     useExternalPlugin := true;
     initialized := true;
     quitting := false |}.

(** A broker with [allow_anonymous], no plugin, and a password file that was
    loaded, at second 100 sharp, without any entry. *)
Definition with_password_file : @Authentication nat :=
  {| settings := anonymous_settings;
     mosquittoPasswordFile := "/etc/flashmq/passwd";
     mosquittoPasswordEntries := Some ∅;
     mosquittoPasswordFileLastLoad := {| tv_sec := 100; tv_nsec := 0 |};
     pluginData := 0%nat;
     useExternalPlugin := false;
     initialized := false;
     quitting := false |}.

(** The password file after a user was added half a second later. *)
Definition touched_password_file : PasswordFileOnDisk :=
  {| access_R_OK := true;
     st_ctim := Some {| tv_sec := 100; tv_nsec := 500000000 |};
     file_lines := ["alice:$6$c2FsdA==$ZGlnZXN0"] |}.

(** The password file replaced a second after the load. *)
Definition replaced_password_file : PasswordFileOnDisk :=
  {| access_R_OK := true;
     st_ctim := Some {| tv_sec := 101; tv_nsec := 0 |};
     file_lines := ["alice:$6$c2FsdA==$ZGlnZXN0"] |}.

(** A broker with neither a plugin nor a password file. *)
Definition unconfigured : @Authentication nat :=
  {| settings := plain_settings;
     mosquittoPasswordFile := "";
     mosquittoPasswordEntries := None;
     mosquittoPasswordFileLastLoad := {| tv_sec := 0; tv_nsec := 0 |};
     pluginData := 0%nat;
     useExternalPlugin := false;
     initialized := false;
     quitting := false |}.

(** A plugin whose [security_init] always succeeds, and its [init] and
    [cleanup]. *)
Definition security_init_ok (d : nat) (_ : list (string * string))
    (_ : bool) : nat * Z :=
  (S d, 0).

Definition init_v2 (d : nat) (_ : list (string * string)) : nat * Z :=
  (S d, 0).

Definition cleanup_v2 (d : nat) (_ : list (string * string)) : nat * Z :=
  (S d, 0).

(** The plugin's file as a version 2 plugin exports it, and the file of a
    plugin of another version. *)
Definition version_2_plugin : SharedObject :=
  {| so_access_R_OK := true;
     so_dlopen := true;
     so_symbols := "mosquitto_auth_plugin_version" :: plugin_symbols;
     so_version := 2 |}.

Definition version_3_plugin : SharedObject :=
  {| so_access_R_OK := true;
     so_dlopen := true;
     so_symbols := "mosquitto_auth_plugin_version" :: plugin_symbols;
     so_version := 3 |}.

(** A broker before [loadPlugin]. *)
Definition fresh : @Authentication nat :=
  {| settings := plain_settings;
     mosquittoPasswordFile := "";
     mosquittoPasswordEntries := None;
     mosquittoPasswordFileLastLoad := {| tv_sec := 0; tv_nsec := 0 |};
     pluginData := 0%nat;
     useExternalPlugin := false;
     initialized := false;
     quitting := false |}.

(** Parsing helpers to read a password file with: fields are cut at every
    separator, empty ones dropped on demand, and at most [max] kept; the
    base64 decoding and the digest are the identity on the bytes. *)
Fixpoint cut (sep : ascii) (s : string) : list string :=
  match s with
  | EmptyString => [EmptyString]
  | String c rest =>
      if bool_decide (c = sep) then EmptyString :: cut sep rest
      else match cut sep rest with
           | x :: xs => String c x :: xs
           | [] => [String c EmptyString]
           end
  end.

Definition split_fields (input : string) (sep : ascii) (max : Z)
    (keep_empty_parts : bool) : list string :=
  let parts :=
    List.filter
      (fun part => keep_empty_parts || negb (bool_decide (part = "")))
      (cut sep input) in
  if Z.of_nat (length parts) <=? max then parts
  else take (Z.to_nat max) parts.

Definition bytes_of (s : string) : option (list byte) :=
  Some (String.list_byte_of_string s).

(** A password file with a comment-like broken line, two lines for alice
    and one for bob, changed at second 200. *)
Definition two_users_file : PasswordFileOnDisk :=
  {| access_R_OK := true;
     st_ctim := Some {| tv_sec := 200; tv_nsec := 0 |};
     file_lines :=
       ["not a password line";
        "";
        "alice:$6$salt$secretsalt";
        "alice:$6$salt$othersalt";
        "bob:$6$pepper$hunter2pepper"] |}.

End Sample.

End Auth.

(** *** Subscription and retained-message store (subscriptionstore.cpp) *)

Module Store.

(** The address of a heap-allocated [Session]. *)
Definition SessionPtr := nat.

(** [struct Subscription]: a [weak_ptr<Session>] and the granted QoS. *)
Record Subscription := {
  session : SessionPtr;
  qos : Z }.

#[global] Instance Subscription_eq_dec : EqDecision Subscription.
Proof. solve_decision. Defined.

Inductive SubscriptionNode := mkSubscriptionNode {
  subtopic : string;
  children : gmap string SubscriptionNode;
  childrenPlus : option SubscriptionNode;
  childrenPound : option SubscriptionNode;
  subscribers : list Subscription }.

Record RetainedMessage := {
  topic : string;
  payload : string;
  rm_qos : Z }.

(** [retainedMessages] is an [unordered_set<RetainedMessage>].
    Modelled from the spec: the hash and equality of [RetainedMessage]
    (retainedmessage.cpp) are not among the sources; by the spec's data
    model "a retained topic stores exactly one payload", so two retained
    messages are the same element when their topics are equal, and the set
    is kept as a map from the topic to the message. *)
Inductive RetainedMessageNode := mkRetainedMessageNode {
  retained_children : gmap string RetainedMessageNode;
  retainedMessages : gmap string RetainedMessage }.

(** The [Publish] an [MqttPacket] is built from. *)
Record Publish := {
  publish_topic : string;
  publish_payload : string;
  publish_qos : Z;
  publish_retain : bool }.

(** One call [session->writePacket(packet, max_qos, retain, count)]. *)
Record Delivery := {
  to : SessionPtr;
  packet : Publish;
  max_qos : Z;
  retain : bool }.

(** Conversions to the fixed-width integer types of the source. *)
Definition to_int (z : Z) : Z := (z + 2 ^ 31) mod 2 ^ 32 - 2 ^ 31.
Definition to_int64_t (z : Z) : Z := (z + 2 ^ 63) mod 2 ^ 64 - 2 ^ 63.
Definition to_size_t (z : Z) : Z := z mod 2 ^ 64.

(** [topic.length() > 0 && topic[0] == '$'] *)
Definition starts_with_dollar (t : string) : bool :=
  match t with
  | String c _ => bool_decide (c = "$"%char)
  | EmptyString => false
  end.

(** [struct SubscriptionForSerializing]: what is saved of a subscription. *)
Record SubscriptionForSerializing := {
  clientId : string;
  saved_qos : Z }.

(** The position [std::find] stops at. *)
Fixpoint find_index {A} (p : A -> bool) (l : list A) : option nat :=
  match l with
  | [] => None
  | x :: rest => if p x then Some 0%nat else S <$> find_index p rest
  end.

Definition new_SubscriptionNode (subtopic : string) : SubscriptionNode :=
  mkSubscriptionNode subtopic ∅ None None [].

Definition new_RetainedMessageNode : RetainedMessageNode :=
  mkRetainedMessageNode ∅ ∅.

Definition set_subscribers (l : list Subscription) (n : SubscriptionNode)
    : SubscriptionNode :=
  mkSubscriptionNode (subtopic n) (children n) (childrenPlus n)
    (childrenPound n) l.

Section WithSession.

(** [class Session] (session.cpp) is not among the sources: the store only
    reads a session's client id, asks whether it has expired, and shares
    its ownership with the [Client] the session is assigned to. *)
Context {Session : Type}.
Variable getClientId : Session -> string.
Variable hasExpired : Session -> Z -> bool.
Variable owned_by_client : Session -> bool.

Record SubscriptionStore := {
  root : SubscriptionNode;
  rootDollar : SubscriptionNode;
  sessionsById : gmap string SessionPtr;
  heap : gmap SessionPtr Session;
  retainedMessagesRoot : RetainedMessageNode;
  retainedMessagesRootDollar : RetainedMessageNode;
  retainedMessageCount : Z }.

(** [weak_ptr::expired] *)
Definition expired (h : gmap SessionPtr Session) (p : SessionPtr) : bool :=
  bool_decide (h !! p = None).

(** [Subscription::operator==] *)
Definition Subscription_eq (h : gmap SessionPtr Session)
    (lhs rhs : Subscription) : bool :=
  if expired h (session lhs) && expired h (session rhs) then true else
  if expired h (session lhs) || expired h (session rhs) then false else
  match h !! session lhs, h !! session rhs with
  | Some lhs_ses, Some rhs_ses =>
      bool_decide (getClientId lhs_ses = getClientId rhs_ses)
  | _, _ => false
  end.

(** [SubscriptionNode::addSubscriber], on the node's [subscribers]. *)
Definition addSubscriber (h : gmap SessionPtr Session)
    (subscriber : SessionPtr) (q : Z) (subscribers : list Subscription)
    : list Subscription :=
  let sub := {| session := subscriber; qos := q |} in
  match find_index (fun x => Subscription_eq h x sub) subscribers with
  | None => subscribers ++ [sub]
  | Some i => <[i := sub]> subscribers
  end.

(** [SubscriptionNode::removeSubscriber] *)
Definition removeSubscriber (h : gmap SessionPtr Session)
    (subscriber : SessionPtr) (subscribers : list Subscription)
    : list Subscription :=
  let sub := {| session := subscriber; qos := 0 |} in
  match find_index (fun x => Subscription_eq h x sub) subscribers with
  | None => subscribers
  | Some i => delete i subscribers
  end.

(** The loop of [SubscriptionStore::getDeepestNode] from [deepestNode] on:
    it makes the missing nodes, and [k] is what the caller then does through
    the returned pointer. *)
Fixpoint walk_creating (subtopics : list string)
    (k : SubscriptionNode -> SubscriptionNode)
    (deepestNode : SubscriptionNode) : SubscriptionNode :=
  match subtopics with
  | [] => k deepestNode
  | subtopic :: rest =>
      if bool_decide (subtopic = "#") then
        let node :=
          default (new_SubscriptionNode subtopic) (childrenPound deepestNode) in
        mkSubscriptionNode (Store.subtopic deepestNode) (children deepestNode)
          (childrenPlus deepestNode) (Some (walk_creating rest k node))
          (subscribers deepestNode)
      else if bool_decide (subtopic = "+") then
        let node :=
          default (new_SubscriptionNode subtopic) (childrenPlus deepestNode) in
        mkSubscriptionNode (Store.subtopic deepestNode) (children deepestNode)
          (Some (walk_creating rest k node)) (childrenPound deepestNode)
          (subscribers deepestNode)
      else
        let node :=
          default (new_SubscriptionNode subtopic)
            (children deepestNode !! subtopic) in
        mkSubscriptionNode (Store.subtopic deepestNode)
          (<[subtopic := walk_creating rest k node]> (children deepestNode))
          (childrenPlus deepestNode) (childrenPound deepestNode)
          (subscribers deepestNode)
  end.

Definition set_root (n : SubscriptionNode) (st : SubscriptionStore)
    : SubscriptionStore :=
  {| root := n;
     rootDollar := rootDollar st;
     sessionsById := sessionsById st;
     heap := heap st;
     retainedMessagesRoot := retainedMessagesRoot st;
     retainedMessagesRootDollar := retainedMessagesRootDollar st;
     retainedMessageCount := retainedMessageCount st |}.

Definition set_rootDollar (n : SubscriptionNode) (st : SubscriptionStore)
    : SubscriptionStore :=
  {| root := root st;
     rootDollar := n;
     sessionsById := sessionsById st;
     heap := heap st;
     retainedMessagesRoot := retainedMessagesRoot st;
     retainedMessagesRootDollar := retainedMessagesRootDollar st;
     retainedMessageCount := retainedMessageCount st |}.

(** [SubscriptionStore::getDeepestNode] followed by [k] on its result. *)
Definition getDeepestNode (topic : string) (subtopics : list string)
    (k : SubscriptionNode -> SubscriptionNode) (st : SubscriptionStore)
    : SubscriptionStore :=
  if starts_with_dollar topic
  then set_rootDollar (walk_creating subtopics k (rootDollar st)) st
  else set_root (walk_creating subtopics k (root st)) st.

(** The child the loop of [removeSubscription] selects: [getChildren] for a
    literal subtopic, the wildcard slots otherwise; nothing is made. *)
Definition selectedChildren (subtopic : string) (deepestNode : SubscriptionNode)
    : option SubscriptionNode :=
  if bool_decide (subtopic = "#") then childrenPound deepestNode
  else if bool_decide (subtopic = "+") then childrenPlus deepestNode
  else children deepestNode !! subtopic.

(** The loop of [SubscriptionStore::removeSubscription] from [deepestNode]
    on, followed by [k] on the node it reaches; [None] is the [return] taken
    at a missing child. *)
Fixpoint walk_existing (subtopics : list string)
    (k : SubscriptionNode -> SubscriptionNode)
    (deepestNode : SubscriptionNode) : option SubscriptionNode :=
  match subtopics with
  | [] => Some (k deepestNode)
  | subtopic :: rest =>
      match selectedChildren subtopic deepestNode with
      | None => None
      | Some node =>
          node' ← walk_existing rest k node;
          Some
            (if bool_decide (subtopic = "#") then
               mkSubscriptionNode (Store.subtopic deepestNode)
                 (children deepestNode) (childrenPlus deepestNode)
                 (Some node') (subscribers deepestNode)
             else if bool_decide (subtopic = "+") then
               mkSubscriptionNode (Store.subtopic deepestNode)
                 (children deepestNode) (Some node')
                 (childrenPound deepestNode) (subscribers deepestNode)
             else
               mkSubscriptionNode (Store.subtopic deepestNode)
                 (<[subtopic := node']> (children deepestNode))
                 (childrenPlus deepestNode) (childrenPound deepestNode)
                 (subscribers deepestNode))
      end
  end.

(** utils' [split(topic, '/')] is not among the sources. *)
Variable split : string -> ascii -> list string.

(** [SubscriptionStore::removeSubscription] *)
Definition removeSubscription (clientid : string) (topic : string)
    (st : SubscriptionStore) : SubscriptionStore :=
  let subtopics := split topic "/"%char in
  let k (deepestNode : SubscriptionNode) :=
    match sessionsById st !! clientid with
    | Some ses =>
        set_subscribers
          (removeSubscriber (heap st) ses (subscribers deepestNode))
          deepestNode
    | None => deepestNode
    end in
  if starts_with_dollar topic then
    match walk_existing subtopics k (rootDollar st) with
    | None => st
    | Some n => set_rootDollar n st
    end
  else
    match walk_existing subtopics k (root st) with
    | None => st
    | Some n => set_root n st
    end.

(** [SubscriptionStore::publishNonRecursively] *)
Definition publishNonRecursively (h : gmap SessionPtr Session)
    (packet : Publish) (subscribers : list Subscription) : list Delivery :=
  flat_map
    (fun sub =>
       if expired h (session sub) then []
       else [{| to := session sub; packet := packet; max_qos := qos sub;
                retain := false |}])
    subscribers.

(** [SubscriptionStore::publishRecursively]; the subtopics from
    [cur_subtopic_it] to [end] are the list. *)
Fixpoint publishRecursively (h : gmap SessionPtr Session)
    (subtopics : list string) (this_node : SubscriptionNode)
    (packet : Publish) : list Delivery :=
  match subtopics with
  | [] => publishNonRecursively h packet (subscribers this_node)
  | cur_subtop :: next_subtopic =>
      if bool_decide (children this_node = ∅)
         && bool_decide (childrenPlus this_node = None)
         && bool_decide (childrenPound this_node = None)
      then []
      else
        match childrenPound this_node with
        | Some pound => publishNonRecursively h packet (subscribers pound)
        | None => []
        end
        ++
        match children this_node !! cur_subtop with
        | Some sub_node => publishRecursively h next_subtopic sub_node packet
        | None => []
        end
        ++
        match childrenPlus this_node with
        | Some plus => publishRecursively h next_subtopic plus packet
        | None => []
        end
  end.

(** [SubscriptionStore::queuePacketAtSubscribers]: the calls of
    [writePacket] it makes, in order. The source asserts that [subtopics] is
    not empty; on an empty list a build without assertions publishes to the
    subscribers of the start node, as here. *)
Definition queuePacketAtSubscribers (subtopics : list string)
    (packet : Publish) (dollar : bool) (st : SubscriptionStore)
    : list Delivery :=
  let startNode := if dollar then rootDollar st else root st in
  publishRecursively (heap st) subtopics startNode packet.

(** The retained messages of one node, as [writePacket] calls. *)
Definition give_node (max_qos : Z) (ses : SessionPtr)
    (this_node : RetainedMessageNode) : list Delivery :=
  map_fold
    (fun _ rm acc =>
       {| to := ses;
          packet := {| publish_topic := topic rm;
                       publish_payload := payload rm;
                       publish_qos := rm_qos rm;
                       publish_retain := true |};
          max_qos := max_qos;
          retain := true |} :: acc)
    [] (retainedMessages this_node).

(** [SubscriptionStore::giveClientRetainedMessagesRecursively]; the
    iteration over an [unordered_map] is in the order of [map_fold]. *)
Fixpoint giveClientRetainedMessagesRecursively (subtopics : list string)
    (this_node : RetainedMessageNode) (max_qos : Z) (ses : SessionPtr)
    (poundMode : bool) {struct this_node} : list Delivery :=
  match subtopics with
  | [] =>
      give_node max_qos ses this_node
      ++ (if poundMode then
            map_fold
              (fun _ child acc =>
                 giveClientRetainedMessagesRecursively [] child max_qos ses
                   poundMode ++ acc)
              [] (retained_children this_node)
          else [])
  | cur_subtop :: next_subtopic =>
      let poundFound := bool_decide (cur_subtop = "#") in
      map_fold
        (fun name child acc =>
           if poundFound || bool_decide (cur_subtop = "+") then
             giveClientRetainedMessagesRecursively next_subtopic child max_qos
               ses poundFound ++ acc
           else if bool_decide (name = cur_subtop) then
             giveClientRetainedMessagesRecursively next_subtopic child max_qos
               ses false ++ acc
           else acc)
        [] (retained_children this_node)
  end.

(** [!subtopics.empty() && !subtopics[0].empty() && subtopics[0][0] == '$'] *)
Definition first_subtopic_dollar (subtopics : list string) : bool :=
  match subtopics with
  | s :: _ => starts_with_dollar s
  | [] => false
  end.

(** [SubscriptionStore::giveClientRetainedMessages] *)
Definition giveClientRetainedMessages (ses : SessionPtr)
    (subscribeSubtopics : list string) (max_qos : Z) (st : SubscriptionStore)
    : list Delivery :=
  let startNode :=
    if first_subtopic_dollar subscribeSubtopics
    then retainedMessagesRootDollar st else retainedMessagesRoot st in
  giveClientRetainedMessagesRecursively subscribeSubtopics startNode max_qos
    ses false.

(** [SubscriptionStore::getRetainedMessages]: [outputList] afterwards;
    [push_back] appends at the end. *)
Fixpoint getRetainedMessages (this_node : RetainedMessageNode)
    (outputList : list RetainedMessage) : list RetainedMessage :=
  map_fold (fun _ child acc => getRetainedMessages child acc)
    (map_fold (fun _ rm acc => acc ++ [rm]) outputList
       (retainedMessages this_node))
    (retained_children this_node).

(** [SubscriptionStore::saveRetainedMessages] up to the file: the [result]
    it hands to [RetainedMessagesDB::saveData], which is not among the
    sources. *)
Definition saveRetainedMessages (st : SubscriptionStore)
    : list RetainedMessage :=
  getRetainedMessages (retainedMessagesRoot st) [].

(** [SubscriptionStore::getSubscriptions]: [outputList] afterwards;
    [outputList[composedTopic]] makes an empty list where there is none. *)
Fixpoint getSubscriptions (h : gmap SessionPtr Session)
    (this_node : SubscriptionNode) (composedTopic : string) (root : bool)
    (outputList : gmap string (list SubscriptionForSerializing))
    : gmap string (list SubscriptionForSerializing) :=
  let own :=
    foldl
      (fun out node =>
         match h !! session node with
         | Some ses =>
             <[composedTopic :=
                 default [] (out !! composedTopic)
                 ++ [{| clientId := getClientId ses; saved_qos := qos node |}]]>
               out
         | None => out
         end)
      outputList (subscribers this_node) in
  let literal :=
    map_fold
      (fun name child acc =>
         getSubscriptions h child
           (if root then name else (composedTopic +:+ "/") +:+ name) false acc)
      own (children this_node) in
  let plus :=
    match childrenPlus this_node with
    | Some child =>
        getSubscriptions h child
          (if root then "+" else composedTopic +:+ "/+") false literal
    | None => literal
    end in
  match childrenPound this_node with
  | Some child =>
      getSubscriptions h child
        (if root then "#" else composedTopic +:+ "/#") false plus
  | None => plus
  end.

(** [SubscriptionStore::addSubscription]: the store afterwards and the
    retained messages handed to the subscriber. *)
Definition addSubscription (clientid : string) (topic : string)
    (subtopics : list string) (q : Z) (st : SubscriptionStore)
    : SubscriptionStore * list Delivery :=
  match sessionsById st !! clientid with
  | Some ses =>
      let st' :=
        getDeepestNode topic subtopics
          (fun deepestNode =>
             set_subscribers
               (addSubscriber (heap st) ses q (subscribers deepestNode))
               deepestNode)
          st in
      (st', giveClientRetainedMessages ses subtopics q st')
  | None => (getDeepestNode topic subtopics (fun deepestNode => deepestNode) st, [])
  end.

(** [RetainedMessageNode::addPayload]: the node and [totalCount] afterwards. *)
Definition addPayload (t : string) (p : string) (q : Z) (totalCount : Z)
    (node : RetainedMessageNode) : RetainedMessageNode * Z :=
  let countBefore := to_int64_t (Z.of_nat (size (retainedMessages node))) in
  let rm := {| topic := t; payload := p; rm_qos := q |} in
  let retained_found := bool_decide (is_Some (retainedMessages node !! t)) in
  if negb retained_found && bool_decide (p = "") then (node, totalCount) else
  if retained_found && bool_decide (p = "") then
    let erased := delete t (retainedMessages node) in
    let diffCount :=
      to_int64_t (to_size_t (Z.of_nat (size erased) - countBefore)) in
    (mkRetainedMessageNode (retained_children node) erased,
     to_int64_t (totalCount + diffCount))
  else
    let erased :=
      if retained_found then delete t (retainedMessages node)
      else retainedMessages node in
    let inserted :=
      match erased !! t with
      | Some _ => erased
      | None => <[t := rm]> erased
      end in
    let diffCount :=
      to_int64_t (to_size_t (Z.of_nat (size inserted) - countBefore)) in
    (mkRetainedMessageNode (retained_children node) inserted,
     to_int64_t (totalCount + diffCount)).

(** The loop of [SubscriptionStore::setRetainedMessage] from [deepestNode]
    on, which makes the missing nodes, followed by [k] on the node it
    reaches. *)
Fixpoint walk_creating_retained {A} (subtopics : list string)
    (k : RetainedMessageNode -> RetainedMessageNode * A)
    (deepestNode : RetainedMessageNode) : RetainedMessageNode * A :=
  match subtopics with
  | [] => k deepestNode
  | subtopic :: rest =>
      let selectedChildren :=
        default new_RetainedMessageNode
          (retained_children deepestNode !! subtopic) in
      let r := walk_creating_retained rest k selectedChildren in
      (mkRetainedMessageNode
         (<[subtopic := fst r]> (retained_children deepestNode))
         (retainedMessages deepestNode),
       snd r)
  end.

(** [SubscriptionStore::setRetainedMessage] *)
Definition setRetainedMessage (t : string) (subtopics : list string)
    (p : string) (q : Z) (st : SubscriptionStore) : SubscriptionStore :=
  let k := addPayload t p q (retainedMessageCount st) in
  if first_subtopic_dollar subtopics then
    let r := walk_creating_retained subtopics k (retainedMessagesRootDollar st) in
    {| root := root st;
       rootDollar := rootDollar st;
       sessionsById := sessionsById st;
       heap := heap st;
       retainedMessagesRoot := retainedMessagesRoot st;
       retainedMessagesRootDollar := fst r;
       retainedMessageCount := snd r |}
  else
    let r := walk_creating_retained subtopics k (retainedMessagesRoot st) in
    {| root := root st;
       rootDollar := rootDollar st;
       sessionsById := sessionsById st;
       heap := heap st;
       retainedMessagesRoot := fst r;
       retainedMessagesRootDollar := retainedMessagesRootDollar st;
       retainedMessageCount := snd r |}.

(** [SubscriptionNode::cleanSubscriptions]: the node afterwards and the
    returned [int]. *)
Fixpoint cleanSubscriptions (h : gmap SessionPtr Session)
    (this_node : SubscriptionNode) : SubscriptionNode * Z :=
  let cleaned := cleanSubscriptions h <$> children this_node in
  let left_literal :=
    map_fold (fun _ r acc => to_int (acc + snd r)) 0 cleaned in
  let kept :=
    omap (fun r : SubscriptionNode * Z =>
            if 0 <? snd r then Some (fst r) else None) cleaned in
  let plus := cleanSubscriptions h <$> childrenPlus this_node in
  let left_plus :=
    match plus with
    | Some r => to_int (left_literal + snd r)
    | None => left_literal
    end in
  let pound := cleanSubscriptions h <$> childrenPound this_node in
  let subscribersLeftInChildren :=
    match pound with
    | Some r => to_int (left_plus + snd r)
    | None => left_plus
    end in
  let reset (o : option (SubscriptionNode * Z)) :=
    r ← o; if bool_decide (snd r = 0) then None else Some (fst r) in
  let alive :=
    filter (fun sub => expired h (session sub) = false) (subscribers this_node) in
  (mkSubscriptionNode (subtopic this_node) kept (reset plus) (reset pound) alive,
   to_int (to_size_t (Z.of_nat (length alive) + to_size_t subscribersLeftInChildren))).

(** The registry lets go of its [shared_ptr]: the session is destroyed, and
    every [weak_ptr] to it expires, unless a client still owns it. *)
Definition release (p : SessionPtr) (h : gmap SessionPtr Session)
    : gmap SessionPtr Session :=
  match h !! p with
  | Some s => if owned_by_client s then h else delete p h
  | None => h
  end.

Definition set_sessions (ids : gmap string SessionPtr)
    (h : gmap SessionPtr Session) (st : SubscriptionStore)
    : SubscriptionStore :=
  {| root := root st;
     rootDollar := rootDollar st;
     sessionsById := ids;
     heap := h;
     retainedMessagesRoot := retainedMessagesRoot st;
     retainedMessagesRootDollar := retainedMessagesRootDollar st;
     retainedMessageCount := retainedMessageCount st |}.

(** [SubscriptionStore::removeSession]; [sessionsById.begin()] is the first
    entry in the iteration order of the map, here that of [map_to_list]. *)
Definition removeSession (clientid : string) (st : SubscriptionStore)
    : SubscriptionStore :=
  match map_to_list (sessionsById st) with
  | [] => st
  | session_it :: _ =>
      set_sessions (delete (fst session_it) (sessionsById st))
        (release (snd session_it) (heap st)) st
  end.

(** [session->hasExpired(expireSessionsAfterSeconds)] through the registry's
    pointer. *)
Definition session_hasExpired (h : gmap SessionPtr Session)
    (expireSessionsAfterSeconds : Z) (p : SessionPtr) : bool :=
  match h !! p with
  | Some s => hasExpired s expireSessionsAfterSeconds
  | None => false
  end.

(** [SubscriptionStore::removeExpiredSessionsClients] *)
Definition removeExpiredSessionsClients (expireSessionsAfterSeconds : Z)
    (st : SubscriptionStore) : SubscriptionStore :=
  let gone (entry : string * SessionPtr) : Prop :=
    session_hasExpired (heap st) expireSessionsAfterSeconds (snd entry) = true in
  let erased := filter gone (sessionsById st) in
  let kept := filter (fun entry => ¬ gone entry) (sessionsById st) in
  let h := map_fold (fun _ p acc => release p acc) (heap st) erased in
  set_root (fst (cleanSubscriptions h (root st))) (set_sessions kept h st).

End WithSession.

(** *** Notions the properties are stated with *)

(** The node a filter's subtopics lead to, if every node on the way exists. *)
Fixpoint node_at (subtopics : list string) (n : SubscriptionNode)
    : option SubscriptionNode :=
  match subtopics with
  | [] => Some n
  | subtopic :: rest => selectedChildren subtopic n ≫= node_at rest
  end.

Definition subscribers_at (filter : list string) (n : SubscriptionNode)
    : list Subscription :=
  match node_at filter n with
  | Some m => subscribers m
  | None => []
  end.

(** What a caller does through the pointer [getDeepestNode] returns keeps
    the node's children. *)
Definition keeps_children (k : SubscriptionNode -> SubscriptionNode) : Prop :=
  ∀ m, children (k m) = children m
       ∧ childrenPlus (k m) = childrenPlus m
       ∧ childrenPound (k m) = childrenPound m.

(** The key [getSubscriptions] composes for the node of a path. *)
Fixpoint composedTopic_at (composedTopic : string) (root : bool)
    (path : list string) : string :=
  match path with
  | [] => composedTopic
  | subtopic :: rest =>
      composedTopic_at
        (if root then subtopic else (composedTopic +:+ "/") +:+ subtopic)
        false rest
  end.

(** The node path of a filter exists in the trie below [n]. *)
Inductive has_path : SubscriptionNode -> list string -> Prop :=
| has_path_here n : has_path n []
| has_path_pound n child rest :
    childrenPound n = Some child -> has_path child rest ->
    has_path n ("#" :: rest)
| has_path_plus n child rest :
    childrenPlus n = Some child -> has_path child rest ->
    has_path n ("+" :: rest)
| has_path_literal n subtopic child rest :
    subtopic ≠ "#" -> subtopic ≠ "+" ->
    children n !! subtopic = Some child -> has_path child rest ->
    has_path n (subtopic :: rest).

(** A publish topic carries no wildcard. *)
Definition wildcard_free (subtopics : list string) : Prop :=
  Forall (fun s => s ≠ "#" ∧ s ≠ "+") subtopics.


(** The same, except that a final [#] needs at least one more level. *)
Fixpoint matches_below (filter topic : list string) : bool :=
  match filter, topic with
  | [], [] => true
  | f :: fs, s :: ts =>
      if bool_decide (f = "#") then bool_decide (fs = []) else
      (bool_decide (f = "+") || bool_decide (f = s)) && matches_below fs ts
  | _, _ => false
  end.

(** The filters [matches_below] accepts for a topic, each once. *)
Fixpoint matching_filters (topic : list string) : list (list string) :=
  match topic with
  | [] => [[]]
  | s :: ts =>
      ["#"] :: ((cons s <$> matching_filters ts)
                ++ (cons "+" <$> matching_filters ts))
  end.

(** The subscriptions with a live session in the subtree of a node. *)
Fixpoint live_subscriptions {Session} (h : gmap SessionPtr Session)
    (n : SubscriptionNode) : nat :=
  (length (filter (fun sub => expired h (session sub) = false) (subscribers n))
   + map_fold (fun _ child acc => live_subscriptions h child + acc) 0
       (children n)
   + from_option (live_subscriptions h) 0 (childrenPlus n)
   + from_option (live_subscriptions h) 0 (childrenPound n))%nat.

(** The number of nodes of a subtree. *)
Fixpoint nodes_below (n : SubscriptionNode) : nat :=
  S (map_fold (fun _ child acc => nodes_below child + acc) 0 (children n)
     + from_option nodes_below 0 (childrenPlus n)
     + from_option nodes_below 0 (childrenPound n))%nat.

(** A node other than the root below which no live subscription is left. *)
Definition orphaned {Session} (h : gmap SessionPtr Session)
    (root : SubscriptionNode) (path : list string) : Prop :=
  path ≠ [] ∧ ∃ n, node_at path root = Some n ∧ live_subscriptions h n = 0%nat.

(** A subtopic with a wildcard next to other characters. *)
Fixpoint has_wildcard_char (s : string) : bool :=
  match s with
  | EmptyString => false
  | String c rest =>
      bool_decide (c = "#"%char) || bool_decide (c = "+"%char)
      || has_wildcard_char rest
  end.

Fixpoint valid_subtopics (subtopics : list string) : bool :=
  match subtopics with
  | [] => true
  | s :: rest =>
      (if bool_decide (s = "#") then bool_decide (rest = [])
       else bool_decide (s = "+") || negb (has_wildcard_char s))
      && valid_subtopics rest
  end.

(** A syntactically valid topic filter: not empty, [#] only as the last
    level, and a wildcard only as a whole level. *)
Definition valid_filter (topic : string) (subtopics : list string) : bool :=
  negb (bool_decide (topic = "")) && valid_subtopics subtopics.

(** The retained node a topic's subtopics lead to. *)
Fixpoint retained_node_at (subtopics : list string) (n : RetainedMessageNode)
    : option RetainedMessageNode :=
  match subtopics with
  | [] => Some n
  | subtopic :: rest => retained_children n !! subtopic ≫= retained_node_at rest
  end.

(** The retained message stored for topic [t] at the node of [subtopics]. *)
Definition stored_at (subtopics : list string) (t : string)
    (n : RetainedMessageNode) : option RetainedMessage :=
  m ← retained_node_at subtopics n; retainedMessages m !! t.

(** The number of payloads stored in the subtree of a node. *)
Fixpoint stored_payloads (n : RetainedMessageNode) : nat :=
  (size (retainedMessages n)
   + map_fold (fun _ child acc => stored_payloads child + acc) 0
       (retained_children n))%nat.

(** The number of nodes of a retained subtree. *)
Fixpoint retained_nodes_below (n : RetainedMessageNode) : nat :=
  S (map_fold (fun _ child acc => retained_nodes_below child + acc)%nat 0%nat
       (retained_children n)).

(** A filter in which [#] stands at the last level only. *)
Fixpoint pound_only_last (filter : list string) : bool :=
  match filter with
  | [] => true
  | f :: fs =>
      (if bool_decide (f = "#") then bool_decide (fs = []) else true)
      && pound_only_last fs
  end.

(** The [writePacket] call that hands a retained message to a session. *)
Definition replay (max_qos : Z) (ses : SessionPtr) (rm : RetainedMessage)
    : Delivery :=
  {| to := ses;
     packet := {| publish_topic := topic rm;
                  publish_payload := payload rm;
                  publish_qos := rm_qos rm;
                  publish_retain := true |};
     max_qos := max_qos;
     retain := true |}.

(** Modelled from the spec: utils' [split] is not among the sources; by the
    spec "a topic is a sequence of subtopics separated by [/]". It is used to
    run the store on concrete topics. *)
Fixpoint split_at (sep : ascii) (s : string) : list string :=
  match s with
  | EmptyString => [EmptyString]
  | String c rest =>
      if bool_decide (c = sep) then EmptyString :: split_at sep rest
      else match split_at sep rest with
           | x :: xs => String c x :: xs
           | [] => [String c EmptyString]
           end
  end.

(** The number of payloads the store holds, under both roots. *)
Definition stored {Session} (st : @SubscriptionStore Session) : nat :=
  (stored_payloads (retainedMessagesRoot st)
   + stored_payloads (retainedMessagesRootDollar st))%nat.

(** **** A session type and a broker to run the store on *)

Module Sample.

Record Session := {
  id : string;
  idle_seconds : Z;
  connected : bool }.

Definition getClientId (s : Session) : string := id s.

Definition hasExpired (s : Session) (expireAfterSeconds : Z) : bool :=
  negb (connected s) && (expireAfterSeconds <? idle_seconds s).

Definition owned_by_client (s : Session) : bool := connected s.

Definition split (t : string) (sep : ascii) : list string := split_at sep t.

Definition alice : Session :=
  {| id := "alice"; idle_seconds := 0; connected := true |}.

(** A broker with one connected client, no subscription and nothing
    retained. *)
Definition one_client : @SubscriptionStore Session :=
  {| root := new_SubscriptionNode "root";
     rootDollar := new_SubscriptionNode "rootDollar";
     sessionsById := {["alice" := 1%nat]};
     heap := {[1%nat := alice]};
     retainedMessagesRoot := new_RetainedMessageNode;
     retainedMessagesRootDollar := new_RetainedMessageNode;
     retainedMessageCount := 0 |}.

Definition bob : Session :=
  {| id := "bob"; idle_seconds := 1000; connected := false |}.

(** A broker with a connected client and a session idle for 1000 seconds
    whose client is gone; both are subscribed to [a/b], bob before alice. *)
Definition alice_and_idle_bob : @SubscriptionStore Session :=
  {| root :=
       mkSubscriptionNode "root"
         {["a" :=
             mkSubscriptionNode "a"
               {["b" :=
                   mkSubscriptionNode "b" ∅ None None
                     [{| session := 2%nat; qos := 2 |};
                      {| session := 1%nat; qos := 1 |}]]}
               None None []]}
         None None [];
     rootDollar := new_SubscriptionNode "rootDollar";
     sessionsById := {["alice" := 1%nat; "bob" := 2%nat]};
     heap := {[1%nat := alice; 2%nat := bob]};
     retainedMessagesRoot := new_RetainedMessageNode;
     retainedMessagesRootDollar := new_RetainedMessageNode;
     retainedMessageCount := 0 |}.

(** The sample broker with three messages retained: [home/light],
    [home/light/level] and [home/door]. *)
Definition with_retained : @SubscriptionStore Session :=
  {| root := new_SubscriptionNode "root";
     rootDollar := new_SubscriptionNode "rootDollar";
     sessionsById := {["alice" := 1%nat]};
     heap := {[1%nat := alice]};
     retainedMessagesRoot :=
       mkRetainedMessageNode
         {["home" :=
             mkRetainedMessageNode
               {["light" :=
                   mkRetainedMessageNode
                     {["level" :=
                         mkRetainedMessageNode ∅
                           {["home/light/level" :=
                               {| topic := "home/light/level"; payload := "7";
                                  rm_qos := 0 |}]}]}
                     {["home/light" :=
                         {| topic := "home/light"; payload := "on";
                            rm_qos := 1 |}]};
                 "door" :=
                   mkRetainedMessageNode ∅
                     {["home/door" :=
                         {| topic := "home/door"; payload := "shut";
                            rm_qos := 0 |}]}]}
               ∅]}
         ∅;
     retainedMessagesRootDollar := new_RetainedMessageNode;
     retainedMessageCount := 3 |}.

Definition a_packet : Publish :=
  {| publish_topic := "a";
     publish_payload := "22";
     publish_qos := 0;
     publish_retain := false |}.

End Sample.

End Store.

(** ** Part II. Properties *)

(** *** The authentication facade *)

Module AuthProperties.
Import Auth.

Section WithPlugin.

Context {PluginData : Type}.
Variable security_init_v2 :
  PluginData -> list (string * string) -> bool -> PluginData * Z.
Variable security_cleanup_v2 :
  PluginData -> list (string * string) -> bool -> PluginData * Z.
Variable acl_check_v2 :
  PluginData -> string -> string -> string -> Z -> PluginData * Z.
Variable unpwd_check_v2 :
  PluginData -> string -> string -> PluginData * Z.
Variable static_cast_AuthResult : Z -> AuthResult.
Variable static_cast_int : AclAccess -> Z.
Variable splitToVector : string -> ascii -> Z -> bool -> list string.
Variable base64Decode : string -> option (list byte).
Variable sha512 : list byte -> list byte.

Local Abbreviation Authentication := (@Auth.Authentication PluginData).
Local Abbreviation unPwdCheckFromMosquittoPasswordFile :=
  (@Auth.unPwdCheckFromMosquittoPasswordFile PluginData sha512).
Local Abbreviation unPwdCheck :=
  (@Auth.unPwdCheck PluginData unpwd_check_v2 static_cast_AuthResult sha512).
Local Abbreviation aclCheck :=
  (@Auth.aclCheck PluginData acl_check_v2 static_cast_AuthResult
     static_cast_int).
Local Abbreviation securityInit :=
  (@Auth.securityInit PluginData security_init_v2).
Local Abbreviation securityCleanup :=
  (@Auth.securityCleanup PluginData security_cleanup_v2).
Local Abbreviation reload :=
  (@Auth.reload PluginData security_init_v2 security_cleanup_v2).
Local Abbreviation loadMosquittoPasswordFile :=
  (@Auth.loadMosquittoPasswordFile PluginData splitToVector base64Decode).
Local Abbreviation step :=
  (@Auth.step PluginData security_init_v2 security_cleanup_v2 acl_check_v2
     unpwd_check_v2 static_cast_AuthResult static_cast_int splitToVector
     base64Decode sha512).
Local Abbreviation history :=
  (@Auth.history PluginData security_init_v2 security_cleanup_v2 acl_check_v2
     unpwd_check_v2 static_cast_AuthResult static_cast_int splitToVector
     base64Decode sha512).

(** **** The credential store *)

Lemma credentials_disabled (a : Authentication) username password :
  mosquittoPasswordFile a = "" ->
  unPwdCheckFromMosquittoPasswordFile username password a = success.
Proof.
  intros Hpath. unfold Auth.unPwdCheckFromMosquittoPasswordFile.
  rewrite bool_decide_eq_true_2; done.
Qed.

Lemma credentials_not_loaded (a : Authentication) username password :
  mosquittoPasswordFile a ≠ "" ->
  mosquittoPasswordEntries a = None ->
  unPwdCheckFromMosquittoPasswordFile username password a = login_denied.
Proof.
  intros Hpath Hnone. unfold Auth.unPwdCheckFromMosquittoPasswordFile.
  rewrite bool_decide_eq_false_2 by done. by rewrite Hnone.
Qed.

Lemma credentials_unknown_user (a : Authentication) entries username password :
  mosquittoPasswordFile a ≠ "" ->
  mosquittoPasswordEntries a = Some entries ->
  entries !! username = None ->
  unPwdCheckFromMosquittoPasswordFile username password a
  = if allowAnonymous (settings a) then success else login_denied.
Proof.
  intros Hpath Hsome Huser. unfold Auth.unPwdCheckFromMosquittoPasswordFile.
  rewrite bool_decide_eq_false_2 by done. by rewrite Hsome, Huser.
Qed.

(** C5, as amended. With an empty password-file path the credential check
    returns success. With a password file configured, a user name that has
    no entry in the loaded table (the empty table included) is denied
    unless [allow_anonymous] is set, in which case the check returns
    success; before any table has been loaded the check is denied. *)
Theorem credential_check_without_entry (a : Authentication) username password :
  (mosquittoPasswordFile a = "" ->
   unPwdCheckFromMosquittoPasswordFile username password a = success)
  ∧ (mosquittoPasswordFile a ≠ "" ->
     match mosquittoPasswordEntries a with
     | None => unPwdCheckFromMosquittoPasswordFile username password a = login_denied
     | Some entries =>
         entries !! username = None ->
         unPwdCheckFromMosquittoPasswordFile username password a
         = if allowAnonymous (settings a) then success else login_denied
     end).
Proof.
  split.
  - apply credentials_disabled.
  - intros Hpath. destruct (mosquittoPasswordEntries a) as [entries|] eqn:Hentries.
    + intros Huser. by eapply credentials_unknown_user.
    + by apply credentials_not_loaded.
Qed.

(** **** Login *)

Lemma unPwdCheck_unfold (a : Authentication) username password :
  unPwdCheck username password a
  = let firstResult := unPwdCheckFromMosquittoPasswordFile username password a in
    if bool_decide (firstResult ≠ success) then Run a [] (Returned firstResult)
    else if negb (useExternalPlugin a) then Run a [] (Returned firstResult)
    else if negb (initialized a) then Run a [] (Returned error)
    else
      let dr := unpwd_check_v2 (pluginData a) username password in
      Run (set_pluginData (fst dr) a)
        [(call_unpwd_check username password, snd dr)]
        (Returned (static_cast_AuthResult (snd dr))).
Proof.
  unfold Auth.unPwdCheck, mbind, M_bind, bind, get; simpl.
  repeat case_match; reflexivity.
Qed.

(** C6. [unPwdCheck] first evaluates the credential store. A result other
    than success is returned as it is and the plugin is not called. The
    plugin is called only after the credential store's success, it is then
    called once with the login's user name and password, and its result is
    the result of the login. Without a plugin the credential store's result
    is the result of the login. *)
Theorem unPwdCheck_composition (a : Authentication) username password :
  let firstResult := unPwdCheckFromMosquittoPasswordFile username password a in
  let r := unPwdCheck username password a in
  let verdict := snd (unpwd_check_v2 (pluginData a) username password) in
  (firstResult ≠ success ->
   result r = Returned firstResult ∧ calls r = [])
  ∧ (calls r ≠ [] ->
     firstResult = success
     ∧ calls r = [(call_unpwd_check username password, verdict)]
     ∧ result r = Returned (static_cast_AuthResult verdict))
  ∧ (firstResult = success -> useExternalPlugin a = true ->
     initialized a = true ->
     calls r = [(call_unpwd_check username password, verdict)])
  ∧ (useExternalPlugin a = false ->
     result r = Returned firstResult ∧ calls r = []).
Proof.
  intros firstResult r verdict. subst r verdict.
  rewrite unPwdCheck_unfold. fold firstResult. cbv zeta.
  destruct (decide (firstResult = success)) as [Hs|Hs].
  - rewrite bool_decide_eq_false_2 by (intros H; by apply H).
    destruct (useExternalPlugin a), (initialized a); simpl;
      repeat split; try done.
  - rewrite bool_decide_eq_true_2 by done. simpl. repeat split; done.
Qed.

(** **** The password file *)

Lemma loadMosquittoPasswordFile_same_second (a : Authentication) file ctime :
  st_ctim file = Some ctime ->
  tv_sec ctime = tv_sec (mosquittoPasswordFileLastLoad a) ->
  after (loadMosquittoPasswordFile file a) = a.
Proof.
  intros Hstat Hsec.
  unfold Auth.loadMosquittoPasswordFile, mbind, M_bind, bind, get, ret; simpl.
  rewrite Hstat. rewrite (bool_decide_eq_true_2 _ Hsec).
  repeat case_match; reflexivity.
Qed.

Lemma loadMosquittoPasswordFile_other_second (a : Authentication) file ctime :
  mosquittoPasswordFile a ≠ "" ->
  access_R_OK file = true ->
  st_ctim file = Some ctime ->
  tv_sec ctime ≠ tv_sec (mosquittoPasswordFileLastLoad a) ->
  after (loadMosquittoPasswordFile file a)
  = set_passwords
      (load_lines splitToVector base64Decode (file_lines file) ∅) ctime a.
Proof.
  intros Hpath Hacc Hstat Hsec.
  unfold Auth.loadMosquittoPasswordFile, mbind, M_bind, bind, get, ret, modify;
    simpl.
  rewrite Hstat, Hacc, (bool_decide_eq_false_2 _ Hpath),
    (bool_decide_eq_false_2 _ Hsec). reflexivity.
Qed.

(** What the tick does do. With a password file configured, readable and
    statted, the table is loaded anew exactly when the second of the file's
    ctime is not the second recorded at the last load; the new table then
    replaces the old one and the ctime is recorded; otherwise the object is
    left as it is. *)
Theorem loadMosquittoPasswordFile_reloads_by_second (a : Authentication)
    file ctime :
  mosquittoPasswordFile a ≠ "" ->
  access_R_OK file = true ->
  st_ctim file = Some ctime ->
  after (loadMosquittoPasswordFile file a)
  = if bool_decide (tv_sec ctime = tv_sec (mosquittoPasswordFileLastLoad a))
    then a
    else set_passwords
           (load_lines splitToVector base64Decode (file_lines file) ∅) ctime a.
Proof.
  intros Hpath Hacc Hstat. case_bool_decide as Hsec.
  - by eapply loadMosquittoPasswordFile_same_second.
  - by apply loadMosquittoPasswordFile_other_second.
Qed.

(** **** Unconfigured authentication *)

(** Without a plugin and without a password file every login and every ACL
    check succeeds, and nothing is called. *)
Theorem unconfigured_auth_allows (a : Authentication)
    clientid username password topic access :
  useExternalPlugin a = false ->
  mosquittoPasswordFile a = "" ->
  unPwdCheck username password a = Run a [] (Returned success)
  ∧ aclCheck clientid username topic access a = Run a [] (Returned success).
Proof.
  intros Hplugin Hpath. split.
  - rewrite unPwdCheck_unfold. cbv zeta.
    rewrite (credentials_disabled a username password Hpath).
    rewrite bool_decide_eq_false_2 by (intros H; by apply H).
    by rewrite Hplugin.
  - unfold Auth.aclCheck, mbind, M_bind, bind, get, ret; simpl.
    by rewrite Hplugin.
Qed.

(** **** Reload of the plugin *)

Ltac run_auth :=
  unfold Auth.step, Auth.reload, Auth.securityInit, Auth.securityCleanup,
    Auth.aclCheck, Auth.unPwdCheck, Auth.setQuitting,
    Auth.loadMosquittoPasswordFile, try_catch, mbind, M_bind, bind, get, ret,
    mret, M_ret, ret, throw, modify, plugin;
  simpl.

Lemma reload_failure_closes (a : Authentication) :
  useExternalPlugin a = true ->
  quitting a = false ->
  let cleaned :=
    security_cleanup_v2 (pluginData a) (authOpts (settings a)) true in
  snd cleaned = 0 ->
  snd (security_init_v2 (fst cleaned) (authOpts (settings a)) true) ≠ 0 ->
  fails_closed (after (reload a)).
Proof.
  intros Hplugin Hquit cleaned Hclean Hinit. subst cleaned.
  run_auth. rewrite Hplugin; simpl. rewrite Hclean; simpl.
  rewrite Hplugin, Hquit; simpl.
  rewrite (bool_decide_eq_true_2 _ Hinit); simpl.
  split; [exact Hplugin | reflexivity].
Qed.

Lemma step_stays_closed (c : call) (a : Authentication) :
  fails_closed a ->
  ¬ init_completed (calls (step c a)) ->
  fails_closed (after (step c a)).
Proof.
  intros [Hplugin Hinit] Hnot. unfold fails_closed.
  destruct c; revert Hnot; run_auth; rewrite ?Hplugin, ?Hinit; simpl;
    repeat (case_match; simpl; rewrite ?Hplugin, ?Hinit; simpl);
    intros Hnot; try done.
  all: exfalso; apply Hnot; unfold init_completed;
    repeat match goal with
           | H : bool_decide _ = false |- _ =>
               apply bool_decide_eq_false_1 in H; apply dec_stable in H
           end;
    simpl in *; eexists; apply list_elem_of_In; simpl;
    first [ left; f_equal; eassumption
          | right; left; f_equal; eassumption ].
Qed.

Lemma step_closed_denies (c : call) (a : Authentication) :
  fails_closed a ->
  match c with
  | CallAclCheck _ _ _ _ => result (step c a) = Returned (Checked error)
  | CallUnPwdCheck username password =>
      unPwdCheckFromMosquittoPasswordFile username password a = success ->
      result (step c a) = Returned (Checked error)
  | _ => True
  end.
Proof.
  intros [Hplugin Hinit]. destruct c; try exact I.
  - run_auth. rewrite Hplugin, Hinit. reflexivity.
  - intros Hcred. run_auth. rewrite Hcred, Hplugin, Hinit.
    rewrite bool_decide_eq_false_2 by (intros H; by apply H). reflexivity.
Qed.

(** C1. Let a reload fail in [security_init]: a plugin is configured, the
    broker is not quitting, the plugin's [security_cleanup(true)] returns 0
    and its [security_init(true)] then returns non-zero. After that reload,
    in any sequence of entry points, as long as no [securityInit] has run to
    completion, every [aclCheck] returns error, and every [unPwdCheck] whose
    credential-store stage succeeds returns error from its plugin stage. *)
Theorem failed_reload_fails_closed (a : Authentication) (cs : list call)
    pre before c r post :
  useExternalPlugin a = true ->
  quitting a = false ->
  snd (security_cleanup_v2 (pluginData a) (authOpts (settings a)) true) = 0 ->
  snd (security_init_v2
         (fst (security_cleanup_v2 (pluginData a) (authOpts (settings a)) true))
         (authOpts (settings a)) true) ≠ 0 ->
  history cs (after (reload a)) = pre ++ (before, c, r) :: post ->
  Forall (fun e => ¬ init_completed (calls (snd e))) pre ->
  match c with
  | CallAclCheck _ _ _ _ => result r = Returned (Checked error)
  | CallUnPwdCheck username password =>
      unPwdCheckFromMosquittoPasswordFile username password before = success ->
      result r = Returned (Checked error)
  | _ => True
  end.
Proof.
  intros Hplugin Hquit Hclean Hinit.
  pose proof (reload_failure_closes a Hplugin Hquit Hclean Hinit) as Hclosed.
  revert Hclosed. generalize (after (reload a)). clear.
  intros a0 Hclosed Hhist Hpre. revert a0 cs Hclosed Hhist.
  induction Hpre as [|e pre He Hpre IH]; intros a0 cs Hclosed Hhist.
  - destruct cs as [|c0 cs]; simpl in Hhist; [done|].
    injection Hhist as -> -> <- _. by apply step_closed_denies.
  - destruct cs as [|c0 cs]; simpl in Hhist; [done|].
    injection Hhist as <- Hrest. simpl in He.
    eapply IH; [|exact Hrest]. by apply step_stays_closed.
Qed.

(** **** Quitting *)

(** The plugin is configured, the facade refuses to consult it, and the
    broker is quitting. *)
Lemma step_stays_closed_when_quitting (c : call) (a : Authentication) :
  fails_closed a -> quitting a = true ->
  fails_closed (after (step c a)) ∧ quitting (after (step c a)) = true.
Proof.
  intros [Hplugin Hinit] Hquit. unfold fails_closed.
  destruct c; run_auth; rewrite ?Hplugin, ?Hinit, ?Hquit; simpl;
    repeat (case_match; simpl; rewrite ?Hplugin, ?Hinit, ?Hquit; simpl);
    simpl in *; first [done | congruence].
Qed.

Lemma reload_when_quitting (a : Authentication) :
  useExternalPlugin a = true -> quitting a = true ->
  fails_closed (after (reload a)) ∧ quitting (after (reload a)) = true.
Proof.
  intros Hplugin Hquit. unfold fails_closed.
  run_auth; rewrite ?Hplugin, ?Hquit; simpl;
    repeat (case_match; simpl; rewrite ?Hplugin, ?Hquit; simpl);
    simpl in *; first [done | congruence].
Qed.

(** Once the broker is quitting, a reload closes the facade for good: with a
    plugin configured, after [setQuitting] and a reload, every [aclCheck]
    of any later sequence of entry points returns error, and so does every
    [unPwdCheck] whose credential-store stage succeeds, whatever the plugin
    returns and however often [securityInit] or a reload is tried. *)
Theorem reload_after_setQuitting_closes_for_good (a : Authentication)
    (cs : list call) pre before c r post :
  useExternalPlugin a = true ->
  history cs (after (reload (after (Auth.setQuitting a))))
  = pre ++ (before, c, r) :: post ->
  match c with
  | CallAclCheck _ _ _ _ => result r = Returned (Checked error)
  | CallUnPwdCheck username password =>
      unPwdCheckFromMosquittoPasswordFile username password before = success ->
      result r = Returned (Checked error)
  | _ => True
  end.
Proof.
  intros Hplugin.
  destruct (reload_when_quitting (after (Auth.setQuitting a)) Hplugin eq_refl)
    as [Hclosed Hquit].
  revert Hclosed Hquit.
  generalize (after (reload (after (Auth.setQuitting a)))). clear.
  intros a0 Hclosed Hquit Hhist. revert a0 cs Hclosed Hquit Hhist.
  induction pre as [|e pre IH]; intros a0 cs Hclosed Hquit Hhist.
  - destruct cs as [|c0 cs]; simpl in Hhist; [done|].
    injection Hhist as -> -> <- _. by apply step_closed_denies.
  - destruct cs as [|c0 cs]; simpl in Hhist; [done|].
    injection Hhist as _ Hrest.
    destruct (step_stays_closed_when_quitting c0 a0 Hclosed Hquit).
    by eapply IH.
Qed.

(** **** A reload that succeeds *)

(** A reload whose [security_cleanup] and [security_init] both return 0
    calls exactly these two, in this order, and leaves the facade
    initialised: the next [aclCheck] calls the plugin's [acl_check] once,
    with the client id, user name, topic and access as an [int], and
    returns what the plugin returned, cast to an [AuthResult]. *)
Theorem successful_reload_restores_checks (a : Authentication)
    clientid username topic access :
  useExternalPlugin a = true ->
  quitting a = false ->
  snd (security_cleanup_v2 (pluginData a) (authOpts (settings a)) true) = 0 ->
  snd (security_init_v2
         (fst (security_cleanup_v2 (pluginData a) (authOpts (settings a)) true))
         (authOpts (settings a)) true) = 0 ->
  let a' := after (reload a) in
  let verdict :=
    snd (acl_check_v2 (pluginData a') clientid username topic
           (static_cast_int access)) in
  calls (reload a)
  = [(call_security_cleanup true, 0); (call_security_init true, 0)]
  ∧ initialized a' = true
  ∧ calls (aclCheck clientid username topic access a')
    = [(call_acl_check clientid username topic (static_cast_int access),
        verdict)]
  ∧ result (aclCheck clientid username topic access a')
    = Returned (static_cast_AuthResult verdict).
Proof.
  intros Hplugin Hquit Hclean Hinit. cbv zeta.
  run_auth. rewrite Hplugin; simpl. rewrite Hclean; simpl.
  rewrite Hplugin, Hquit; simpl. rewrite Hinit; simpl.
  rewrite Hplugin. simpl. done.
Qed.

(** **** Reading the password file *)

Local Abbreviation parse_line := (Auth.parse_line splitToVector base64Decode).
Local Abbreviation load_lines := (Auth.load_lines splitToVector base64Decode).
Local Abbreviation first_entry :=
  (Auth.first_entry splitToVector base64Decode).

Lemma load_lines_lookup lines
    (passwordEntries_tmp : gmap string MosquittoPasswordFileEntry) username :
  load_lines lines passwordEntries_tmp !! username
  = match passwordEntries_tmp !! username with
    | Some entry => Some entry
    | None => first_entry username lines
    end.
Proof.
  revert passwordEntries_tmp.
  induction lines as [|line rest IH]; intros tmp; simpl.
  - by destruct (tmp !! username).
  - case_bool_decide as Hempty; [apply IH|].
    destruct (Auth.parse_line splitToVector base64Decode line)
      as [[u entry]|]; [|apply IH].
    destruct (tmp !! u) as [old|] eqn:Hu.
    + rewrite IH. case_bool_decide as Hsame; [|done].
      subst u. by rewrite Hu.
    + rewrite IH. case_bool_decide as Hsame.
      * subst u. by rewrite lookup_insert_eq, Hu.
      * by rewrite lookup_insert_ne.
Qed.

(** A line that is empty or does not parse is dropped by itself: the table
    loaded from a file is the table loaded from the file without that
    line. *)
Theorem dropped_line_leaves_the_rest (before after_it : list string)
    (line : string)
    (passwordEntries_tmp : gmap string MosquittoPasswordFileEntry) :
  line = "" ∨ parse_line line = None ->
  load_lines (before ++ line :: after_it) passwordEntries_tmp
  = load_lines (before ++ after_it) passwordEntries_tmp.
Proof.
  intros Hdropped. revert passwordEntries_tmp.
  induction before as [|l before IH]; intros tmp; simpl.
  - destruct Hdropped as [->|Hparse]; [done|].
    case_bool_decide; [done|]. by rewrite Hparse.
  - case_bool_decide; [apply IH|].
    destruct (Auth.parse_line splitToVector base64Decode l) as [[u entry]|];
      [|apply IH].
    destruct (tmp !! u); apply IH.
Qed.

(** After the password file was loaded anew, a login is decided by the
    first line of the file that parses to an entry of the user name: it
    succeeds when the SHA-512 of the password followed by that entry's salt
    is the entry's digest and is denied otherwise, whatever
    [allow_anonymous] says and whatever later lines of that name hold; a
    name with no such line gets the anonymous default. *)
Theorem login_after_reload (a : Authentication) file ctime username password :
  mosquittoPasswordFile a ≠ "" ->
  access_R_OK file = true ->
  st_ctim file = Some ctime ->
  tv_sec ctime ≠ tv_sec (mosquittoPasswordFileLastLoad a) ->
  unPwdCheckFromMosquittoPasswordFile username password
    (after (loadMosquittoPasswordFile file a))
  = match first_entry username (file_lines file) with
    | Some entry =>
        if bool_decide
             (sha512 (String.list_byte_of_string password ++ salt entry)
              = cryptedPassword entry)
        then success else login_denied
    | None =>
        if allowAnonymous (settings a) then success else login_denied
    end.
Proof.
  intros Hpath Hacc Hstat Hsec.
  rewrite (loadMosquittoPasswordFile_other_second a file ctime) by done.
  unfold Auth.unPwdCheckFromMosquittoPasswordFile. simpl.
  rewrite bool_decide_eq_false_2 by done.
  rewrite load_lines_lookup, lookup_empty.
  by destruct (Auth.first_entry splitToVector base64Decode username
                 (file_lines file)).
Qed.

(** Whatever the file is, a tick calls nothing of the plugin and leaves the
    plugin's state, the settings and the configured path as they are; with
    no path configured or an unreadable file it returns with the object
    unchanged, and when [stat] fails on a readable file it throws
    [runtime_error] with the object unchanged. *)
Theorem loadMosquittoPasswordFile_edges (a : Authentication) file :
  let r := loadMosquittoPasswordFile file a in
  calls r = []
  ∧ useExternalPlugin (after r) = useExternalPlugin a
  ∧ initialized (after r) = initialized a
  ∧ quitting (after r) = quitting a
  ∧ pluginData (after r) = pluginData a
  ∧ settings (after r) = settings a
  ∧ mosquittoPasswordFile (after r) = mosquittoPasswordFile a
  ∧ (mosquittoPasswordFile a = "" ∨ access_R_OK file = false ->
     after r = a ∧ result r = Returned tt)
  ∧ (mosquittoPasswordFile a ≠ "" -> access_R_OK file = true ->
     st_ctim file = None ->
     after r = a ∧ result r = Thrown runtime_error).
Proof.
  cbv zeta.
  unfold Auth.loadMosquittoPasswordFile, mbind, M_bind, bind, get, ret, throw,
    modify; simpl.
  repeat case_bool_decide; destruct (access_R_OK file), (st_ctim file);
    simpl; repeat case_bool_decide; simpl; repeat split;
    try done;
    match goal with H : _ ∨ _ |- _ => destruct H; done end.
Qed.

(** **** Loading and initialising the plugin *)

Variable init_v2 : PluginData -> list (string * string) -> PluginData * Z.
Variable cleanup_v2 :
  option (PluginData -> list (string * string) -> PluginData * Z).

Local Abbreviation loadPlugin := (@Auth.loadPlugin PluginData).
Local Abbreviation init := (@Auth.init PluginData init_v2).
Local Abbreviation cleanup :=
  (@Auth.cleanup PluginData security_cleanup_v2 cleanup_v2).
Local Abbreviation initAuthPlugin :=
  (@Auth.initAuthPlugin PluginData security_init_v2 init_v2).

(** With a plugin path configured, [loadPlugin] returns exactly when the
    file is readable, [dlopen] opens it, it exports the version function and
    the seven entry points, and its version is 2; otherwise it throws
    [FatalError]. Either way the facade then has a plugin configured; it is
    initialised exactly when [loadPlugin] returned, and after a throw every
    [aclCheck] returns error without calling the plugin. *)
Theorem loadPlugin_outcome (a : Authentication) pathToSoFile so
    clientid username topic access :
  pathToSoFile ≠ "" ->
  let a' := fst (loadPlugin pathToSoFile so a) in
  let loaded :=
    so_access_R_OK so && so_dlopen so
    && bool_decide ("mosquitto_auth_plugin_version" ∈ so_symbols so)
    && bool_decide (so_version so = 2)
    && forallb (fun symbol => bool_decide (symbol ∈ so_symbols so))
         plugin_symbols in
  snd (loadPlugin pathToSoFile so a)
  = (if loaded then Returned tt else Thrown FatalError)
  ∧ useExternalPlugin a' = true
  ∧ initialized a' = loaded
  ∧ (loaded = false ->
     aclCheck clientid username topic access a' = Run a' [] (Returned error)).
Proof.
  intros Hpath. cbv zeta. unfold Auth.loadPlugin.
  rewrite (bool_decide_eq_false_2 _ Hpath).
  destruct (so_access_R_OK so), (so_dlopen so); simpl;
    repeat case_bool_decide; simpl;
    try destruct (forallb _ plugin_symbols); simpl;
    repeat split; try done; intros _; by run_auth.
Qed.

Lemma loadPlugin_returned (a a1 : Authentication) pathToSoFile so :
  pathToSoFile ≠ "" ->
  loadPlugin pathToSoFile so a = (a1, Returned tt) ->
  a1 = set_initialized true (set_useExternalPlugin true (set_initialized false a)).
Proof.
  intros Hpath. unfold Auth.loadPlugin.
  rewrite (bool_decide_eq_false_2 _ Hpath).
  repeat case_match; intros [= <-]; done.
Qed.

(** When [initAuthPlugin] returns with a plugin path configured and the
    broker not quitting, it has called the plugin's [init] and then its
    [security_init(false)], nothing else, both returned 0, and the facade is
    initialised. *)
Theorem initAuthPlugin_returns (a : Authentication) authPluginPath so :
  authPluginPath ≠ "" ->
  quitting a = false ->
  outcome_of (initAuthPlugin authPluginPath so a) = Returned tt ->
  plugin_calls (initAuthPlugin authPluginPath so a)
  = [(call_init, 0); (security_call (call_security_init false), 0)]
  ∧ useExternalPlugin (object (initAuthPlugin authPluginPath so a)) = true
  ∧ initialized (object (initAuthPlugin authPluginPath so a)) = true.
Proof.
  intros Hpath Hquit. unfold Auth.initAuthPlugin.
  destruct (loadPlugin authPluginPath so a) as [a1 [[]|e]] eqn:Hload;
    [|done].
  apply loadPlugin_returned in Hload; [|done]. subst a1.
  unfold Auth.init. simpl. rewrite Hquit. simpl.
  destruct (decide (snd (init_v2 (pluginData a) (authOpts (settings a))) = 0))
    as [Hinit|Hinit].
  2: { by rewrite (bool_decide_eq_true_2 (_ ≠ 0)). }
  rewrite (bool_decide_eq_false_2 (_ ≠ 0)) by (intros H; by apply H).
  unfold Auth.securityInit, mbind, M_bind, bind, get, ret, throw, modify,
    plugin, security_calls; simpl. rewrite Hquit. simpl.
  destruct (decide (snd (security_init_v2
                           (fst (init_v2 (pluginData a)
                                   (authOpts (settings a))))
                           (authOpts (settings a)) false) = 0))
    as [Hsec|Hsec].
  2: { by rewrite (bool_decide_eq_true_2 (_ ≠ 0)). }
  rewrite (bool_decide_eq_false_2 (_ ≠ 0)) by (intros H; by apply H).
  simpl. intros _. by rewrite Hinit, Hsec.
Qed.

(** With its [cleanup] entry point resolved and a plugin configured,
    [cleanup] first calls [security_cleanup(false)]; only when that returned
    0 does it call the plugin's [cleanup], whose result it ignores, and
    return; otherwise [AuthPluginException] leaves [cleanup] and the
    plugin's [cleanup] is not called. The facade is uninitialised
    afterwards in both cases. *)
Theorem cleanup_order (a : Authentication) f :
  cleanup_v2 = Some f ->
  useExternalPlugin a = true ->
  let cleaned :=
    security_cleanup_v2 (pluginData a) (authOpts (settings a)) false in
  let l := cleanup a in
  initialized (object l) = false
  ∧ plugin_calls l
    = (security_call (call_security_cleanup false), snd cleaned)
      :: (if bool_decide (snd cleaned = 0)
          then [(call_cleanup, snd (f (fst cleaned) (authOpts (settings a))))]
          else [])
  ∧ outcome_of l
    = (if bool_decide (snd cleaned = 0) then Returned tt
       else Thrown AuthPluginException).
Proof.
  intros Hf Hplugin. cbv zeta. unfold Auth.cleanup. rewrite Hf.
  unfold Auth.securityCleanup, mbind, M_bind, bind, get, ret, throw, modify,
    plugin, security_calls; simpl.
  rewrite Hplugin; simpl.
  destruct (decide (snd (security_cleanup_v2 (pluginData a)
                           (authOpts (settings a)) false) = 0)) as [Hz|Hz].
  - rewrite (bool_decide_eq_false_2 (_ ≠ 0)) by (intros H; by apply H).
    simpl. by rewrite (bool_decide_eq_true_2 _ Hz).
  - rewrite (bool_decide_eq_true_2 (_ ≠ 0)) by done.
    simpl. by rewrite (bool_decide_eq_false_2 _ Hz).
Qed.

End WithPlugin.

(** **** The facade run on the sample brokers *)

(** C5, as stated, fails: with [allow_anonymous] set, a password file
    configured and its loaded table empty, a login is not denied. *)
Lemma anonymous_login_without_entry :
  mosquittoPasswordFile Sample.with_password_file = "/etc/flashmq/passwd"
  ∧ mosquittoPasswordEntries Sample.with_password_file = Some ∅
  ∧ unPwdCheckFromMosquittoPasswordFile Sample.sha512 "nobody" "secret"
      Sample.with_password_file = success
  ∧ unPwdCheckFromMosquittoPasswordFile Sample.sha512 "nobody" "secret"
      Sample.with_password_file ≠ login_denied.
Proof. repeat split; done. Qed.

Lemma credential_check_without_entry_witness :
  unPwdCheckFromMosquittoPasswordFile Sample.sha512 "nobody" "secret"
    Sample.with_plugin = success
  ∧ unPwdCheckFromMosquittoPasswordFile Sample.sha512 "nobody" "secret"
      Sample.with_password_file = success.
Proof.
  split.
  - exact (proj1
             (credential_check_without_entry Sample.sha512 Sample.with_plugin
                "nobody" "secret") eq_refl).
  - refine (proj2
              (credential_check_without_entry Sample.sha512
                 Sample.with_password_file "nobody" "secret") _ eq_refl).
    discriminate.
Defined.

(** C7 fails on the code: the password file was loaded when its ctime was
    100 s and 0 ns; it is changed and its ctime is now 100 s and 500000000
    ns; the tick leaves the object as it was, the table and the recorded
    ctime included, whatever the parsing helpers are. *)
Theorem change_within_the_second_is_missed
    (splitToVector : string -> ascii -> Z -> bool -> list string)
    (base64Decode : string -> option (list byte)) :
  let r :=
    loadMosquittoPasswordFile splitToVector base64Decode
      Sample.touched_password_file Sample.with_password_file in
  st_ctim Sample.touched_password_file
  = Some {| tv_sec := 100; tv_nsec := 500000000 |}
  ∧ mosquittoPasswordFileLastLoad Sample.with_password_file
    = {| tv_sec := 100; tv_nsec := 0 |}
  ∧ after r = Sample.with_password_file
  ∧ mosquittoPasswordEntries (after r) = Some ∅.
Proof.
  cbv zeta.
  rewrite (loadMosquittoPasswordFile_same_second splitToVector base64Decode
             Sample.with_password_file Sample.touched_password_file
             {| tv_sec := 100; tv_nsec := 500000000 |} eq_refl eq_refl).
  repeat split; reflexivity.
Qed.

Lemma loadMosquittoPasswordFile_reloads_by_second_witness :
  mosquittoPasswordFileLastLoad Sample.with_password_file
  = {| tv_sec := 100; tv_nsec := 0 |}
  ∧ mosquittoPasswordFileLastLoad
      (after (loadMosquittoPasswordFile Sample.splitToVector
                Sample.base64Decode Sample.replaced_password_file
                Sample.with_password_file))
    = {| tv_sec := 101; tv_nsec := 0 |}.
Proof.
  assert (mosquittoPasswordFile Sample.with_password_file ≠ "") as Hpath
    by discriminate.
  rewrite (loadMosquittoPasswordFile_reloads_by_second Sample.splitToVector
             Sample.base64Decode Sample.with_password_file
             Sample.replaced_password_file
             {| tv_sec := 101; tv_nsec := 0 |} Hpath eq_refl eq_refl).
  split; reflexivity.
Defined.

Lemma unconfigured_auth_allows_witness :
  result (unPwdCheck Sample.unpwd_check_v2 Sample.static_cast_AuthResult
            Sample.sha512 "anyone" "anything" Sample.unconfigured)
  = Returned success
  ∧ result (aclCheck Sample.acl_check_v2 Sample.static_cast_AuthResult
              Sample.static_cast_int "client" "anyone" "a/b" write
              Sample.unconfigured)
    = Returned success.
Proof.
  destruct (unconfigured_auth_allows Sample.acl_check_v2 Sample.unpwd_check_v2
              Sample.static_cast_AuthResult Sample.static_cast_int
              Sample.sha512 Sample.unconfigured
              "client" "anyone" "anything" "a/b" write eq_refl eq_refl)
    as [Hlogin Hacl].
  rewrite Hlogin, Hacl. split; reflexivity.
Defined.

Lemma reload_after_setQuitting_closes_for_good_witness :
  let run_of c a :=
    step Sample.security_init_ok Sample.security_cleanup_v2
      Sample.acl_check_v2 Sample.unpwd_check_v2 Sample.static_cast_AuthResult
      Sample.static_cast_int Sample.splitToVector Sample.base64Decode
      Sample.sha512 c a in
  let closed :=
    after (reload Sample.security_init_ok Sample.security_cleanup_v2
             (after (setQuitting Sample.with_plugin))) in
  let check := CallAclCheck "client" "user" "a/b" read in
  result (run_of check (after (run_of CallReload
                                 (after (run_of (CallSecurityInit false)
                                           closed)))))
  = Returned (Checked error).
Proof.
  cbv zeta.
  exact (reload_after_setQuitting_closes_for_good Sample.security_init_ok
           Sample.security_cleanup_v2 Sample.acl_check_v2
           Sample.unpwd_check_v2 Sample.static_cast_AuthResult
           Sample.static_cast_int Sample.splitToVector Sample.base64Decode
           Sample.sha512 Sample.with_plugin
           [CallSecurityInit false; CallReload;
            CallAclCheck "client" "user" "a/b" read]
           [(_, CallSecurityInit false, _); (_, CallReload, _)] _
           (CallAclCheck "client" "user" "a/b" read) _ []
           eq_refl eq_refl).
Defined.

Lemma successful_reload_restores_checks_witness :
  let a' :=
    after (reload Sample.security_init_ok Sample.security_cleanup_v2
             Sample.with_plugin) in
  initialized a' = true
  ∧ result (aclCheck Sample.acl_check_v2 Sample.static_cast_AuthResult
              Sample.static_cast_int "client" "user" "a/b" write a')
    = Returned success.
Proof.
  cbv zeta.
  destruct (successful_reload_restores_checks Sample.security_init_ok
              Sample.security_cleanup_v2 Sample.acl_check_v2
              Sample.static_cast_AuthResult Sample.static_cast_int
              Sample.with_plugin "client" "user" "a/b" write
              eq_refl eq_refl eq_refl eq_refl)
    as (_ & Hinit & _ & Hresult).
  split; [exact Hinit|]. rewrite Hresult. reflexivity.
Defined.

Lemma dropped_line_leaves_the_rest_witness :
  parse_line Sample.split_fields Sample.bytes_of "not a password line" = None
  ∧ load_lines Sample.split_fields Sample.bytes_of
      (file_lines Sample.two_users_file) ∅
    = load_lines Sample.split_fields Sample.bytes_of
        (tail (file_lines Sample.two_users_file)) ∅.
Proof.
  split; [reflexivity|].
  exact (dropped_line_leaves_the_rest Sample.split_fields Sample.bytes_of []
           (tail (file_lines Sample.two_users_file)) "not a password line" ∅
           (or_intror eq_refl)).
Defined.

Lemma login_after_reload_witness :
  let a :=
    after (loadMosquittoPasswordFile Sample.split_fields Sample.bytes_of
             Sample.two_users_file Sample.with_password_file) in
  unPwdCheckFromMosquittoPasswordFile Sample.sha512 "alice" "secret" a
  = success
  ∧ unPwdCheckFromMosquittoPasswordFile Sample.sha512 "alice" "other" a
    = login_denied
  ∧ unPwdCheckFromMosquittoPasswordFile Sample.sha512 "carol" "secret" a
    = success.
Proof.
  cbv zeta.
  assert (mosquittoPasswordFile Sample.with_password_file ≠ "") as Hpath
    by discriminate.
  assert (tv_sec {| tv_sec := 200; tv_nsec := 0 |}
          ≠ tv_sec (mosquittoPasswordFileLastLoad Sample.with_password_file))
    as Hsec by discriminate.
  rewrite !(login_after_reload Sample.split_fields Sample.bytes_of
              Sample.sha512 Sample.with_password_file Sample.two_users_file
              {| tv_sec := 200; tv_nsec := 0 |} _ _ Hpath eq_refl eq_refl Hsec).
  repeat split; vm_compute; reflexivity.
Defined.

Lemma loadPlugin_outcome_witness :
  snd (loadPlugin "/usr/lib/auth.so" Sample.version_3_plugin Sample.fresh)
  = Thrown FatalError
  ∧ result (aclCheck Sample.acl_check_v2 Sample.static_cast_AuthResult
              Sample.static_cast_int "client" "user" "a/b" read
              (fst (loadPlugin "/usr/lib/auth.so" Sample.version_3_plugin
                      Sample.fresh)))
    = Returned error.
Proof.
  assert ("/usr/lib/auth.so" ≠ "") as Hpath by discriminate.
  destruct (loadPlugin_outcome Sample.acl_check_v2
              Sample.static_cast_AuthResult Sample.static_cast_int
              Sample.fresh "/usr/lib/auth.so" Sample.version_3_plugin
              "client" "user" "a/b" read Hpath)
    as (Houtcome & _ & _ & Hclosed).
  split; [exact Houtcome|]. rewrite Hclosed; reflexivity.
Defined.

Lemma initAuthPlugin_returns_witness :
  let l :=
    initAuthPlugin Sample.security_init_v2 Sample.init_v2 "/usr/lib/auth.so"
      Sample.version_2_plugin Sample.fresh in
  outcome_of l = Returned tt
  ∧ plugin_calls l
    = [(call_init, 0); (security_call (call_security_init false), 0)]
  ∧ initialized (object l) = true.
Proof.
  cbv zeta.
  assert ("/usr/lib/auth.so" ≠ "") as Hpath by discriminate.
  destruct (initAuthPlugin_returns Sample.security_init_v2 Sample.init_v2
              Sample.fresh "/usr/lib/auth.so" Sample.version_2_plugin
              Hpath eq_refl eq_refl)
    as (Hcalls & _ & Hinit).
  split; [reflexivity|]. split; [exact Hcalls | exact Hinit].
Defined.

Lemma cleanup_order_witness :
  let l :=
    cleanup Sample.security_cleanup_v2 (Some Sample.cleanup_v2)
      Sample.with_plugin in
  initialized (object l) = false
  ∧ plugin_calls l
    = [(security_call (call_security_cleanup false), 0); (call_cleanup, 0)].
Proof.
  cbv zeta.
  destruct (cleanup_order Sample.security_cleanup_v2 (Some Sample.cleanup_v2)
              Sample.with_plugin Sample.cleanup_v2 eq_refl eq_refl)
    as (Hinit & Hcalls & _).
  split; [exact Hinit|]. rewrite Hcalls. reflexivity.
Defined.

Lemma failed_reload_fails_closed_witness :
  let closed :=
    after (reload Sample.security_init_v2 Sample.security_cleanup_v2
             Sample.with_plugin) in
  let retry := CallSecurityInit true in
  let check := CallAclCheck "client" "user" "sensors/kitchen/temp" read in
  let run_of c a :=
    step Sample.security_init_v2 Sample.security_cleanup_v2
      Sample.acl_check_v2 Sample.unpwd_check_v2 Sample.static_cast_AuthResult
      Sample.static_cast_int Sample.splitToVector Sample.base64Decode
      Sample.sha512 c a in
  result (run_of retry closed) = Thrown AuthPluginException
  ∧ result (run_of check (after (run_of retry closed)))
    = Returned (Checked error).
Proof.
  cbv zeta. split; [reflexivity|].
  refine (failed_reload_fails_closed Sample.security_init_v2
            Sample.security_cleanup_v2 Sample.acl_check_v2
            Sample.unpwd_check_v2 Sample.static_cast_AuthResult
            Sample.static_cast_int Sample.splitToVector Sample.base64Decode
            Sample.sha512 Sample.with_plugin
            [CallSecurityInit true;
             CallAclCheck "client" "user" "sensors/kitchen/temp" read]
            [(_, CallSecurityInit true, _)] _
            (CallAclCheck "client" "user" "sensors/kitchen/temp" read) _ []
            eq_refl eq_refl eq_refl _ eq_refl _).
  - discriminate.
  - constructor; [|constructor]. simpl. intros [reloading Hin].
    apply list_elem_of_In in Hin. simpl in Hin.
    destruct Hin as [Heq|[]]. discriminate Heq.
Defined.

End AuthProperties.

(** *** The subscription trie *)

Module TrieProperties.
Import Store.

Section WithSession.

Context {Session : Type}.
Variable getClientId : Session -> string.
Variable hasExpired : Session -> Z -> bool.
Variable owned_by_client : Session -> bool.
Variable split : string -> ascii -> list string.

Local Abbreviation SubscriptionStore := (@Store.SubscriptionStore Session).
Local Abbreviation addSubscriber := (@Store.addSubscriber Session getClientId).
Local Abbreviation addSubscription :=
  (@Store.addSubscription Session getClientId).
Local Abbreviation removeSubscription :=
  (@Store.removeSubscription Session getClientId split).
Local Abbreviation removeExpiredSessionsClients :=
  (@Store.removeExpiredSessionsClients Session hasExpired owned_by_client).

(** **** Walking without making nodes *)

Lemma selectedChildren_pound n : selectedChildren "#" n = childrenPound n.
Proof. reflexivity. Qed.

Lemma selectedChildren_plus n : selectedChildren "+" n = childrenPlus n.
Proof. reflexivity. Qed.

Lemma selectedChildren_literal subtopic n :
  subtopic ≠ "#" -> subtopic ≠ "+" ->
  selectedChildren subtopic n = children n !! subtopic.
Proof.
  intros Hpound Hplus. unfold selectedChildren.
  by rewrite !bool_decide_eq_false_2.
Qed.

Lemma has_path_selected n subtopic child rest :
  selectedChildren subtopic n = Some child -> has_path child rest ->
  has_path n (subtopic :: rest).
Proof.
  unfold selectedChildren. intros Hsel Hrest.
  destruct (decide (subtopic = "#")) as [->|Hpound].
  - by eapply has_path_pound.
  - rewrite bool_decide_eq_false_2 in Hsel by done.
    destruct (decide (subtopic = "+")) as [->|Hplus].
    + by eapply has_path_plus.
    + rewrite bool_decide_eq_false_2 in Hsel by done.
      by eapply has_path_literal.
Qed.

Lemma has_path_inv n subtopic rest :
  has_path n (subtopic :: rest) ->
  ∃ child, selectedChildren subtopic n = Some child ∧ has_path child rest.
Proof.
  inversion 1; subst.
  - eexists; split; [by rewrite selectedChildren_pound | done].
  - eexists; split; [by rewrite selectedChildren_plus | done].
  - eexists; split; [by rewrite selectedChildren_literal | done].
Qed.

Lemma has_path_node_at n subtopics :
  has_path n subtopics ↔ is_Some (node_at subtopics n).
Proof.
  revert n. induction subtopics as [|subtopic rest IH]; intros n; simpl.
  - split; [by eexists | constructor].
  - split.
    + intros (child & Hsel & Hrest)%has_path_inv. rewrite Hsel. simpl.
      by apply IH.
    + destruct (selectedChildren subtopic n) as [child|] eqn:Hsel; simpl.
      * intros Hrest%IH. by eapply has_path_selected.
      * by intros [? ?].
Qed.

Lemma walk_existing_is_Some subtopics k n :
  is_Some (walk_existing subtopics k n) ↔ has_path n subtopics.
Proof.
  revert n. induction subtopics as [|subtopic rest IH]; intros n; simpl.
  - split; [constructor | by eexists].
  - destruct (selectedChildren subtopic n) as [child|] eqn:Hsel.
    + split.
      * intros Hsome. eapply has_path_selected; [done|]. apply IH.
        destruct (walk_existing rest k child); [by eexists|].
        by destruct Hsome.
      * intros (child' & Hsel' & Hrest)%has_path_inv.
        assert (child' = child) as -> by congruence.
        apply IH in Hrest as [node' ->]. by eexists.
    + split; [by intros [? ?]|].
      intros (child' & Hsel' & _)%has_path_inv. congruence.
Qed.

(** C10. When the node path of the topic filter does not fully exist under
    the root the filter is routed to, [removeSubscription] leaves the whole
    store as it is: no node is made and no subscriber is removed. *)
Theorem removeSubscription_missing_path (st : SubscriptionStore)
    (clientid topic : string) :
  ¬ has_path (if starts_with_dollar topic then rootDollar st else root st)
      (split topic "/"%char) ->
  removeSubscription clientid topic st = st.
Proof.
  intros Hmissing. unfold Store.removeSubscription.
  destruct (starts_with_dollar topic).
  - destruct (walk_existing _ _ (rootDollar st)) as [n|] eqn:Hwalk; [|done].
    exfalso. apply Hmissing. eapply walk_existing_is_Some. by eexists.
  - destruct (walk_existing _ _ (root st)) as [n|] eqn:Hwalk; [|done].
    exfalso. apply Hmissing. eapply walk_existing_is_Some. by eexists.
Qed.

(** **** Insertion *)

Lemma find_index_lt {A} (p : A -> bool) (l : list A) i :
  find_index p l = Some i -> (i < length l)%nat.
Proof.
  revert i. induction l as [|x l IH]; intros i; simpl; [done|].
  destruct (p x); [intros [= <-]; lia|].
  destruct (find_index p l) as [j|]; simpl; [|done].
  intros [= <-]. specialize (IH j eq_refl). lia.
Qed.

Lemma addSubscriber_elem h ses q subscribers :
  {| session := ses; qos := q |} ∈ addSubscriber h ses q subscribers.
Proof.
  unfold Store.addSubscriber.
  destruct (find_index _ subscribers) as [i|] eqn:Hfind.
  - apply find_index_lt in Hfind. apply list_elem_of_lookup. exists i.
    by apply list_lookup_insert_eq.
  - apply elem_of_app. right. by apply list_elem_of_singleton.
Qed.

Lemma node_at_walk_creating subtopics k n :
  ∃ deepestNode, node_at subtopics (walk_creating subtopics k n)
                 = Some (k deepestNode).
Proof.
  revert n. induction subtopics as [|subtopic rest IH]; intros n; simpl.
  - by eexists.
  - unfold selectedChildren.
    destruct (decide (subtopic = "#")) as [->|Hpound]; simpl; [apply IH|].
    rewrite !(bool_decide_eq_false_2 (subtopic = "#")) by done.
    destruct (decide (subtopic = "+")) as [->|Hplus]; simpl; [apply IH|].
    rewrite !(bool_decide_eq_false_2 (subtopic = "+")) by done. simpl.
    rewrite lookup_insert_eq. simpl. apply IH.
Qed.

(** C9, as amended. [addSubscription] does no validation and has no way to
    report an error: for every topic filter, syntactically valid or not, the
    nodes of all its subtopics exist afterwards under the root the filter is
    routed to, and when the client's session is registered its subscription
    with the requested QoS stands at the deepest of them. *)
Theorem addSubscription_never_rejects (st : SubscriptionStore)
    (clientid topic : string) (subtopics : list string) (q : Z) :
  let st' := fst (addSubscription clientid topic subtopics q st) in
  ∃ deepestNode,
    node_at subtopics
      (if starts_with_dollar topic then rootDollar st' else root st')
    = Some deepestNode
    ∧ ∀ ses, sessionsById st !! clientid = Some ses ->
             {| session := ses; qos := q |} ∈ subscribers deepestNode.
Proof.
  cbv zeta. unfold Store.addSubscription, getDeepestNode.
  destruct (sessionsById st !! clientid) as [ses|] eqn:Hses; simpl.
  - destruct (starts_with_dollar topic); simpl.
    + destruct (node_at_walk_creating subtopics
                  (fun deepestNode =>
                     set_subscribers
                       (addSubscriber (heap st) ses q (subscribers deepestNode))
                       deepestNode) (rootDollar st)) as [m Hm].
      eexists; split; [exact Hm|]. intros ? [= <-]. simpl.
      apply addSubscriber_elem.
    + destruct (node_at_walk_creating subtopics
                  (fun deepestNode =>
                     set_subscribers
                       (addSubscriber (heap st) ses q (subscribers deepestNode))
                       deepestNode) (root st)) as [m Hm].
      eexists; split; [exact Hm|]. intros ? [= <-]. simpl.
      apply addSubscriber_elem.
  - destruct (starts_with_dollar topic); simpl.
    + destruct (node_at_walk_creating subtopics (fun n => n) (rootDollar st))
        as [m Hm].
      eexists; split; [exact Hm|]. by intros ? [=].
    + destruct (node_at_walk_creating subtopics (fun n => n) (root st))
        as [m Hm].
      eexists; split; [exact Hm|]. by intros ? [=].
Qed.

(** **** Publishing *)

Lemma flat_map_nothing {A B} (l : list A) :
  flat_map (fun _ : A => @nil B) l = [].
Proof. induction l; simpl; auto. Qed.

Lemma flat_map_fmap {A B C} (f : B -> list C) (g : A -> B) (l : list A) :
  flat_map f (g <$> l) = flat_map (fun x => f (g x)) l.
Proof.
  induction l as [|x l IH]; [done|].
  rewrite fmap_cons. cbn [flat_map]. by rewrite IH.
Qed.

Lemma subscribers_at_pound n :
  subscribers_at ["#"] n = from_option subscribers [] (childrenPound n).
Proof.
  unfold subscribers_at. simpl. rewrite selectedChildren_pound.
  by destruct (childrenPound n).
Qed.

Lemma subscribers_at_plus filter n :
  subscribers_at ("+" :: filter) n
  = from_option (subscribers_at filter) [] (childrenPlus n).
Proof.
  unfold subscribers_at. simpl. rewrite selectedChildren_plus.
  by destruct (childrenPlus n).
Qed.

Lemma subscribers_at_literal subtopic filter n :
  subtopic ≠ "#" -> subtopic ≠ "+" ->
  subscribers_at (subtopic :: filter) n
  = from_option (subscribers_at filter) [] (children n !! subtopic).
Proof.
  intros Hpound Hplus. unfold subscribers_at. simpl.
  rewrite selectedChildren_literal by done.
  by destruct (children n !! subtopic).
Qed.

Lemma publishRecursively_matching_filters (h : gmap SessionPtr Session)
    subtopics this_node packet :
  wildcard_free subtopics ->
  publishRecursively h subtopics this_node packet
  = flat_map
      (fun filter =>
         publishNonRecursively h packet (subscribers_at filter this_node))
      (matching_filters subtopics).
Proof.
  intros Hfree. revert this_node.
  induction Hfree as [|cur_subtop next [Hpound Hplus] Hfree IH];
    intros this_node; simpl.
  - unfold subscribers_at; simpl. by rewrite app_nil_r.
  - rewrite flat_map_app, !flat_map_fmap, subscribers_at_pound.
    rewrite (flat_map_ext _
               (fun filter =>
                  publishNonRecursively h packet
                    (from_option (subscribers_at filter) []
                       (children this_node !! cur_subtop))))
      by (intros filter; by rewrite subscribers_at_literal).
    rewrite (flat_map_ext
               (fun filter =>
                  publishNonRecursively h packet
                    (subscribers_at ("+" :: filter) this_node))
               (fun filter =>
                  publishNonRecursively h packet
                    (from_option (subscribers_at filter) []
                       (childrenPlus this_node))))
      by (intros filter; by rewrite subscribers_at_plus).
    destruct (childrenPound this_node) as [pound|] eqn:Hp;
      destruct (childrenPlus this_node) as [plus|] eqn:Hq;
      destruct (children this_node !! cur_subtop) as [sub_node|] eqn:Hc;
      simpl; rewrite ?andb_false_r, ?IH, ?flat_map_nothing; simpl;
      rewrite ?app_nil_r; try reflexivity.
    + case_bool_decide as Hempty; [|done].
      rewrite Hempty, lookup_empty in Hc. done.
    + by case_bool_decide.
Qed.

Lemma matches_below_nil_r filter :
  matches_below filter [] = true ↔ filter = [].
Proof. destruct filter; simpl; split; done. Qed.

Lemma elem_of_matching_filters subtopics filter :
  wildcard_free subtopics ->
  filter ∈ matching_filters subtopics ↔ matches_below filter subtopics = true.
Proof.
  intros Hfree. revert filter.
  induction Hfree as [|s ts [Hpound Hplus] Hfree IH]; intros filter.
  - simpl. rewrite list_elem_of_singleton. by rewrite matches_below_nil_r.
  - cbn [matching_filters].
    rewrite elem_of_cons, elem_of_app, !list_elem_of_fmap. split.
    + intros [->|[(fs & -> & Hfs)|(fs & -> & Hfs)]]; simpl.
      * done.
      * rewrite bool_decide_eq_false_2 by done.
        rewrite (bool_decide_eq_true_2 (s = s)) by done.
        rewrite orb_true_r. simpl. by apply IH.
      * by apply IH.
    + destruct filter as [|f fs]; simpl; [done|].
      case_bool_decide as Hf.
      * intros ->%bool_decide_eq_true. subst f. by left.
      * intros [Hhead Htail%IH]%andb_true_iff. right.
        apply orb_true_iff in Hhead as [->%bool_decide_eq_true
                                       | ->%bool_decide_eq_true].
        -- right. by exists fs.
        -- left. by exists fs.
Qed.



(** **** Subscribing again *)

Lemma find_index_ext {A} (p p' : A -> bool) (l : list A) :
  (∀ x, p x = p' x) -> find_index p l = find_index p' l.
Proof.
  intros Hext. induction l as [|x l IH]; simpl; [done|].
  by rewrite Hext, IH.
Qed.

Lemma find_index_app_last {A} (p : A -> bool) (l : list A) y :
  find_index p l = None -> p y = true ->
  find_index p (l ++ [y]) = Some (length l).
Proof.
  intros Hnone Hy. induction l as [|x l IH]; simpl in *; [by rewrite Hy|].
  destruct (p x); [done|].
  destruct (find_index p l); [done|]. by rewrite IH.
Qed.

Lemma find_index_insert {A} (p : A -> bool) (l : list A) i y :
  find_index p l = Some i -> p y = true ->
  find_index p (<[i := y]> l) = Some i.
Proof.
  revert i. induction l as [|x l IH]; intros i; simpl; [done|].
  destruct (p x) eqn:Hx.
  - intros [= <-] Hy. simpl. by rewrite Hy.
  - destruct (find_index p l) as [j|]; simpl; [|done].
    intros [= <-] Hy. simpl. rewrite Hx. by rewrite (IH j eq_refl Hy).
Qed.

Lemma Subscription_eq_qos h x ses q q' :
  Store.Subscription_eq getClientId h x {| session := ses; qos := q |}
  = Store.Subscription_eq getClientId h x {| session := ses; qos := q' |}.
Proof. reflexivity. Qed.

Lemma Subscription_eq_same h ses q q' :
  Store.Subscription_eq getClientId h {| session := ses; qos := q |}
    {| session := ses; qos := q' |} = true.
Proof.
  unfold Store.Subscription_eq, expired. simpl.
  destruct (h !! ses) as [s|] eqn:Hs.
  - rewrite !bool_decide_eq_false_2 by done. simpl.
    by rewrite bool_decide_eq_true_2.
  - by rewrite !bool_decide_eq_true_2.
Qed.

Lemma addSubscriber_again h ses q1 q2 subscribers :
  ∃ i, addSubscriber h ses q1 subscribers !! i
       = Some {| session := ses; qos := q1 |}
       ∧ addSubscriber h ses q2 (addSubscriber h ses q1 subscribers)
         = <[i := {| session := ses; qos := q2 |}]>
             (addSubscriber h ses q1 subscribers).
Proof.
  destruct (find_index
              (fun x => Store.Subscription_eq getClientId h x
                          {| session := ses; qos := q1 |}) subscribers)
    as [i|] eqn:Hfind.
  - assert (addSubscriber h ses q1 subscribers
            = <[i := {| session := ses; qos := q1 |}]> subscribers) as ->
      by (unfold Store.addSubscriber; by rewrite Hfind).
    exists i. split.
    + apply list_lookup_insert_eq. by eapply find_index_lt.
    + unfold Store.addSubscriber.
      rewrite (find_index_ext _
                 (fun x => Store.Subscription_eq getClientId h x
                             {| session := ses; qos := q1 |}))
        by (intros; apply Subscription_eq_qos).
      by rewrite (find_index_insert _ _ i _ Hfind)
        by apply Subscription_eq_same.
  - assert (addSubscriber h ses q1 subscribers
            = subscribers ++ [{| session := ses; qos := q1 |}]) as ->
      by (unfold Store.addSubscriber; by rewrite Hfind).
    exists (length subscribers). split.
    + by rewrite lookup_app_r, Nat.sub_diag.
    + unfold Store.addSubscriber.
      rewrite (find_index_ext _
                 (fun x => Store.Subscription_eq getClientId h x
                             {| session := ses; qos := q1 |}))
        by (intros; apply Subscription_eq_qos).
      by rewrite (find_index_app_last _ _ _ Hfind)
        by apply Subscription_eq_same.
Qed.

Lemma walk_creating_twice subtopics k1 k2 n :
  walk_creating subtopics k2 (walk_creating subtopics k1 n)
  = walk_creating subtopics (fun m => k2 (k1 m)) n.
Proof.
  revert n. induction subtopics as [|subtopic rest IH]; intros n; simpl;
    [done|].
  repeat case_bool_decide; simpl; rewrite ?lookup_insert_eq; simpl;
    rewrite IH; [done..|].
  by rewrite insert_insert_eq.
Qed.

Lemma subscribers_at_walk_creating subtopics n :
  ∃ deepestNode,
    (∀ k', subscribers_at subtopics (walk_creating subtopics k' n)
           = subscribers (k' deepestNode)).
Proof.
  revert n. induction subtopics as [|subtopic rest IH]; intros n.
  - by exists n.
  - destruct (decide (subtopic = "#")) as [->|Hpound].
    { destruct (IH (default (new_SubscriptionNode "#") (childrenPound n)))
        as [m Hm].
      exists m. intros k'. specialize (Hm k'). unfold subscribers_at in *.
      simpl. exact Hm. }
    destruct (decide (subtopic = "+")) as [->|Hplus].
    { destruct (IH (default (new_SubscriptionNode "+") (childrenPlus n)))
        as [m Hm].
      exists m. intros k'. specialize (Hm k'). unfold subscribers_at in *.
      simpl. exact Hm. }
    destruct (IH (default (new_SubscriptionNode subtopic)
                   (children n !! subtopic))) as [m Hm].
    exists m. intros k'. specialize (Hm k').
    rewrite subscribers_at_literal by done. simpl.
    rewrite !(bool_decide_eq_false_2 (subtopic = "#")) by done.
    rewrite !(bool_decide_eq_false_2 (subtopic = "+")) by done. simpl.
    rewrite lookup_insert_eq. simpl. exact Hm.
Qed.

(** Subscribing again replaces the QoS. When a registered client subscribes
    to a filter and then subscribes to it again, the subscribers of the
    filter's node are those after the first subscription with the client's
    entry, where it stands, carrying the second QoS. *)
Theorem resubscription_replaces_qos (st : SubscriptionStore)
    (clientid topic : string) (subtopics : list string) (q1 q2 : Z)
    (ses : SessionPtr) :
  sessionsById st !! clientid = Some ses ->
  let st1 := fst (addSubscription clientid topic subtopics q1 st) in
  let st2 := fst (addSubscription clientid topic subtopics q2 st1) in
  let start (s : SubscriptionStore) :=
    if starts_with_dollar topic then rootDollar s else root s in
  ∃ i, subscribers_at subtopics (start st1) !! i
       = Some {| session := ses; qos := q1 |}
       ∧ subscribers_at subtopics (start st2)
         = <[i := {| session := ses; qos := q2 |}]>
             (subscribers_at subtopics (start st1)).
Proof.
  intros Hses. cbv zeta. unfold Store.addSubscription at 2 3.
  rewrite Hses. cbn [fst]. unfold Store.addSubscription, getDeepestNode.
  destruct (starts_with_dollar topic) eqn:Hdollar; cbn [sessionsById
    set_root set_rootDollar heap root rootDollar fst]; rewrite Hses;
    cbn [fst root rootDollar set_root set_rootDollar];
    rewrite walk_creating_twice.
  - destruct (subscribers_at_walk_creating subtopics (rootDollar st))
      as [m Hm].
    rewrite !Hm. cbn [subscribers set_subscribers]. apply addSubscriber_again.
  - destruct (subscribers_at_walk_creating subtopics (root st)) as [m Hm].
    rewrite !Hm. cbn [subscribers set_subscribers]. apply addSubscriber_again.
Qed.

(** **** Sums over the children of a node *)

Local Abbreviation sum_over F m :=
  (map_fold (fun _ child acc => (F child + acc)%nat) 0%nat m).

Lemma sum_over_insert {A} (F : A -> nat) (m : gmap string A) i x :
  m !! i = None -> sum_over F (<[i := x]> m) = (F x + sum_over F m)%nat.
Proof. intros Hi. rewrite map_fold_insert_L; [done|intros; lia|done]. Qed.

Lemma sum_over_lookup {A} (F : A -> nat) (m : gmap string A) i x :
  m !! i = Some x -> (F x <= sum_over F m)%nat.
Proof.
  intros Hi. rewrite (map_fold_delete_L _ _ i x m); [lia|intros; lia|done].
Qed.

Lemma sum_over_ext {A} (F G : A -> nat) (m : gmap string A) :
  (∀ i x, m !! i = Some x -> F x = G x) -> sum_over F m = sum_over G m.
Proof.
  induction m as [|i x m Hi IH] using map_ind; intros Hext.
  - by rewrite !map_fold_empty.
  - rewrite !sum_over_insert by done.
    rewrite (Hext i x) by apply lookup_insert_eq.
    rewrite IH; [done|]. intros j y Hj. apply (Hext j y).
    rewrite lookup_insert_ne; [done|]. intros ->. congruence.
Qed.

Lemma sum_over_omap {A B} (F : B -> nat) (g : A -> option B)
    (m : gmap string A) :
  sum_over F (omap g m) = sum_over (fun x => from_option F 0%nat (g x)) m.
Proof.
  induction m as [|i x m Hi IH] using map_ind.
  - by rewrite omap_empty, !map_fold_empty.
  - rewrite sum_over_insert by done. rewrite omap_insert.
    destruct (g x) as [y|] eqn:Hg; simpl.
    + rewrite sum_over_insert by (by rewrite lookup_omap, Hi). by rewrite IH.
    + rewrite delete_id by (by rewrite lookup_omap, Hi). by rewrite IH.
Qed.

Lemma node_ind_children (P : SubscriptionNode -> Prop) :
  (∀ n,
     (∀ i child, children n !! i = Some child -> P child) ->
     (∀ child, childrenPlus n = Some child -> P child) ->
     (∀ child, childrenPound n = Some child -> P child) ->
     P n) ->
  ∀ n, P n.
Proof.
  intros Hstep n. remember (nodes_below n) as size eqn:Hsize. revert n Hsize.
  induction (lt_wf size) as [size _ IH]. intros n ->. apply Hstep.
  - intros i child Hchild. eapply IH; [|reflexivity].
    pose proof (sum_over_lookup nodes_below (children n) i child Hchild).
    destruct n; simpl in *. lia.
  - intros child Hchild. eapply IH; [|reflexivity].
    destruct n; simpl in *. subst. simpl. lia.
  - intros child Hchild. eapply IH; [|reflexivity].
    destruct n; simpl in *. subst. simpl. lia.
Qed.

(** **** Fixed-width arithmetic of [cleanSubscriptions] *)

Lemma to_int_small z : - 2 ^ 31 <= z < 2 ^ 31 -> to_int z = z.
Proof. intros Hz. unfold to_int. rewrite Z.mod_small; lia. Qed.

Lemma to_int_add_l a b : to_int (to_int a + b) = to_int (a + b).
Proof.
  unfold to_int.
  replace ((a + 2 ^ 31) mod 2 ^ 32 - 2 ^ 31 + b + 2 ^ 31)
    with ((a + 2 ^ 31) mod 2 ^ 32 + b) by lia.
  rewrite Zplus_mod_idemp_l. f_equal. f_equal. lia.
Qed.

Lemma to_size_t_small z : 0 <= z < 2 ^ 64 -> to_size_t z = z.
Proof. intros Hz. unfold to_size_t. rewrite Z.mod_small; lia. Qed.

Lemma wrapped_sum {A} (g : A -> Z) (f : A -> nat) (m : gmap string A) :
  (∀ i x, m !! i = Some x -> g x = Z.of_nat (f x)) ->
  Z.of_nat (sum_over f m) < 2 ^ 31 ->
  map_fold (fun _ x acc => to_int (acc + g x)) 0 m = Z.of_nat (sum_over f m).
Proof.
  induction m as [|i x m Hi IH] using map_ind; intros Hg Hbound.
  - by rewrite !map_fold_empty.
  - rewrite sum_over_insert in * by done.
    rewrite map_fold_insert_L; [| |done].
    + rewrite IH; [| |lia].
      * rewrite (Hg i x) by apply lookup_insert_eq.
        rewrite to_int_small; lia.
      * intros j y Hj. apply (Hg j y). rewrite lookup_insert_ne; [done|].
        intros ->. congruence.
    + intros. rewrite !to_int_add_l. f_equal. lia.
Qed.

(** **** What [cleanSubscriptions] returns *)

Local Abbreviation alive h l :=
  (filter (fun sub => expired h (session sub) = false)
     (l : list Subscription)).

Lemma alive_alive (h : gmap SessionPtr Session) l :
  alive h (alive h l) = alive h l.
Proof.
  induction l as [|sub l IH]; [done|].
  rewrite filter_cons. case_decide as Hlive; [|done].
  rewrite filter_cons_True by done. by rewrite IH.
Qed.

Lemma live_subscriptions_unfold (h : gmap SessionPtr Session) n :
  live_subscriptions h n
  = (length (alive h (subscribers n))
     + sum_over (live_subscriptions h) (children n)
     + from_option (live_subscriptions h) 0%nat (childrenPlus n)
     + from_option (live_subscriptions h) 0%nat (childrenPound n))%nat.
Proof. by destruct n. Qed.

Local Abbreviation kept_child :=
  (fun r : SubscriptionNode * Z => if 0 <? snd r then Some (fst r) else None).

Local Abbreviation kept_wildcard o :=
  (o ≫= fun r : SubscriptionNode * Z =>
          if bool_decide (snd r = 0) then None else Some (fst r)).

Local Abbreviation left_in o acc :=
  (match o with
   | Some r => to_int (acc%Z + snd (r : SubscriptionNode * Z))
   | None => acc%Z
   end).

Lemma cleanSubscriptions_unfold (h : gmap SessionPtr Session) n :
  cleanSubscriptions h n
  = let cleaned := cleanSubscriptions h <$> children n in
    let plus := cleanSubscriptions h <$> childrenPlus n in
    let pound := cleanSubscriptions h <$> childrenPound n in
    (mkSubscriptionNode (subtopic n) (omap kept_child cleaned)
       (kept_wildcard plus) (kept_wildcard pound) (alive h (subscribers n)),
     to_int
       (to_size_t
          (Z.of_nat (length (alive h (subscribers n)))
           + to_size_t
               (left_in pound
                  (left_in plus
                     (map_fold (fun _ r acc => to_int (acc + snd r)) 0
                        cleaned)))))).
Proof. by destruct n. Qed.

Lemma cleanSubscriptions_exact (h : gmap SessionPtr Session) n :
  Z.of_nat (live_subscriptions h n) < 2 ^ 31 ->
  snd (cleanSubscriptions h n) = Z.of_nat (live_subscriptions h n)
  ∧ live_subscriptions h (fst (cleanSubscriptions h n))
    = live_subscriptions h n
  ∧ ∀ path, ¬ orphaned h (fst (cleanSubscriptions h n)) path.
Proof.
  induction n as [n IHch IHplus IHpound] using node_ind_children.
  rewrite (live_subscriptions_unfold h n). intros Hbound.
  assert (∀ i child, children n !! i = Some child ->
            (live_subscriptions h child
             <= sum_over (live_subscriptions h) (children n))%nat) as Hle
    by (intros i child; apply sum_over_lookup).
  (* the literal children *)
  assert (map_fold (fun _ r acc => to_int (acc + snd r)) 0
            (cleanSubscriptions h <$> children n)
          = Z.of_nat (sum_over (live_subscriptions h) (children n))) as Hliteral.
  { rewrite map_fold_fmap.
    apply (wrapped_sum (fun child => snd (cleanSubscriptions h child))
             (live_subscriptions h)); [|lia].
    intros i child Hchild. apply (IHch i child Hchild).
    specialize (Hle i child Hchild). lia. }
  assert (sum_over (live_subscriptions h)
            (omap kept_child (cleanSubscriptions h <$> children n))
          = sum_over (live_subscriptions h) (children n)) as Hkept.
  { rewrite sum_over_omap, map_fold_fmap. apply sum_over_ext.
    intros i child Hchild. unfold compose.
    destruct (IHch i child Hchild) as (Hcount & Hlive & _);
      [specialize (Hle i child Hchild); lia|].
    rewrite Hcount. destruct (Z.ltb_spec 0 (Z.of_nat (live_subscriptions h child)));
      simpl; lia. }
  (* the wildcard children *)
  assert (∀ child, childrenPlus n = Some child ->
            snd (cleanSubscriptions h child)
            = Z.of_nat (live_subscriptions h child)
            ∧ live_subscriptions h (fst (cleanSubscriptions h child))
              = live_subscriptions h child
            ∧ ∀ path, ¬ orphaned h (fst (cleanSubscriptions h child)) path)
    as Hplus.
  { intros child Hchild. apply IHplus; [done|].
    rewrite Hchild in Hbound. simpl in Hbound. lia. }
  assert (∀ child, childrenPound n = Some child ->
            snd (cleanSubscriptions h child)
            = Z.of_nat (live_subscriptions h child)
            ∧ live_subscriptions h (fst (cleanSubscriptions h child))
              = live_subscriptions h child
            ∧ ∀ path, ¬ orphaned h (fst (cleanSubscriptions h child)) path)
    as Hpound.
  { intros child Hchild. apply IHpound; [done|].
    rewrite Hchild in Hbound. simpl in Hbound. lia. }
  clear IHplus IHpound.
  assert (∀ acc : nat,
            Z.of_nat (acc + from_option (live_subscriptions h) 0%nat
                              (childrenPlus n)) < 2 ^ 31 ->
            left_in (cleanSubscriptions h <$> childrenPlus n) (Z.of_nat acc)
            = Z.of_nat (acc + from_option (live_subscriptions h) 0%nat
                                (childrenPlus n))) as Hleft_plus.
  { intros acc Hacc.
    destruct (childrenPlus n) as [child|]; simpl in *; [|lia].
    destruct (Hplus child) as (-> & _); [done|]. rewrite to_int_small; lia. }
  assert (∀ acc : nat,
            Z.of_nat (acc + from_option (live_subscriptions h) 0%nat
                              (childrenPound n)) < 2 ^ 31 ->
            left_in (cleanSubscriptions h <$> childrenPound n) (Z.of_nat acc)
            = Z.of_nat (acc + from_option (live_subscriptions h) 0%nat
                                (childrenPound n))) as Hleft_pound.
  { intros acc Hacc.
    destruct (childrenPound n) as [child|]; simpl in *; [|lia].
    destruct (Hpound child) as (-> & _); [done|]. rewrite to_int_small; lia. }
  assert (from_option (live_subscriptions h) 0%nat
            (kept_wildcard (cleanSubscriptions h <$> childrenPlus n))
          = from_option (live_subscriptions h) 0%nat (childrenPlus n))
    as Hkept_plus.
  { destruct (childrenPlus n) as [child|]; simpl in *; [|done].
    destruct (Hplus child) as (Hcount & Hlive & _); [done|].
    case_bool_decide; simpl; lia. }
  assert (from_option (live_subscriptions h) 0%nat
            (kept_wildcard (cleanSubscriptions h <$> childrenPound n))
          = from_option (live_subscriptions h) 0%nat (childrenPound n))
    as Hkept_pound.
  { destruct (childrenPound n) as [child|]; simpl in *; [|done].
    destruct (Hpound child) as (Hcount & Hlive & _); [done|].
    case_bool_decide; simpl; lia. }
  rewrite cleanSubscriptions_unfold. cbv zeta.
  cbn [fst snd children childrenPlus childrenPound subscribers].
  split; [|split].
  - rewrite Hliteral, Hleft_plus, Hleft_pound by lia.
    rewrite (to_size_t_small (Z.of_nat _)) by lia.
    rewrite to_size_t_small by lia. rewrite to_int_small; lia.
  - rewrite live_subscriptions_unfold.
    cbn [children childrenPlus childrenPound subscribers].
    by rewrite alive_alive, Hkept, Hkept_plus, Hkept_pound.
  - intros path [Hpath (x & Hnode & Hdead)].
    destruct path as [|p ps]; [done|]. cbn [node_at] in Hnode.
    destruct (selectedChildren p _) as [child'|] eqn:Hsel; [|done].
    simpl in Hnode.
    assert (live_subscriptions h child' ≠ 0%nat
            ∧ ∀ path, ¬ orphaned h child' path) as [Hchild' Hbelow].
    { unfold selectedChildren in Hsel.
      cbn [children childrenPlus childrenPound] in Hsel.
      destruct (bool_decide (p = "#")).
      - destruct (childrenPound n) as [child|]; [|done]. simpl in Hsel.
        destruct (Hpound child) as (Hcount & Hlive & Horphan); [done|].
        case_bool_decide; [done|]. injection Hsel as <-. split; [lia|done].
      - destruct (bool_decide (p = "+")).
        + destruct (childrenPlus n) as [child|]; [|done]. simpl in Hsel.
          destruct (Hplus child) as (Hcount & Hlive & Horphan); [done|].
          case_bool_decide; [done|]. injection Hsel as <-. split; [lia|done].
        + apply lookup_omap_Some in Hsel as (r & Hr & Hcleaned).
          apply lookup_fmap_Some in Hcleaned as (child & <- & Hchild).
          destruct (IHch p child Hchild) as (Hcount & Hlive & Horphan);
            [specialize (Hle p child Hchild); lia|].
          destruct (Z.ltb_spec 0 (snd (cleanSubscriptions h child)));
            [|done].
          injection Hr as <-. split; [lia|done]. }
    destruct ps as [|p' ps'].
    + simpl in Hnode. injection Hnode as <-. done.
    + apply (Hbelow (p' :: ps')). split; [done|]. by exists x.
Qed.

(** **** The sweep *)

Lemma removeExpiredSessionsClients_rootDollar (st : SubscriptionStore) seconds :
  rootDollar (removeExpiredSessionsClients seconds st) = rootDollar st.
Proof. reflexivity. Qed.

(** What the sweep does achieve. After [removeExpiredSessionsClients], no
    node other than the root is left under the main root without a live
    subscription in its subtree, provided the subscriptions under the main
    root whose session survives the sweep are few enough for the [int] that
    [cleanSubscriptions] counts them in. *)
Theorem sweep_leaves_no_orphan_under_root (st : SubscriptionStore)
    (seconds : Z) (path : list string) :
  let st' := removeExpiredSessionsClients seconds st in
  Z.of_nat (live_subscriptions (heap st') (root st)) < 2 ^ 31 ->
  ¬ orphaned (heap st') (root st') path.
Proof.
  cbv zeta. unfold Store.removeExpiredSessionsClients. simpl.
  intros Hbound. by apply cleanSubscriptions_exact.
Qed.

(** **** What subscribing and unsubscribing change *)

Local Abbreviation removeSubscriber :=
  (@Store.removeSubscriber Session getClientId).

Lemma keeps_children_set_subscribers (F : list Subscription -> list Subscription) :
  keeps_children (fun m => set_subscribers (F (subscribers m)) m).
Proof. by intros m. Qed.

Lemma keeps_children_id : keeps_children (fun m => m).
Proof. by intros m. Qed.

Lemma subscribers_at_cons p ps n :
  subscribers_at (p :: ps) n
  = from_option (subscribers_at ps) [] (selectedChildren p n).
Proof. unfold subscribers_at. simpl. by destruct (selectedChildren p n). Qed.

Lemma subscribers_at_new g subtopic :
  subscribers_at g (new_SubscriptionNode subtopic) = [].
Proof.
  destruct g as [|p ps]; [done|]. rewrite subscribers_at_cons.
  unfold selectedChildren. simpl. rewrite lookup_empty.
  by repeat case_bool_decide.
Qed.

Lemma subscribers_at_default g s n :
  subscribers_at g
    (default (new_SubscriptionNode s) (selectedChildren s n))
  = from_option (subscribers_at g) [] (selectedChildren s n).
Proof.
  destruct (selectedChildren s n); simpl; [done|apply subscribers_at_new].
Qed.

Lemma selectedChildren_keeps k p m :
  keeps_children k -> selectedChildren p (k m) = selectedChildren p m.
Proof.
  intros Hk. destruct (Hk m) as (Hc & Hplus & Hpound).
  unfold selectedChildren. by rewrite Hc, Hplus, Hpound.
Qed.

Lemma walk_creating_cons s rest k n :
  ∃ n',
    walk_creating (s :: rest) k n = n'
    ∧ subscribers n' = subscribers n
    ∧ ∀ p, selectedChildren p n'
           = if bool_decide (p = s)
             then Some (walk_creating rest k
                          (default (new_SubscriptionNode s)
                             (selectedChildren s n)))
             else selectedChildren p n.
Proof.
  eexists. split; [done|]. unfold selectedChildren. simpl.
  destruct (decide (s = "#")) as [->|Hpound]; simpl.
  { split; [done|]. intros p. by repeat case_bool_decide; simplify_eq. }
  rewrite !(bool_decide_eq_false_2 (s = "#")) by done.
  destruct (decide (s = "+")) as [->|Hplus]; simpl.
  { split; [done|]. intros p. by repeat case_bool_decide; simplify_eq. }
  rewrite !(bool_decide_eq_false_2 (s = "+")) by done. simpl.
  split; [done|]. intros p.
  repeat case_bool_decide; simplify_eq; simpl;
    rewrite ?lookup_insert_eq; try done.
  by rewrite lookup_insert_ne.
Qed.

Lemma subscribers_at_walk_creating_here
    (F : list Subscription -> list Subscription) subtopics k n :
  (∀ m, subscribers (k m) = F (subscribers m)) ->
  subscribers_at subtopics (walk_creating subtopics k n)
  = F (subscribers_at subtopics n).
Proof.
  intros HF. revert n. induction subtopics as [|s rest IH]; intros n.
  - apply HF.
  - destruct (walk_creating_cons s rest k n) as (n' & -> & _ & Hsel).
    rewrite !subscribers_at_cons, Hsel, bool_decide_eq_true_2 by done.
    simpl. rewrite IH. f_equal. apply subscribers_at_default.
Qed.

Lemma subscribers_at_walk_creating_elsewhere g subtopics k n :
  keeps_children k -> g ≠ subtopics ->
  subscribers_at g (walk_creating subtopics k n) = subscribers_at g n.
Proof.
  intros Hk. revert g n.
  induction subtopics as [|s rest IH]; intros g n Hg.
  - destruct g as [|p ps]; [done|]. simpl.
    by rewrite !subscribers_at_cons, selectedChildren_keeps.
  - destruct (walk_creating_cons s rest k n) as (n' & -> & Hsubs & Hsel).
    destruct g as [|p ps]; [exact Hsubs|].
    rewrite !subscribers_at_cons, Hsel.
    case_bool_decide as Hp; [|done]. subst p. simpl.
    rewrite IH by congruence. apply subscribers_at_default.
Qed.

Lemma walk_existing_cons s rest k n n' :
  walk_existing (s :: rest) k n = Some n' ->
  ∃ child child',
    selectedChildren s n = Some child
    ∧ walk_existing rest k child = Some child'
    ∧ subscribers n' = subscribers n
    ∧ ∀ p, selectedChildren p n'
           = if bool_decide (p = s) then Some child' else selectedChildren p n.
Proof.
  simpl. destruct (selectedChildren s n) as [child|] eqn:Hsel; [|done].
  destruct (walk_existing rest k child) as [child'|] eqn:Hwalk; [|done].
  simpl. intros [= <-]. exists child, child'. split; [done|]. split; [done|].
  unfold selectedChildren.
  destruct (decide (s = "#")) as [->|Hpound]; simpl.
  { split; [done|]. intros p. by repeat case_bool_decide; simplify_eq. }
  rewrite !(bool_decide_eq_false_2 (s = "#")) by done.
  destruct (decide (s = "+")) as [->|Hplus]; simpl.
  { split; [done|]. intros p. by repeat case_bool_decide; simplify_eq. }
  rewrite !(bool_decide_eq_false_2 (s = "+")) by done. simpl.
  split; [done|]. intros p.
  repeat case_bool_decide; simplify_eq; simpl;
    rewrite ?lookup_insert_eq; try done.
  by rewrite lookup_insert_ne.
Qed.

Lemma subscribers_at_walk_existing_here
    (F : list Subscription -> list Subscription) subtopics k n n' :
  (∀ m, subscribers (k m) = F (subscribers m)) ->
  walk_existing subtopics k n = Some n' ->
  subscribers_at subtopics n' = F (subscribers_at subtopics n).
Proof.
  intros HF. revert n n'. induction subtopics as [|s rest IH]; intros n n'.
  - intros [= <-]. apply HF.
  - intros (child & child' & Hsel & Hwalk & _ & Hsel')%walk_existing_cons.
    rewrite !subscribers_at_cons, Hsel', Hsel, bool_decide_eq_true_2 by done.
    simpl. by eapply IH.
Qed.

Lemma subscribers_at_walk_existing_elsewhere g subtopics k n n' :
  keeps_children k -> g ≠ subtopics ->
  walk_existing subtopics k n = Some n' ->
  subscribers_at g n' = subscribers_at g n.
Proof.
  intros Hk. revert g n n'.
  induction subtopics as [|s rest IH]; intros g n n' Hg.
  - intros [= <-]. destruct g as [|p ps]; [done|].
    by rewrite !subscribers_at_cons, selectedChildren_keeps.
  - intros (child & child' & Hsel & Hwalk & Hsubs & Hsel')%walk_existing_cons.
    destruct g as [|p ps]; [exact Hsubs|].
    rewrite !subscribers_at_cons, Hsel'.
    case_bool_decide as Hp; [|done]. subst p. rewrite Hsel. simpl.
    eapply IH; [congruence|done].
Qed.

Lemma node_at_walk_existing g subtopics k n n' :
  keeps_children k ->
  walk_existing subtopics k n = Some n' ->
  is_Some (node_at g n') ↔ is_Some (node_at g n).
Proof.
  intros Hk. revert g n n'.
  induction subtopics as [|s rest IH]; intros g n n'.
  - intros [= <-]. destruct g as [|p ps]; simpl; [done|].
    by rewrite selectedChildren_keeps.
  - intros (child & child' & Hsel & Hwalk & Hsubs & Hsel')%walk_existing_cons.
    destruct g as [|p ps]; simpl; [split; by eexists|].
    rewrite Hsel'. case_bool_decide as Hp; [|done]. subst p.
    rewrite Hsel. simpl. by eapply IH.
Qed.

(** What a subscription changes. For a registered client,
    [addSubscription] changes the subscribers of the filter's node as
    [addSubscriber] does and leaves the subscribers of every other filter,
    the other root, the registry, the sessions and the retained messages as
    they were. *)
Theorem addSubscription_changes_one_filter (st : SubscriptionStore)
    (clientid topic : string) (subtopics : list string) (q : Z)
    (ses : SessionPtr) :
  sessionsById st !! clientid = Some ses ->
  let st' := fst (addSubscription clientid topic subtopics q st) in
  let start (s : SubscriptionStore) :=
    if starts_with_dollar topic then rootDollar s else root s in
  let other (s : SubscriptionStore) :=
    if starts_with_dollar topic then root s else rootDollar s in
  subscribers_at subtopics (start st')
  = addSubscriber (heap st) ses q (subscribers_at subtopics (start st))
  ∧ (∀ filter, filter ≠ subtopics ->
               subscribers_at filter (start st')
               = subscribers_at filter (start st))
  ∧ other st' = other st
  ∧ sessionsById st' = sessionsById st
  ∧ heap st' = heap st
  ∧ retainedMessagesRoot st' = retainedMessagesRoot st
  ∧ retainedMessagesRootDollar st' = retainedMessagesRootDollar st
  ∧ retainedMessageCount st' = retainedMessageCount st.
Proof.
  intros Hses. cbv zeta. unfold Store.addSubscription, getDeepestNode.
  rewrite Hses. destruct (starts_with_dollar topic); simpl.
  - split; [|split; [|done]].
    + by apply (subscribers_at_walk_creating_here
                  (addSubscriber (heap st) ses q)).
    + intros filter Hfilter.
      apply subscribers_at_walk_creating_elsewhere; [|done].
      apply (keeps_children_set_subscribers (addSubscriber (heap st) ses q)).
  - split; [|split; [|done]].
    + by apply (subscribers_at_walk_creating_here
                  (addSubscriber (heap st) ses q)).
    + intros filter Hfilter.
      apply subscribers_at_walk_creating_elsewhere; [|done].
      apply (keeps_children_set_subscribers (addSubscriber (heap st) ses q)).
Qed.

(** What an unsubscription changes. When the filter's node path exists and
    the client is registered, [removeSubscription] changes the subscribers
    of the filter's node as [removeSubscriber] does, leaves the subscribers
    of every other filter as they were, and neither makes nor removes a
    node; the other root, the registry and the sessions stay as they were. *)
Theorem removeSubscription_changes_one_filter (st : SubscriptionStore)
    (clientid topic : string) (ses : SessionPtr) :
  sessionsById st !! clientid = Some ses ->
  has_path (if starts_with_dollar topic then rootDollar st else root st)
    (split topic "/"%char) ->
  let st' := removeSubscription clientid topic st in
  let start (s : SubscriptionStore) :=
    if starts_with_dollar topic then rootDollar s else root s in
  let other (s : SubscriptionStore) :=
    if starts_with_dollar topic then root s else rootDollar s in
  subscribers_at (split topic "/"%char) (start st')
  = removeSubscriber (heap st) ses
      (subscribers_at (split topic "/"%char) (start st))
  ∧ (∀ filter, filter ≠ split topic "/"%char ->
               subscribers_at filter (start st')
               = subscribers_at filter (start st))
  ∧ (∀ filter, has_path (start st') filter ↔ has_path (start st) filter)
  ∧ other st' = other st
  ∧ sessionsById st' = sessionsById st
  ∧ heap st' = heap st.
Proof.
  intros Hses Hpath. cbv zeta. unfold Store.removeSubscription.
  rewrite Hses.
  set (k := fun deepestNode : SubscriptionNode =>
              set_subscribers
                (removeSubscriber (heap st) ses (subscribers deepestNode))
                deepestNode).
  assert (keeps_children k) as Hk
    by apply (keeps_children_set_subscribers (removeSubscriber (heap st) ses)).
  destruct (starts_with_dollar topic).
  - destruct (proj2 (walk_existing_is_Some _ k _) Hpath) as [n' Hwalk].
    rewrite Hwalk. simpl. split; [|split; [|split; [|done]]].
    + by eapply (subscribers_at_walk_existing_here
                   (removeSubscriber (heap st) ses) _ k).
    + intros filter Hfilter.
      by eapply (subscribers_at_walk_existing_elsewhere filter _ k).
    + intros filter. rewrite !has_path_node_at.
      by eapply (node_at_walk_existing filter _ k).
  - destruct (proj2 (walk_existing_is_Some _ k _) Hpath) as [n' Hwalk].
    rewrite Hwalk. simpl. split; [|split; [|split; [|done]]].
    + by eapply (subscribers_at_walk_existing_here
                   (removeSubscriber (heap st) ses) _ k).
    + intros filter Hfilter.
      by eapply (subscribers_at_walk_existing_elsewhere filter _ k).
    + intros filter. rewrite !has_path_node_at.
      by eapply (node_at_walk_existing filter _ k).
Qed.

Lemma delete_insert_same {A} (l : list A) i y :
  delete i (<[i := y]> l) = delete i l.
Proof.
  revert i. induction l as [|x l IH]; intros [|i]; simpl; [done..|].
  f_equal. apply IH.
Qed.

Lemma delete_app_last {A} (l : list A) y :
  delete (length l) (l ++ [y]) = l.
Proof. induction l as [|x l IH]; simpl; [done|]. f_equal. apply IH. Qed.

Lemma removeSubscriber_addSubscriber (h : gmap SessionPtr Session) ses q l :
  removeSubscriber h ses (addSubscriber h ses q l) = removeSubscriber h ses l.
Proof.
  unfold Store.removeSubscriber, Store.addSubscriber. cbv zeta.
  change (fun x => Store.Subscription_eq getClientId h x
                    {| session := ses; qos := q |})
    with (fun x => Store.Subscription_eq getClientId h x
                     {| session := ses; qos := 0 |}).
  destruct (find_index
              (fun x => Store.Subscription_eq getClientId h x
                          {| session := ses; qos := 0 |}) l)
    as [i|] eqn:Hfind.
  - rewrite (find_index_insert _ _ i) by (done || apply Subscription_eq_same).
    apply delete_insert_same.
  - rewrite find_index_app_last by (done || apply Subscription_eq_same).
    apply delete_app_last.
Qed.

Lemma walk_existing_after_walk_creating (h : gmap SessionPtr Session)
    ses q subtopics n :
  ∃ n',
    walk_existing subtopics
      (fun m => set_subscribers (removeSubscriber h ses (subscribers m)) m)
      (walk_creating subtopics
         (fun m => set_subscribers (addSubscriber h ses q (subscribers m)) m)
         n)
    = Some n'
    ∧ subscribers_at subtopics n'
      = removeSubscriber h ses (subscribers_at subtopics n)
    ∧ (∀ filter, filter ≠ subtopics ->
                 subscribers_at filter n' = subscribers_at filter n)
    ∧ has_path n' subtopics.
Proof.
  set (kA := fun m => set_subscribers (addSubscriber h ses q (subscribers m)) m).
  set (kR := fun m => set_subscribers (removeSubscriber h ses (subscribers m)) m).
  assert (has_path (walk_creating subtopics kA n) subtopics) as Hpath.
  { apply has_path_node_at.
    destruct (node_at_walk_creating subtopics kA n) as [m ->]. by eexists. }
  destruct (proj2 (walk_existing_is_Some _ kR _) Hpath) as [n' Hwalk].
  exists n'. split; [done|]. split; [|split].
  - rewrite (subscribers_at_walk_existing_here (removeSubscriber h ses)
               _ kR _ n' (fun m => eq_refl) Hwalk).
    rewrite (subscribers_at_walk_creating_here (addSubscriber h ses q)
               _ kA n (fun m => eq_refl)).
    apply removeSubscriber_addSubscriber.
  - intros filter Hfilter.
    rewrite (subscribers_at_walk_existing_elsewhere filter _ kR _ n'
               (keeps_children_set_subscribers (removeSubscriber h ses))
               Hfilter Hwalk).
    apply subscribers_at_walk_creating_elsewhere; [|done].
    apply (keeps_children_set_subscribers (addSubscriber h ses q)).
  - apply has_path_node_at.
    apply (node_at_walk_existing subtopics _ kR _ n'
             (keeps_children_set_subscribers (removeSubscriber h ses)) Hwalk).
    by apply has_path_node_at.
Qed.

(** Unsubscribing after subscribing. When a registered client subscribes to
    a filter and then unsubscribes from it, the subscribers of the filter's
    node are those of before the subscription without the client's earlier
    entry, if it had one; the subscribers of every other filter are as
    before; and the node path made for the filter stays in the trie. *)
Theorem unsubscribe_after_subscribe (st : SubscriptionStore)
    (clientid topic : string) (q : Z) (ses : SessionPtr) :
  sessionsById st !! clientid = Some ses ->
  let subtopics := split topic "/"%char in
  let st1 := fst (addSubscription clientid topic subtopics q st) in
  let st2 := removeSubscription clientid topic st1 in
  let start (s : SubscriptionStore) :=
    if starts_with_dollar topic then rootDollar s else root s in
  subscribers_at subtopics (start st2)
  = removeSubscriber (heap st) ses (subscribers_at subtopics (start st))
  ∧ (∀ filter, filter ≠ subtopics ->
               subscribers_at filter (start st2)
               = subscribers_at filter (start st))
  ∧ has_path (start st2) subtopics.
Proof.
  intros Hses. cbv zeta.
  unfold Store.removeSubscription, Store.addSubscription, getDeepestNode.
  rewrite Hses. cbn [fst].
  destruct (starts_with_dollar topic);
    cbn [sessionsById heap root rootDollar set_root set_rootDollar];
    rewrite Hses.
  - destruct (walk_existing_after_walk_creating (heap st) ses q
                (split topic "/"%char) (rootDollar st))
      as (n' & -> & Hhere & Helse & Hpath).
    by cbn [rootDollar set_rootDollar].
  - destruct (walk_existing_after_walk_creating (heap st) ses q
                (split topic "/"%char) (root st))
      as (n' & -> & Hhere & Helse & Hpath).
    by cbn [root set_root].
Qed.

(** **** A client without a session *)

Lemma walk_existing_unchanged subtopics n n' :
  walk_existing subtopics (fun m => m) n = Some n' -> n' = n.
Proof.
  revert n n'. induction subtopics as [|s rest IH]; intros n n'; simpl.
  - by intros [= <-].
  - destruct (selectedChildren s n) as [child|] eqn:Hsel; [|done].
    destruct (walk_existing rest (fun m => m) child) as [child'|] eqn:Hwalk;
      [|done].
    apply IH in Hwalk as ->. simpl. intros [= <-].
    unfold selectedChildren in Hsel. destruct n as [name ch plus pound subs].
    simpl in *. repeat case_bool_decide; simplify_eq; try done.
    by rewrite insert_id.
Qed.

(** A client without a session. When the client id is not in the registry,
    [addSubscription] still makes the node path of the filter, but no filter
    gets a subscriber and no retained message is handed out; and
    [removeSubscription] leaves the store as it is. *)
Theorem client_without_session (st : SubscriptionStore)
    (clientid topic : string) (subtopics : list string) (q : Z) :
  sessionsById st !! clientid = None ->
  let added := addSubscription clientid topic subtopics q st in
  let start (s : SubscriptionStore) :=
    if starts_with_dollar topic then rootDollar s else root s in
  snd added = []
  ∧ has_path (start (fst added)) subtopics
  ∧ (∀ filter, subscribers_at filter (start (fst added))
               = subscribers_at filter (start st))
  ∧ removeSubscription clientid topic st = st.
Proof.
  intros Hnone. cbv zeta.
  unfold Store.addSubscription, Store.removeSubscription, getDeepestNode.
  rewrite Hnone. cbn [fst snd].
  assert (∀ n filter,
            subscribers_at filter (walk_creating subtopics (fun m => m) n)
            = subscribers_at filter n) as Hsame.
  { intros n filter. destruct (decide (filter = subtopics)) as [->|Hne].
    - by apply (subscribers_at_walk_creating_here (fun l => l)).
    - apply subscribers_at_walk_creating_elsewhere; [|done].
      apply keeps_children_id. }
  assert (∀ n, has_path (walk_creating subtopics (fun m => m) n) subtopics)
    as Hpath.
  { intros n. apply has_path_node_at.
    destruct (node_at_walk_creating subtopics (fun m => m) n) as [m ->].
    by eexists. }
  split; [done|].
  destruct (starts_with_dollar topic);
    cbn [root rootDollar set_root set_rootDollar];
    (split; [apply Hpath|]); (split; [apply Hsame|]).
  - destruct (walk_existing _ _ (rootDollar st)) as [n'|] eqn:Hwalk; [|done].
    apply walk_existing_unchanged in Hwalk as ->. by destruct st.
  - destruct (walk_existing _ _ (root st)) as [n'|] eqn:Hwalk; [|done].
    apply walk_existing_unchanged in Hwalk as ->. by destruct st.
Qed.

(** **** Publishing after a subscription *)

Lemma flat_map_ext_elem {A B} (f g : A -> list B) (l : list A) :
  (∀ x, x ∈ l -> f x = g x) -> flat_map f l = flat_map g l.
Proof.
  induction l as [|x l IH]; intros Hext; simpl; [done|].
  rewrite (Hext x) by left. rewrite IH; [done|].
  intros y Hy. apply Hext. by right.
Qed.

(** A subscription and the publishes after it. After a registered client
    has subscribed to a filter, a publish to a topic without wildcards under
    the root of the filter calls [writePacket] for the client's session with
    the QoS of the subscription when the filter matches the topic and the
    session is alive; a publish under the other root, or to a topic the
    filter does not match, makes the calls it made before. *)
Theorem publish_after_subscription (st : SubscriptionStore)
    (clientid topic : string) (filter : list string) (q : Z)
    (ses : SessionPtr) (subtopics : list string) (packet : Publish)
    (dollar : bool) :
  sessionsById st !! clientid = Some ses ->
  wildcard_free subtopics ->
  let st' := fst (addSubscription clientid topic filter q st) in
  (dollar = starts_with_dollar topic ->
   matches_below filter subtopics = true ->
   expired (heap st) ses = false ->
   {| to := ses; packet := packet; max_qos := q; retain := false |}
   ∈ queuePacketAtSubscribers subtopics packet dollar st')
  ∧ (dollar ≠ starts_with_dollar topic
     ∨ matches_below filter subtopics = false ->
     queuePacketAtSubscribers subtopics packet dollar st'
     = queuePacketAtSubscribers subtopics packet dollar st).
Proof.
  intros Hses Hfree. cbv zeta.
  unfold Store.addSubscription, getDeepestNode, queuePacketAtSubscribers.
  rewrite Hses. cbn [fst]. split.
  - intros -> Hmatch Hlive.
    rewrite publishRecursively_matching_filters by done.
    apply list_elem_of_In, in_flat_map. exists filter. split.
    { apply list_elem_of_In. by apply elem_of_matching_filters. }
    assert (∀ n,
              In {| to := ses; packet := packet; max_qos := q; retain := false |}
                (publishNonRecursively (heap st) packet
                   (subscribers_at filter
                      (walk_creating filter
                         (fun m =>
                            set_subscribers
                              (addSubscriber (heap st) ses q (subscribers m))
                              m) n)))) as Hin.
    { intros n.
      rewrite (subscribers_at_walk_creating_here
                 (addSubscriber (heap st) ses q)) by done.
      apply in_flat_map. exists {| session := ses; qos := q |}. split.
      - apply list_elem_of_In, addSubscriber_elem.
      - cbn [session qos]. rewrite Hlive. by left. }
    destruct (starts_with_dollar topic);
      cbn [heap root rootDollar set_root set_rootDollar]; apply Hin.
  - intros Hother.
    destruct dollar, (starts_with_dollar topic);
      cbn [heap root rootDollar set_root set_rootDollar]; try done;
      destruct Hother as [?|Hmiss]; try done;
      rewrite !publishRecursively_matching_filters by done;
      apply flat_map_ext_elem; intros f Hf; f_equal;
      (apply subscribers_at_walk_creating_elsewhere;
       [apply (keeps_children_set_subscribers (addSubscriber (heap st) ses q))
       |intros ->; apply elem_of_matching_filters in Hf; [congruence|done]]).
Qed.

(** **** What the sweep keeps *)

Lemma dead_subtree (h : gmap SessionPtr Session) n :
  live_subscriptions h n = 0%nat ->
  ∀ filter, alive h (subscribers_at filter n) = [].
Proof.
  induction n as [n IHch IHplus IHpound] using node_ind_children.
  rewrite (live_subscriptions_unfold h n). intros Hdead [|p ps].
  - apply nil_length_inv. unfold subscribers_at. simpl. lia.
  - rewrite subscribers_at_cons.
    destruct (selectedChildren p n) as [c|] eqn:Hsel; simpl; [|done].
    unfold selectedChildren in Hsel.
    case_bool_decide; [|case_bool_decide].
    + apply (IHpound c Hsel). rewrite Hsel in Hdead. simpl in Hdead. lia.
    + apply (IHplus c Hsel). rewrite Hsel in Hdead. simpl in Hdead. lia.
    + apply (IHch p c Hsel).
      pose proof (sum_over_lookup (live_subscriptions h) _ _ _ Hsel). lia.
Qed.

Lemma cleanSubscriptions_subscribers_at (h : gmap SessionPtr Session) n :
  Z.of_nat (live_subscriptions h n) < 2 ^ 31 ->
  ∀ filter,
    subscribers_at filter (fst (cleanSubscriptions h n))
    = alive h (subscribers_at filter n).
Proof.
  induction n as [n IHch IHplus IHpound] using node_ind_children.
  rewrite (live_subscriptions_unfold h n). intros Hbound filter.
  rewrite cleanSubscriptions_unfold. cbv zeta. cbn [fst].
  destruct filter as [|p ps]; [done|].
  rewrite !subscribers_at_cons. unfold selectedChildren.
  cbn [children childrenPlus childrenPound].
  case_bool_decide; [|case_bool_decide].
  - destruct (childrenPound n) as [c|] eqn:Hc; simpl; [|done].
    simpl in Hbound.
    destruct (cleanSubscriptions_exact h c) as (Hcount & _); [lia|].
    case_bool_decide as Hzero; simpl.
    + symmetry. apply dead_subtree. lia.
    + apply (IHpound c eq_refl). lia.
  - destruct (childrenPlus n) as [c|] eqn:Hc; simpl; [|done].
    simpl in Hbound.
    destruct (cleanSubscriptions_exact h c) as (Hcount & _); [lia|].
    case_bool_decide as Hzero; simpl.
    + symmetry. apply dead_subtree. lia.
    + apply (IHplus c eq_refl). lia.
  - rewrite lookup_omap, lookup_fmap.
    destruct (children n !! p) as [c|] eqn:Hc; simpl; [|done].
    pose proof (sum_over_lookup (live_subscriptions h) _ _ _ Hc) as Hle.
    destruct (cleanSubscriptions_exact h c) as (Hcount & _); [lia|].
    rewrite Hcount.
    destruct (Z.ltb_spec 0 (Z.of_nat (live_subscriptions h c))); simpl.
    + apply (IHch p c Hc). lia.
    + symmetry. apply dead_subtree. lia.
Qed.

(** The sweep keeps the live subscriptions where they are. After
    [removeExpiredSessionsClients], the subscribers of every filter under
    the main root are those of before whose session is still alive, in the
    order they had, provided these subscriptions are few enough for the
    [int] that [cleanSubscriptions] counts them in. *)
Theorem sweep_keeps_live_subscriptions (st : SubscriptionStore)
    (seconds : Z) (filter : list string) :
  let st' := removeExpiredSessionsClients seconds st in
  Z.of_nat (live_subscriptions (heap st') (root st)) < 2 ^ 31 ->
  subscribers_at filter (root st')
  = base.filter (fun sub => expired (heap st') (session sub) = false)
      (subscribers_at filter (root st)).
Proof.
  cbv zeta. unfold Store.removeExpiredSessionsClients. simpl.
  intros Hbound. by apply cleanSubscriptions_subscribers_at.
Qed.

Lemma publishNonRecursively_alive (h : gmap SessionPtr Session) packet l :
  publishNonRecursively h packet (alive h l) = publishNonRecursively h packet l.
Proof.
  induction l as [|sub l IH]; [done|].
  rewrite filter_cons. simpl. case_decide as Hlive.
  - simpl. by rewrite IH.
  - rewrite IH. by destruct (expired h (session sub)).
Qed.

Lemma publishNonRecursively_fewer_sessions
    (h h' : gmap SessionPtr Session) packet l :
  h' ⊆ h ->
  publishNonRecursively h' packet l
  = base.filter (fun d => expired h' (to d) = false)
      (publishNonRecursively h packet l).
Proof.
  intros Hsub. induction l as [|sub l IH]; [done|]. simpl.
  destruct (expired h (session sub)) eqn:Hgone.
  - apply bool_decide_eq_true in Hgone.
    assert (expired h' (session sub) = true) as ->
      by (apply bool_decide_eq_true; by eapply lookup_weaken_None).
    simpl. apply IH.
  - simpl. destruct (expired h' (session sub)) eqn:Hgone'; simpl.
    + rewrite filter_cons_False by (simpl; congruence). apply IH.
    + rewrite filter_cons_True by done. by rewrite IH.
Qed.

Lemma filter_flat_map {A B} (P : B -> Prop) `{!∀ x, Decision (P x)}
    (f g : A -> list B) (l : list A) :
  (∀ x, g x = base.filter P (f x)) ->
  flat_map g l = base.filter P (flat_map f l).
Proof.
  intros Hg. induction l as [|x l IH]; simpl; [done|].
  by rewrite filter_app, Hg, IH.
Qed.

Lemma release_subseteq (h : gmap SessionPtr Session) p :
  Store.release owned_by_client p h ⊆ h.
Proof.
  unfold Store.release. destruct (h !! p) as [s|]; [|done].
  destruct (owned_by_client s); [done|]. apply delete_subseteq.
Qed.

Lemma sweep_heap_subseteq (st : SubscriptionStore) seconds :
  heap (removeExpiredSessionsClients seconds st) ⊆ heap st.
Proof.
  unfold Store.removeExpiredSessionsClients. simpl.
  apply (map_fold_weak_ind (fun r _ => r ⊆ heap st)); [done|].
  intros i x m r _ Hr. etrans; [apply release_subseteq|done].
Qed.

(** A publish after the sweep. After [removeExpiredSessionsClients], a
    publish to a topic without wildcards makes the [writePacket] calls it
    made before the sweep, in their order, without those to a session the
    sweep destroyed, provided the subscriptions under the main root whose
    session survives are few enough for the [int] that [cleanSubscriptions]
    counts them in. *)
Theorem publish_after_sweep (st : SubscriptionStore) (seconds : Z)
    (subtopics : list string) (packet : Publish) (dollar : bool) :
  let st' := removeExpiredSessionsClients seconds st in
  Z.of_nat (live_subscriptions (heap st') (root st)) < 2 ^ 31 ->
  wildcard_free subtopics ->
  queuePacketAtSubscribers subtopics packet dollar st'
  = base.filter (fun d => expired (heap st') (to d) = false)
      (queuePacketAtSubscribers subtopics packet dollar st).
Proof.
  cbv zeta. intros Hbound Hfree.
  pose proof (sweep_heap_subseteq st seconds) as Hsub.
  unfold queuePacketAtSubscribers.
  rewrite !publishRecursively_matching_filters by done.
  apply filter_flat_map. intros filter.
  rewrite <- (publishNonRecursively_fewer_sessions _ _ _ _ Hsub).
  destruct dollar; [done|].
  unfold Store.removeExpiredSessionsClients in *. simpl in *.
  rewrite cleanSubscriptions_subscribers_at by done.
  apply publishNonRecursively_alive.
Qed.

(** **** The sessions the sweep erases *)

Lemma release_lookup (h : gmap SessionPtr Session) p p' s :
  Store.release owned_by_client p h !! p' = Some s
  ↔ h !! p' = Some s ∧ (owned_by_client s = true ∨ p ≠ p').
Proof.
  unfold Store.release. destruct (h !! p) as [sp|] eqn:Hp.
  - destruct (owned_by_client sp) eqn:Howned.
    + split; [|by intros [? _]]. intros Hp'. split; [done|].
      destruct (decide (p = p')) as [->|]; [left; congruence|by right].
    + rewrite lookup_delete_Some. split.
      * intros [? ?]. split; [done|by right].
      * intros [Hp' [Hs|?]]; [|done]. split; [|done].
        intros ->. congruence.
  - split; [|by intros [? _]]. intros Hp'. split; [done|].
    right. intros ->. congruence.
Qed.

(** The sessions after the sweep. [removeExpiredSessionsClients] leaves in
    the registry exactly the entries whose session has not expired, and it
    destroys a session exactly when an erased entry pointed to it and no
    client owns it. *)
Theorem sweep_erases_expired_sessions (st : SubscriptionStore) (seconds : Z) :
  let st' := removeExpiredSessionsClients seconds st in
  (∀ clientid p,
     sessionsById st' !! clientid = Some p
     ↔ sessionsById st !! clientid = Some p
       ∧ session_hasExpired hasExpired (heap st) seconds p = false)
  ∧ (∀ p s,
       heap st' !! p = Some s
       ↔ heap st !! p = Some s
         ∧ (owned_by_client s = true
            ∨ hasExpired s seconds = false
            ∨ ∀ clientid, sessionsById st !! clientid ≠ Some p)).
Proof.
  cbv zeta. unfold Store.removeExpiredSessionsClients. simpl. split.
  - intros clientid p. rewrite map_lookup_filter_Some. simpl.
    by rewrite not_true_iff_false.
  - intros p s.
    assert (∀ (erased : gmap string SessionPtr),
              map_fold (fun _ p acc => Store.release owned_by_client p acc)
                (heap st) erased !! p = Some s
              ↔ heap st !! p = Some s
                ∧ (owned_by_client s = true
                   ∨ ∀ clientid, erased !! clientid ≠ Some p)) as Hfold.
    { apply (map_fold_weak_ind
               (fun r m =>
                  r !! p = Some s
                  ↔ heap st !! p = Some s
                    ∧ (owned_by_client s = true
                       ∨ ∀ clientid, m !! clientid ≠ Some p))).
      - split; [intros ?; split; [done|right; intros ?; by rewrite lookup_empty]
               |by intros [? _]].
      - intros i x m r Hi IH. rewrite release_lookup, IH. split.
        + intros [[Hp [Howned|Hnone]] Hnew]; (split; [done|]); [by left|].
          destruct Hnew as [?|Hx]; [by left|]. right. intros clientid.
          destruct (decide (clientid = i)) as [->|];
            [rewrite lookup_insert_eq; congruence
            |by rewrite lookup_insert_ne].
        + intros [Hp [Howned|Hnone]];
            [split; [split; [done|by left]|by left]|].
          split; [split; [done|]|].
          * right. intros clientid Hclient. apply (Hnone clientid).
            rewrite lookup_insert_ne; [done|]. intros ->. congruence.
          * right. intros ->. apply (Hnone i). by rewrite lookup_insert_eq. }
    rewrite Hfold. split; intros [Hp Hcases]; (split; [done|]).
    + destruct Hcases as [?|Hnone]; [by left|].
      destruct (hasExpired s seconds) eqn:Hexp; [|by right; left].
      right. right. intros clientid Hclient. apply (Hnone clientid).
      apply map_lookup_filter_Some. split; [done|]. simpl.
      unfold Store.session_hasExpired. by rewrite Hp.
    + destruct Hcases as [?|[Hexp|Hnone]]; [by left|..]; right;
        intros clientid [Hclient Hgone]%map_lookup_filter_Some.
      * simpl in Hgone. unfold Store.session_hasExpired in Hgone.
        rewrite Hp in Hgone. congruence.
      * by apply (Hnone clientid).
Qed.

(** **** The subscriptions that are saved *)

Local Abbreviation getSubscriptions :=
  (@Store.getSubscriptions Session getClientId).

Local Abbreviation own_subscriptions h composedTopic outputList subs :=
  (foldl
     (fun (out : gmap string (list SubscriptionForSerializing)) node =>
        match (h : gmap SessionPtr Session) !! session node with
        | Some ses =>
            <[composedTopic :=
                default [] (out !! composedTopic)
                ++ [{| clientId := getClientId ses; saved_qos := qos node |}]]>
              out
        | None => out
        end)
     outputList subs).

Local Abbreviation saved_under key e out :=
  (e ∈ default [] ((out : gmap string (list SubscriptionForSerializing))
                     !! (key : string))).

Lemma getSubscriptions_unfold (h : gmap SessionPtr Session) n composedTopic
    root outputList :
  getSubscriptions h n composedTopic root outputList
  = let own :=
      own_subscriptions h composedTopic outputList (subscribers n) in
    let literal :=
      map_fold
        (fun name child acc =>
           getSubscriptions h child
             (if root then name else (composedTopic +:+ "/") +:+ name) false
             acc)
        own (children n) in
    let plus :=
      match childrenPlus n with
      | Some child =>
          getSubscriptions h child
            (if root then "+" else composedTopic +:+ "/+") false literal
      | None => literal
      end in
    match childrenPound n with
    | Some child =>
        getSubscriptions h child
          (if root then "#" else composedTopic +:+ "/#") false plus
    | None => plus
    end.
Proof. by destruct n. Qed.

Lemma own_subscriptions_keeps (h : gmap SessionPtr Session) composedTopic
    subs outputList key e :
  saved_under key e outputList ->
  saved_under key e (own_subscriptions h composedTopic outputList subs).
Proof.
  revert outputList. induction subs as [|node subs IH]; intros out Hin;
    simpl; [done|].
  apply IH. destruct (h !! session node) as [ses|]; [|done].
  destruct (decide (key = composedTopic)) as [->|Hne].
  - rewrite lookup_insert_eq. simpl. apply elem_of_app. by left.
  - by rewrite lookup_insert_ne.
Qed.

Lemma own_subscriptions_adds (h : gmap SessionPtr Session) composedTopic
    subs outputList sub s :
  sub ∈ subs -> h !! session sub = Some s ->
  saved_under composedTopic
    {| clientId := getClientId s; saved_qos := qos sub |}
    (own_subscriptions h composedTopic outputList subs).
Proof.
  revert outputList. induction subs as [|node subs IH]; intros out Hin Hs;
    [by apply elem_of_nil in Hin|].
  apply elem_of_cons in Hin as [<-|Hin]; simpl.
  - rewrite Hs. apply own_subscriptions_keeps.
    rewrite lookup_insert_eq. simpl. apply elem_of_app. right.
    by apply list_elem_of_singleton.
  - by apply IH.
Qed.

Lemma foldr_entries_keeps {A B} (P : B -> Prop) (f : string -> A -> B -> B)
    (l : list (string * A)) (b : B) :
  (∀ k c acc, (k, c) ∈ l -> P acc -> P (f k c acc)) ->
  P b -> P (foldr (uncurry f) b l).
Proof.
  induction l as [|[k c] l IH]; intros Hf Hb; simpl; [done|].
  apply Hf; [left|]. apply IH; [|done]. intros. apply Hf; [by right|done].
Qed.

Lemma foldr_entries_reaches {A B} (P : B -> Prop) (f : string -> A -> B -> B)
    (l : list (string * A)) (b : B) k c :
  (∀ k' c' acc, (k', c') ∈ l -> P acc -> P (f k' c' acc)) ->
  (∀ acc, P (f k c acc)) ->
  (k, c) ∈ l -> P (foldr (uncurry f) b l).
Proof.
  induction l as [|[k' c'] l IH]; intros Hkeep Hreach Hin;
    [by apply elem_of_nil in Hin|].
  simpl. apply elem_of_cons in Hin as [[= <- <-]|Hin]; [apply Hreach|].
  apply Hkeep; [left|]. apply IH; [|done..].
  intros. apply Hkeep; [by right|done].
Qed.

Lemma getSubscriptions_keeps (h : gmap SessionPtr Session) n :
  ∀ composedTopic root outputList key e,
    saved_under key e outputList ->
    saved_under key e (getSubscriptions h n composedTopic root outputList).
Proof.
  induction n as [n IHch IHplus IHpound] using node_ind_children.
  intros composedTopic root outputList key e Hin.
  rewrite getSubscriptions_unfold. cbv zeta.
  assert (saved_under key e
            (map_fold
               (fun name child acc =>
                  getSubscriptions h child
                    (if root then name else (composedTopic +:+ "/") +:+ name)
                    false acc)
               (own_subscriptions h composedTopic outputList (subscribers n))
               (children n))) as Hliteral.
  { rewrite map_fold_foldr.
    apply (foldr_entries_keeps (fun out => saved_under key e out)).
    - intros k c acc Hc%elem_of_map_to_list Hacc. by apply (IHch k c Hc).
    - by apply own_subscriptions_keeps. }
  destruct (childrenPound n) as [pound|] eqn:Hpound;
    destruct (childrenPlus n) as [plus|] eqn:Hplus; try done.
  - apply (IHpound pound eq_refl). by apply (IHplus plus eq_refl).
  - by apply (IHpound pound eq_refl).
  - by apply (IHplus plus eq_refl).
Qed.

Lemma app_slash_wildcard (composedTopic w : string) :
  (composedTopic +:+ "/") +:+ w = composedTopic +:+ String "/"%char w.
Proof.
  induction composedTopic as [|c rest IH]; [reflexivity|].
  change (String c ((rest +:+ "/") +:+ w)
          = String c (rest +:+ String "/"%char w)).
  by rewrite IH.
Qed.

(** Every live subscription is saved. [getSubscriptions] files every
    subscription with a live session that stands at a node below the one it
    is called on under the key it composes for the node's path, with the
    session's client id and the QoS of the subscription; what was in
    [outputList] stays. *)
Theorem getSubscriptions_saves_live_subscriptions
    (h : gmap SessionPtr Session) (this_node : SubscriptionNode)
    (composedTopic : string) (root : bool)
    (outputList : gmap string (list SubscriptionForSerializing)) :
  (∀ path m sub s,
     node_at path this_node = Some m ->
     sub ∈ subscribers m ->
     h !! session sub = Some s ->
     {| clientId := getClientId s; saved_qos := qos sub |}
     ∈ default []
         (getSubscriptions h this_node composedTopic root outputList
          !! composedTopic_at composedTopic root path))
  ∧ (∀ key e,
       e ∈ default [] (outputList !! key) ->
       e ∈ default []
             (getSubscriptions h this_node composedTopic root outputList
              !! key)).
Proof.
  split; [|intros key e; apply getSubscriptions_keeps].
  intros path. revert this_node composedTopic root outputList.
  induction path as [|k rest IH];
    intros n composedTopic root outputList m sub s Hnode Hsub Hs.
  - simpl in Hnode. injection Hnode as <-. simpl.
    rewrite getSubscriptions_unfold. cbv zeta.
    assert (saved_under composedTopic
              {| clientId := getClientId s; saved_qos := qos sub |}
              (map_fold
                 (fun name child acc =>
                    getSubscriptions h child
                      (if root then name
                       else (composedTopic +:+ "/") +:+ name)
                      false acc)
                 (own_subscriptions h composedTopic outputList (subscribers n))
                 (children n))) as Hliteral.
    { rewrite map_fold_foldr.
      apply (foldr_entries_keeps
               (fun out =>
                  saved_under composedTopic
                    {| clientId := getClientId s; saved_qos := qos sub |} out)).
      - intros k c acc _ Hacc. by apply getSubscriptions_keeps.
      - by apply own_subscriptions_adds. }
    destruct (childrenPound n), (childrenPlus n);
      repeat apply getSubscriptions_keeps; done.
  - simpl in Hnode.
    destruct (selectedChildren k n) as [c|] eqn:Hsel; [|done].
    simpl in Hnode. rewrite getSubscriptions_unfold. cbv zeta.
    unfold selectedChildren in Hsel. cbn [composedTopic_at].
    case_bool_decide as Hpound; [|case_bool_decide as Hplus].
    + subst k. rewrite Hsel, app_slash_wildcard. by eapply IH.
    + subst k. rewrite Hsel, app_slash_wildcard.
      assert (∀ out,
                saved_under
                  (composedTopic_at
                     (if root then "+" else composedTopic +:+ "/+") false rest)
                  {| clientId := getClientId s; saved_qos := qos sub |}
                  (getSubscriptions h c
                     (if root then "+" else composedTopic +:+ "/+") false out))
        as Hhere by (intros out; by eapply IH).
      destruct (childrenPound n); [apply getSubscriptions_keeps|]; apply Hhere.
    + assert (saved_under
                (composedTopic_at
                   (if root then k else (composedTopic +:+ "/") +:+ k) false
                   rest)
                {| clientId := getClientId s; saved_qos := qos sub |}
                (map_fold
                   (fun name child acc =>
                      getSubscriptions h child
                        (if root then name
                         else (composedTopic +:+ "/") +:+ name)
                        false acc)
                   (own_subscriptions h composedTopic outputList
                      (subscribers n))
                   (children n))) as Hliteral.
      { rewrite map_fold_foldr.
        apply (foldr_entries_reaches
                 (fun out =>
                    saved_under
                      (composedTopic_at
                         (if root then k else (composedTopic +:+ "/") +:+ k)
                         false rest)
                      {| clientId := getClientId s; saved_qos := qos sub |}
                      out)
                 _ _ _ k c).
        - intros k' c' acc _ Hacc. by apply getSubscriptions_keeps.
        - intros acc. by eapply IH.
        - by apply elem_of_map_to_list. }
      destruct (childrenPound n), (childrenPlus n);
        repeat apply getSubscriptions_keeps; done.
Qed.

End WithSession.

(** **** The store run on the sample broker *)

(** C2 fails on the code: the registry holds the session of "alice" only and
    [removeSession] is asked to remove "bob"; alice's entry is erased. *)
Theorem removeSession_erases_another_client :
  sessionsById Sample.one_client !! "alice" = Some 1%nat
  ∧ sessionsById Sample.one_client !! "bob" = None
  ∧ sessionsById
      (removeSession Sample.owned_by_client "bob" Sample.one_client) !! "alice"
    = None.
Proof. vm_compute. repeat split; reflexivity. Qed.



(** C8 fails on the code: alice subscribes to [$SYS/uptime] and
    unsubscribes again, then the sweep runs; the node [$SYS] it leaves under
    the dollar root has no live subscription in its subtree. *)
Theorem sweep_skips_dollar_root :
  let subscribed :=
    fst (addSubscription Sample.getClientId "alice" "$SYS/uptime"
           ["$SYS"; "uptime"] 0 Sample.one_client) in
  let unsubscribed :=
    removeSubscription Sample.getClientId Sample.split "alice" "$SYS/uptime"
      subscribed in
  let swept :=
    removeExpiredSessionsClients Sample.hasExpired Sample.owned_by_client 60
      unsubscribed in
  subscribers_at ["$SYS"; "uptime"] (rootDollar subscribed)
  = [{| session := 1%nat; qos := 0 |}]
  ∧ orphaned (heap swept) (rootDollar swept) ["$SYS"].
Proof.
  cbv zeta. split; [vm_compute; reflexivity|].
  split; [discriminate|].
  rewrite removeExpiredSessionsClients_rootDollar.
  eexists. split; [vm_compute; reflexivity|]. vm_compute. reflexivity.
Qed.

(** C9, as stated, fails: [a/#/b] is not a valid filter, and
    [addSubscription] makes its three nodes and records the subscription. *)
Lemma invalid_filter_is_inserted :
  let st' :=
    fst (addSubscription Sample.getClientId "alice" "a/#/b" ["a"; "#"; "b"] 1
           Sample.one_client) in
  valid_filter "a/#/b" ["a"; "#"; "b"] = false
  ∧ node_at ["a"] (root Sample.one_client) = None
  ∧ node_at ["a"; "#"; "b"] (root st')
    = Some (mkSubscriptionNode "b" ∅ None None
              [{| session := 1%nat; qos := 1 |}]).
Proof. vm_compute. repeat split; reflexivity. Qed.

Lemma resubscription_replaces_qos_witness :
  let st1 :=
    fst (addSubscription Sample.getClientId "alice" "a/+" ["a"; "+"] 1
           Sample.one_client) in
  let st2 :=
    fst (addSubscription Sample.getClientId "alice" "a/+" ["a"; "+"] 2 st1) in
  subscribers_at ["a"; "+"] (root st1) = [{| session := 1%nat; qos := 1 |}]
  ∧ subscribers_at ["a"; "+"] (root st2) = [{| session := 1%nat; qos := 2 |}].
Proof.
  cbv zeta. split; [vm_compute; reflexivity|].
  destruct (resubscription_replaces_qos Sample.getClientId Sample.one_client
              "alice" "a/+" ["a"; "+"] 1 2 1%nat eq_refl)
    as (i & Hi & Hagain).
  cbv zeta in Hi, Hagain. simpl starts_with_dollar in Hi, Hagain.
  rewrite Hagain.
  assert (subscribers_at ["a"; "+"]
            (root
               (fst (addSubscription Sample.getClientId "alice" "a/+"
                       ["a"; "+"] 1 Sample.one_client)))
          = [{| session := 1%nat; qos := 1 |}]) as Hfirst
    by (vm_compute; reflexivity).
  rewrite Hfirst in *. destruct i as [|i]; [reflexivity|].
  destruct i; discriminate Hi.
Defined.

Lemma sweep_leaves_no_orphan_under_root_witness :
  let subscribed :=
    fst (addSubscription Sample.getClientId "alice" "a/b" ["a"; "b"] 0
           Sample.one_client) in
  let unsubscribed :=
    removeSubscription Sample.getClientId Sample.split "alice" "a/b"
      subscribed in
  let swept :=
    removeExpiredSessionsClients Sample.hasExpired Sample.owned_by_client 60
      unsubscribed in
  orphaned (heap unsubscribed) (root unsubscribed) ["a"]
  ∧ node_at ["a"] (root swept) = None
  ∧ ¬ orphaned (heap swept) (root swept) ["a"].
Proof.
  cbv zeta. split; [|split].
  - split; [discriminate|]. eexists. split; vm_compute; reflexivity.
  - vm_compute. reflexivity.
  - apply sweep_leaves_no_orphan_under_root. vm_compute. reflexivity.
Defined.

Lemma addSubscription_changes_one_filter_witness :
  let st' :=
    fst (addSubscription Sample.getClientId "alice" "a/c" ["a"; "c"] 1
           Sample.alice_and_idle_bob) in
  subscribers_at ["a"; "c"] (root st') = [{| session := 1%nat; qos := 1 |}]
  ∧ subscribers_at ["a"; "b"] (root st')
    = [{| session := 2%nat; qos := 2 |}; {| session := 1%nat; qos := 1 |}].
Proof.
  cbv zeta.
  destruct (addSubscription_changes_one_filter Sample.getClientId
              Sample.alice_and_idle_bob "alice" "a/c" ["a"; "c"] 1 1%nat
              eq_refl) as (Hhere & Helse & _).
  simpl starts_with_dollar in Hhere, Helse. split.
  - rewrite Hhere. vm_compute. reflexivity.
  - rewrite (Helse ["a"; "b"]) by discriminate. vm_compute. reflexivity.
Defined.

Lemma removeSubscription_changes_one_filter_witness :
  let st' :=
    removeSubscription Sample.getClientId Sample.split "alice" "a/b"
      Sample.alice_and_idle_bob in
  subscribers_at ["a"; "b"] (root st') = [{| session := 2%nat; qos := 2 |}]
  ∧ has_path (root st') ["a"; "b"].
Proof.
  cbv zeta.
  assert (has_path (root Sample.alice_and_idle_bob) (Sample.split "a/b" "/"))
    as Hpath by (apply has_path_node_at; vm_compute; by eexists).
  destruct (removeSubscription_changes_one_filter Sample.getClientId
              Sample.split Sample.alice_and_idle_bob "alice" "a/b" 1%nat
              eq_refl Hpath) as (Hhere & _ & Hpaths & _).
  simpl starts_with_dollar in Hhere, Hpaths. split.
  - etrans; [exact Hhere|]. vm_compute. reflexivity.
  - apply Hpaths. exact Hpath.
Defined.

Lemma unsubscribe_after_subscribe_witness :
  let st1 :=
    fst (addSubscription Sample.getClientId "alice" "a/b"
           (Sample.split "a/b" "/") 2 Sample.alice_and_idle_bob) in
  let st2 :=
    removeSubscription Sample.getClientId Sample.split "alice" "a/b" st1 in
  subscribers_at ["a"; "b"] (root st1)
  = [{| session := 2%nat; qos := 2 |}; {| session := 1%nat; qos := 2 |}]
  ∧ subscribers_at ["a"; "b"] (root st2) = [{| session := 2%nat; qos := 2 |}]
  ∧ has_path (root st2) ["a"; "b"].
Proof.
  cbv zeta. split; [vm_compute; reflexivity|].
  destruct (unsubscribe_after_subscribe Sample.getClientId Sample.split
              Sample.alice_and_idle_bob "alice" "a/b" 2 1%nat eq_refl)
    as (Hhere & _ & Hpath).
  simpl starts_with_dollar in Hhere, Hpath. split.
  - etrans; [exact Hhere|]. vm_compute. reflexivity.
  - exact Hpath.
Defined.

Lemma publish_after_subscription_witness :
  let st' :=
    fst (addSubscription Sample.getClientId "alice" "a/+" ["a"; "+"] 1
           Sample.one_client) in
  {| to := 1%nat; packet := Sample.a_packet; max_qos := 1; retain := false |}
  ∈ queuePacketAtSubscribers ["a"; "b"] Sample.a_packet false st'
  ∧ queuePacketAtSubscribers ["a"] Sample.a_packet false st'
    = queuePacketAtSubscribers ["a"] Sample.a_packet false Sample.one_client
  ∧ queuePacketAtSubscribers ["a"; "b"] Sample.a_packet true st'
    = queuePacketAtSubscribers ["a"; "b"] Sample.a_packet true
        Sample.one_client.
Proof.
  cbv zeta. split; [|split].
  - apply (publish_after_subscription Sample.getClientId Sample.one_client
             "alice" "a/+" ["a"; "+"] 1 1%nat ["a"; "b"] Sample.a_packet false
             eq_refl); [repeat constructor; discriminate|reflexivity..].
  - apply (publish_after_subscription Sample.getClientId Sample.one_client
             "alice" "a/+" ["a"; "+"] 1 1%nat ["a"] Sample.a_packet false
             eq_refl); [repeat constructor; discriminate|by right].
  - apply (publish_after_subscription Sample.getClientId Sample.one_client
             "alice" "a/+" ["a"; "+"] 1 1%nat ["a"; "b"] Sample.a_packet true
             eq_refl); [repeat constructor; discriminate|by left].
Defined.

Lemma sweep_keeps_live_subscriptions_witness :
  let swept :=
    removeExpiredSessionsClients Sample.hasExpired Sample.owned_by_client 60
      Sample.alice_and_idle_bob in
  subscribers_at ["a"; "b"] (root Sample.alice_and_idle_bob)
  = [{| session := 2%nat; qos := 2 |}; {| session := 1%nat; qos := 1 |}]
  ∧ subscribers_at ["a"; "b"] (root swept) = [{| session := 1%nat; qos := 1 |}].
Proof.
  cbv zeta. split; [vm_compute; reflexivity|].
  rewrite sweep_keeps_live_subscriptions by (vm_compute; reflexivity).
  vm_compute. reflexivity.
Defined.

Lemma publish_after_sweep_witness :
  let swept :=
    removeExpiredSessionsClients Sample.hasExpired Sample.owned_by_client 60
      Sample.alice_and_idle_bob in
  queuePacketAtSubscribers ["a"; "b"] Sample.a_packet false
    Sample.alice_and_idle_bob
  = [{| to := 2%nat; packet := Sample.a_packet; max_qos := 2;
        retain := false |};
     {| to := 1%nat; packet := Sample.a_packet; max_qos := 1;
        retain := false |}]
  ∧ queuePacketAtSubscribers ["a"; "b"] Sample.a_packet false swept
    = [{| to := 1%nat; packet := Sample.a_packet; max_qos := 1;
          retain := false |}].
Proof.
  cbv zeta. split; [vm_compute; reflexivity|].
  rewrite publish_after_sweep;
    [|vm_compute; reflexivity|repeat constructor; discriminate].
  vm_compute. reflexivity.
Defined.

Lemma client_without_session_witness :
  let added :=
    addSubscription Sample.getClientId "carol" "a/b" ["a"; "b"] 1
      Sample.one_client in
  ¬ has_path (root Sample.one_client) ["a"; "b"]
  ∧ has_path (root (fst added)) ["a"; "b"]
  ∧ subscribers_at ["a"; "b"] (root (fst added)) = []
  ∧ removeSubscription Sample.getClientId Sample.split "carol" "a/b"
      Sample.one_client
    = Sample.one_client.
Proof.
  cbv zeta.
  destruct (client_without_session Sample.getClientId Sample.split
              Sample.one_client "carol" "a/b" ["a"; "b"] 1 eq_refl)
    as (_ & Hpath & Hsame & Hremove).
  simpl starts_with_dollar in Hpath, Hsame. split; [|split; [|split]].
  - intros Hno%has_path_node_at. vm_compute in Hno.
    destruct Hno as [n Hn]. discriminate Hn.
  - exact Hpath.
  - by rewrite Hsame.
  - exact Hremove.
Defined.

Lemma getSubscriptions_saves_live_subscriptions_witness :
  getSubscriptions Sample.getClientId (heap Sample.alice_and_idle_bob)
    (root Sample.alice_and_idle_bob) "" true ∅
  = {["a/b" := [{| clientId := "bob"; saved_qos := 2 |};
                {| clientId := "alice"; saved_qos := 1 |}]]}
  ∧ {| clientId := "alice"; saved_qos := 1 |}
    ∈ default []
        (getSubscriptions Sample.getClientId (heap Sample.alice_and_idle_bob)
           (root Sample.alice_and_idle_bob) "" true ∅
         !! composedTopic_at "" true ["a"; "b"]).
Proof.
  split; [vm_compute; reflexivity|].
  eapply (proj1 (getSubscriptions_saves_live_subscriptions Sample.getClientId
                   (heap Sample.alice_and_idle_bob)
                   (root Sample.alice_and_idle_bob) "" true ∅)
            ["a"; "b"] _ {| session := 1%nat; qos := 1 |} Sample.alice);
    [vm_compute; reflexivity| |reflexivity].
  simpl. apply elem_of_cons. right. apply elem_of_cons. by left.
Defined.

Lemma removeSubscription_missing_path_witness :
  let st :=
    fst (addSubscription Sample.getClientId "alice" "a/b" ["a"; "b"] 1
           Sample.one_client) in
  removeSubscription Sample.getClientId Sample.split "alice" "a/c" st = st.
Proof.
  cbv zeta. apply removeSubscription_missing_path.
  intros Hpath%has_path_node_at. vm_compute in Hpath.
  destruct Hpath as [n Hn]. discriminate Hn.
Defined.

End TrieProperties.

(** *** The retained-message store *)

Module RetainedProperties.
Import Store.

(** **** Fixed-width arithmetic of [addPayload] *)

Lemma to_int64_t_small z : - 2 ^ 63 <= z < 2 ^ 63 -> to_int64_t z = z.
Proof. intros Hz. unfold to_int64_t. rewrite Z.mod_small; lia. Qed.

Lemma diffCount_exact (countBefore countAfter : Z) :
  0 <= countBefore < 2 ^ 63 -> 0 <= countAfter < 2 ^ 63 ->
  to_int64_t (to_size_t (countAfter - to_int64_t countBefore))
  = countAfter - countBefore.
Proof.
  intros Hb Ha. rewrite (to_int64_t_small countBefore) by lia.
  unfold to_int64_t, to_size_t.
  rewrite Zplus_mod_idemp_l. rewrite Z.mod_small; lia.
Qed.

(** **** Counting the stored payloads *)

Lemma stored_payloads_new : stored_payloads new_RetainedMessageNode = 0%nat.
Proof.
  unfold new_RetainedMessageNode. simpl.
  by rewrite map_size_empty, map_fold_empty.
Qed.

Lemma children_sum_insert (ch : gmap string RetainedMessageNode) s child' :
  (map_fold (fun _ child acc => stored_payloads child + acc) 0
     (<[s := child']> ch)
   + from_option stored_payloads 0 (ch !! s)
   = map_fold (fun _ child acc => stored_payloads child + acc) 0 ch
     + stored_payloads child')%nat.
Proof.
  rewrite <- insert_delete_eq.
  rewrite map_fold_insert_L; [|intros; lia|apply lookup_delete_eq].
  destruct (ch !! s) as [child|] eqn:Hs; simpl.
  - rewrite (map_fold_delete_L _ _ s child ch); [lia|intros; lia|done].
  - rewrite delete_id by done. lia.
Qed.

Lemma stored_payloads_child n s :
  (from_option stored_payloads 0 (retained_children n !! s)
   <= stored_payloads n)%nat.
Proof.
  destruct n as [ch msgs]. simpl.
  destruct (ch !! s) as [child|] eqn:Hs; simpl; [|lia].
  rewrite (map_fold_delete_L _ _ s child ch); [lia|intros; lia|done].
Qed.

Lemma stored_payloads_own n :
  (size (retainedMessages n) <= stored_payloads n)%nat.
Proof. destruct n; simpl; lia. Qed.

Lemma walk_creating_retained_count (k : RetainedMessageNode ->
                                        RetainedMessageNode * Z)
    (c : Z) (bound : nat) subtopics n :
  (∀ m, (stored_payloads m <= bound)%nat ->
        snd (k m) - c
        = Z.of_nat (stored_payloads (fst (k m))) - Z.of_nat (stored_payloads m)) ->
  (stored_payloads n <= bound)%nat ->
  snd (walk_creating_retained subtopics k n) - c
  = Z.of_nat (stored_payloads (fst (walk_creating_retained subtopics k n)))
    - Z.of_nat (stored_payloads n).
Proof.
  intros Hk. revert n.
  induction subtopics as [|s rest IH]; intros n Hn; simpl; [by apply Hk|].
  pose proof (stored_payloads_child n s) as Hchild.
  set (child := default new_RetainedMessageNode (retained_children n !! s)).
  assert (stored_payloads child
          = from_option stored_payloads 0%nat (retained_children n !! s))
    as Hdefault.
  { subst child. destruct (retained_children n !! s); simpl; [done|].
    apply stored_payloads_new. }
  rewrite IH by lia.
  pose proof (children_sum_insert (retained_children n) s
                (fst (walk_creating_retained rest k child))) as Hsum.
  destruct n as [ch msgs]; simpl in *. lia.
Qed.

(** **** [addPayload] with an empty payload *)

Lemma addPayload_empty_unfold t q totalCount node :
  addPayload t "" q totalCount node
  = match retainedMessages node !! t with
    | None => (node, totalCount)
    | Some _ =>
        let erased := delete t (retainedMessages node) in
        (mkRetainedMessageNode (retained_children node) erased,
         to_int64_t
           (totalCount
            + to_int64_t
                (to_size_t
                   (Z.of_nat (size erased)
                    - to_int64_t (Z.of_nat (size (retainedMessages node)))))))
    end.
Proof.
  unfold addPayload.
  destruct (retainedMessages node !! t) as [rm|] eqn:Hfound.
  - rewrite (bool_decide_eq_true_2 (is_Some (Some rm))) by by eexists.
    reflexivity.
  - rewrite (bool_decide_eq_false_2 (is_Some None)) by (by intros [? ?]).
    reflexivity.
Qed.

Lemma addPayload_empty_count t q totalCount node :
  - 2 ^ 63 < totalCount < 2 ^ 63 ->
  Z.of_nat (stored_payloads node) < 2 ^ 63 ->
  snd (addPayload t "" q totalCount node) - totalCount
  = Z.of_nat (stored_payloads (fst (addPayload t "" q totalCount node)))
    - Z.of_nat (stored_payloads node).
Proof.
  intros Hcount Hnode. rewrite addPayload_empty_unfold.
  pose proof (stored_payloads_own node) as Hown.
  destruct (retainedMessages node !! t) as [rm|] eqn:Hfound; simpl; [|lia].
  assert (size (delete t (retainedMessages node))
          = pred (size (retainedMessages node))) as Hsize
    by (apply map_size_delete_Some; by eexists).
  assert (size (retainedMessages node) ≠ 0%nat) as Hne.
  { intros Hzero%map_size_empty_inv. by rewrite Hzero, lookup_empty in Hfound. }
  rewrite diffCount_exact by lia. rewrite to_int64_t_small by lia.
  destruct node as [ch msgs]; simpl in *. lia.
Qed.

(** **** What is stored where *)

Lemma stored_at_new subtopics t :
  stored_at subtopics t new_RetainedMessageNode = None.
Proof.
  unfold stored_at. destruct subtopics as [|s rest]; simpl.
  - apply lookup_empty.
  - by rewrite lookup_empty.
Qed.

Lemma stored_at_cons s rest t n :
  stored_at (s :: rest) t n
  = child ← retained_children n !! s; stored_at rest t child.
Proof.
  unfold stored_at. simpl. by destruct (retained_children n !! s).
Qed.

Lemma stored_at_default s rest t n :
  stored_at rest t (default new_RetainedMessageNode (retained_children n !! s))
  = stored_at (s :: rest) t n.
Proof.
  rewrite stored_at_cons.
  destruct (retained_children n !! s); simpl; [done|apply stored_at_new].
Qed.

Lemma walk_creating_retained_absent t q totalCount subtopics n :
  stored_at subtopics t n = None ->
  stored_payloads
    (fst (walk_creating_retained subtopics (addPayload t "" q totalCount) n))
  = stored_payloads n.
Proof.
  revert n. induction subtopics as [|s rest IH]; intros n Habsent; simpl.
  - rewrite addPayload_empty_unfold. unfold stored_at in Habsent.
    simpl in Habsent. by rewrite Habsent.
  - rewrite <- stored_at_default in Habsent. specialize (IH _ Habsent).
    pose proof (children_sum_insert (retained_children n) s
                  (fst (walk_creating_retained rest
                          (addPayload t "" q totalCount)
                          (default new_RetainedMessageNode
                             (retained_children n !! s))))) as Hsum.
    rewrite IH in Hsum.
    assert (stored_payloads
              (default new_RetainedMessageNode (retained_children n !! s))
            = from_option stored_payloads 0%nat (retained_children n !! s))
      as Hdefault.
    { destruct (retained_children n !! s); simpl; [done|].
      apply stored_payloads_new. }
    destruct n as [ch msgs]; simpl in *. lia.
Qed.

(** **** [addPayload] with a payload *)

Lemma addPayload_unfold t p q totalCount node :
  p ≠ "" ->
  let rm := {| topic := t; payload := p; rm_qos := q |} in
  addPayload t p q totalCount node
  = (mkRetainedMessageNode (retained_children node)
       (<[t := rm]> (retainedMessages node)),
     to_int64_t
       (totalCount
        + to_int64_t
            (to_size_t
               (Z.of_nat (size (<[t := rm]> (retainedMessages node)))
                - to_int64_t (Z.of_nat (size (retainedMessages node))))))).
Proof.
  intros Hp rm. unfold addPayload.
  rewrite (bool_decide_eq_false_2 (p = "")) by done.
  rewrite !andb_false_r.
  destruct (retainedMessages node !! t) as [old|] eqn:Hfound.
  - rewrite (bool_decide_eq_true_2 (is_Some (Some old))) by by eexists.
    rewrite lookup_delete_eq. by rewrite insert_delete_eq.
  - rewrite (bool_decide_eq_false_2 (is_Some None)) by (by intros [? ?]).
    by rewrite Hfound.
Qed.

Lemma addPayload_count t p q totalCount node :
  - 2 ^ 63 < totalCount < 2 ^ 63 - 1 ->
  Z.of_nat (stored_payloads node) < 2 ^ 63 - 1 ->
  snd (addPayload t p q totalCount node) - totalCount
  = Z.of_nat (stored_payloads (fst (addPayload t p q totalCount node)))
    - Z.of_nat (stored_payloads node).
Proof.
  intros Hcount Hnode.
  destruct (decide (p = "")) as [->|Hp];
    [apply addPayload_empty_count; lia|].
  rewrite addPayload_unfold by done. cbv zeta.
  pose proof (stored_payloads_own node) as Hown.
  pose proof (map_size_insert t {| topic := t; payload := p; rm_qos := q |}
                (retainedMessages node)) as Hsize.
  destruct (retainedMessages node !! t) as [old|]; simpl in Hsize;
    rewrite diffCount_exact by lia; rewrite to_int64_t_small by lia;
    destruct node as [ch msgs]; simpl in *; lia.
Qed.

Lemma addPayload_children t p q totalCount node :
  retained_children (fst (addPayload t p q totalCount node))
  = retained_children node.
Proof.
  destruct (decide (p = "")) as [->|Hp].
  - rewrite addPayload_empty_unfold. by destruct (retainedMessages node !! t).
  - by rewrite addPayload_unfold.
Qed.

Lemma addPayload_entry t p q totalCount node :
  retainedMessages (fst (addPayload t p q totalCount node)) !! t
  = if bool_decide (p = "") then None
    else Some {| topic := t; payload := p; rm_qos := q |}.
Proof.
  case_bool_decide as Hp.
  - subst p. rewrite addPayload_empty_unfold.
    destruct (retainedMessages node !! t) eqn:Hfound; simpl;
      [apply lookup_delete_eq | done].
  - rewrite addPayload_unfold by done. apply lookup_insert_eq.
Qed.

Lemma addPayload_other_entries t p q totalCount node t' :
  t' ≠ t ->
  retainedMessages (fst (addPayload t p q totalCount node)) !! t'
  = retainedMessages node !! t'.
Proof.
  intros Hne. destruct (decide (p = "")) as [->|Hp].
  - rewrite addPayload_empty_unfold.
    destruct (retainedMessages node !! t) eqn:Hfound; simpl; [|done].
    by apply lookup_delete_ne.
  - rewrite addPayload_unfold by done. by apply lookup_insert_ne.
Qed.

(** **** The walk followed by a change of one entry *)

Lemma walk_creating_retained_at {A} (k : RetainedMessageNode ->
                                         RetainedMessageNode * A)
    t (entry : option RetainedMessage) subtopics n :
  (∀ m, retainedMessages (fst (k m)) !! t = entry) ->
  stored_at subtopics t (fst (walk_creating_retained subtopics k n)) = entry.
Proof.
  intros Hk. revert n. induction subtopics as [|s rest IH]; intros n; simpl.
  - unfold stored_at. simpl. apply Hk.
  - rewrite stored_at_cons. simpl. rewrite lookup_insert_eq. simpl. apply IH.
Qed.

Lemma walk_creating_retained_others {A} (k : RetainedMessageNode ->
                                             RetainedMessageNode * A)
    t subtopics n path t' :
  (∀ m, retained_children (fst (k m)) = retained_children m) ->
  (∀ m t'', t'' ≠ t ->
            retainedMessages (fst (k m)) !! t'' = retainedMessages m !! t'') ->
  path ≠ subtopics ∨ t' ≠ t ->
  stored_at path t' (fst (walk_creating_retained subtopics k n))
  = stored_at path t' n.
Proof.
  intros Hchildren Hentries. revert n path.
  induction subtopics as [|s rest IH]; intros n path Hother; simpl.
  - destruct path as [|p ps].
    + unfold stored_at. simpl. apply Hentries. by destruct Hother.
    + by rewrite !stored_at_cons, Hchildren.
  - destruct path as [|p ps]; [done|].
    rewrite !stored_at_cons. simpl.
    destruct (decide (s = p)) as [->|Hne].
    + rewrite lookup_insert_eq. simpl. rewrite IH.
      * by rewrite stored_at_default, stored_at_cons.
      * destruct Hother as [Hpath|Ht]; [left; congruence | by right].
    + by rewrite lookup_insert_ne.
Qed.

(** **** Walking the retained tree *)

Lemma retained_node_ind (P : RetainedMessageNode -> Prop) :
  (∀ n,
     (∀ i child, retained_children n !! i = Some child -> P child) -> P n) ->
  ∀ n, P n.
Proof.
  intros Hstep n. remember (retained_nodes_below n) as size eqn:Hsize.
  revert n Hsize. induction (lt_wf size) as [size _ IH]. intros n ->.
  apply Hstep. intros i child Hchild. eapply IH; [|reflexivity].
  pose proof (TrieProperties.sum_over_lookup retained_nodes_below
                (retained_children n) i child Hchild).
  destruct n; simpl in *. lia.
Qed.

Lemma elem_of_foldr_entries {A B} (f : string -> A -> list B -> list B)
    (G : string -> A -> list B) (l : list (string * A)) (b : list B) x :
  (∀ k c acc y, (k, c) ∈ l -> y ∈ f k c acc ↔ y ∈ G k c ∨ y ∈ acc) ->
  x ∈ foldr (uncurry f) b l
  ↔ (∃ k c, (k, c) ∈ l ∧ x ∈ G k c) ∨ x ∈ b.
Proof.
  induction l as [|[k c] l IH]; intros Hf; simpl.
  - split; [by right|]. intros [(k & c & Hin & _)|]; [|done].
    by apply elem_of_nil in Hin.
  - rewrite Hf by left. rewrite IH by (intros; apply Hf; by right). split.
    + intros [?|[(k' & c' & Hin & ?)|?]]; [left|left|by right].
      * exists k, c. split; [left|done].
      * exists k', c'. split; [by right|done].
    + intros [(k' & c' & [Heq|Hin]%elem_of_cons & ?)|?].
      * simplify_eq. by left.
      * right. left. by exists k', c'.
      * right. by right.
Qed.

Lemma elem_of_map_fold {A B} (f : string -> A -> list B -> list B)
    (G : string -> A -> list B) (m : gmap string A) (b : list B) x :
  (∀ k c acc y, m !! k = Some c -> y ∈ f k c acc ↔ y ∈ G k c ∨ y ∈ acc) ->
  x ∈ map_fold f b m ↔ (∃ k c, m !! k = Some c ∧ x ∈ G k c) ∨ x ∈ b.
Proof.
  intros Hf. rewrite map_fold_foldr, (elem_of_foldr_entries f G).
  - by setoid_rewrite elem_of_map_to_list.
  - intros k c acc y Hin. apply Hf. by apply elem_of_map_to_list.
Qed.

Lemma length_foldr_entries {A B} (f : string -> A -> list B -> list B)
    (F : A -> nat) (l : list (string * A)) (b : list B) :
  (∀ k c acc, (k, c) ∈ l -> length (f k c acc) = (F c + length acc)%nat) ->
  length (foldr (uncurry f) b l)
  = (foldr (uncurry (fun _ c acc => F c + acc)%nat) 0%nat l + length b)%nat.
Proof.
  induction l as [|[k c] l IH]; intros Hf; simpl; [done|].
  rewrite Hf by left. rewrite IH by (intros; apply Hf; by right). lia.
Qed.

Lemma length_map_fold {A B} (f : string -> A -> list B -> list B)
    (F : A -> nat) (m : gmap string A) (b : list B) :
  (∀ k c acc, m !! k = Some c -> length (f k c acc) = (F c + length acc)%nat) ->
  length (map_fold f b m)
  = (map_fold (fun _ c acc => F c + acc)%nat 0%nat m + length b)%nat.
Proof.
  intros Hf. rewrite !map_fold_foldr. apply length_foldr_entries.
  intros k c acc Hin. apply Hf. by apply elem_of_map_to_list.
Qed.

Lemma count_entries {A} (m : gmap string A) :
  map_fold (fun _ _ acc => 1 + acc)%nat 0%nat m = size m.
Proof.
  rewrite map_fold_foldr, <- length_map_to_list.
  induction (map_to_list m) as [|[k c] l IH]; simpl; [done|].
  f_equal. exact IH.
Qed.

Lemma stored_at_nil t n : stored_at [] t n = retainedMessages n !! t.
Proof. done. Qed.

Lemma stored_at_child k path t n rm :
  stored_at (k :: path) t n = Some rm
  ↔ ∃ child, retained_children n !! k = Some child
             ∧ stored_at path t child = Some rm.
Proof.
  rewrite stored_at_cons.
  destruct (retained_children n !! k) as [child|]; simpl.
  - split; [by exists child|]. by intros (? & [= <-] & ?).
  - split; [done|]. by intros (? & ? & ?).
Qed.

(** **** The retained messages a subscription is given *)

Lemma give_node_elem max_qos ses n D :
  D ∈ give_node max_qos ses n
  ↔ ∃ t rm, retainedMessages n !! t = Some rm ∧ D = replay max_qos ses rm.
Proof.
  unfold give_node.
  rewrite (elem_of_map_fold _ (fun _ rm => [replay max_qos ses rm])).
  - rewrite elem_of_nil. setoid_rewrite list_elem_of_singleton. tauto.
  - intros k c acc y _. by rewrite elem_of_cons, list_elem_of_singleton.
Qed.

Lemma giveClientRetainedMessagesRecursively_nil n max_qos ses poundMode :
  giveClientRetainedMessagesRecursively [] n max_qos ses poundMode
  = give_node max_qos ses n
    ++ (if poundMode then
          map_fold
            (fun _ child acc =>
               giveClientRetainedMessagesRecursively [] child max_qos ses
                 poundMode ++ acc)
            [] (retained_children n)
        else []).
Proof. by destruct n. Qed.

Lemma giveClientRetainedMessagesRecursively_cons cur_subtop next_subtopic n
    max_qos ses poundMode :
  giveClientRetainedMessagesRecursively (cur_subtop :: next_subtopic) n
    max_qos ses poundMode
  = map_fold
      (fun name child acc =>
         if bool_decide (cur_subtop = "#") || bool_decide (cur_subtop = "+")
         then
           giveClientRetainedMessagesRecursively next_subtopic child max_qos
             ses (bool_decide (cur_subtop = "#")) ++ acc
         else if bool_decide (name = cur_subtop) then
           giveClientRetainedMessagesRecursively next_subtopic child max_qos
             ses false ++ acc
         else acc)
      [] (retained_children n).
Proof. by destruct n. Qed.

Lemma matches_below_nil_l path : matches_below [] path = true ↔ path = [].
Proof. by destruct path. Qed.

Lemma giveClientRetainedMessagesRecursively_elem max_qos ses n :
  ∀ filter poundMode D,
    pound_only_last filter = true ->
    D ∈ giveClientRetainedMessagesRecursively filter n max_qos ses poundMode
    ↔ ∃ path t rm,
        (if poundMode && bool_decide (filter = []) then true
         else matches_below filter path) = true
        ∧ stored_at path t n = Some rm
        ∧ D = replay max_qos ses rm.
Proof.
  induction n as [n IH] using retained_node_ind.
  intros [|f fs] poundMode D Hlast.
  - rewrite giveClientRetainedMessagesRecursively_nil, elem_of_app,
      give_node_elem.
    destruct poundMode; simpl.
    + rewrite (elem_of_map_fold _
                 (fun _ child =>
                    giveClientRetainedMessagesRecursively [] child max_qos ses
                      true))
        by (intros; apply elem_of_app).
      split.
      * intros [(t & rm & Hrm & ->)|[(k & c & Hc & HD)|[]%elem_of_nil]].
        -- by exists [], t, rm.
        -- apply (IH k c Hc [] true D eq_refl) in HD
             as (path & t & rm & _ & Hst & ->).
           exists (k :: path), t, rm. split; [done|]. split; [|done].
           apply stored_at_child. by exists c.
      * intros ([|k path] & t & rm & _ & Hst & ->).
        -- left. by exists t, rm.
        -- right. left. apply stored_at_child in Hst as (c & Hc & Hst).
           exists k, c. split; [done|].
           apply (IH k c Hc [] true _ eq_refl). by exists path, t, rm.
    + split.
      * intros [(t & rm & Hrm & ->)|[]%elem_of_nil]. by exists [], t, rm.
      * intros (path & t & rm & ->%matches_below_nil_l & Hst & ->).
        left. by exists t, rm.
  - rewrite giveClientRetainedMessagesRecursively_cons.
    simpl in Hlast. apply andb_true_iff in Hlast as [Hpound Hlast].
    rewrite andb_false_r.
    rewrite (elem_of_map_fold _
               (fun name child =>
                  if bool_decide (f = "#") || bool_decide (f = "+") then
                    giveClientRetainedMessagesRecursively fs child max_qos ses
                      (bool_decide (f = "#"))
                  else if bool_decide (name = f) then
                    giveClientRetainedMessagesRecursively fs child max_qos ses
                      false
                  else []))
      by (intros k c acc y _;
          destruct (bool_decide (f = "#") || bool_decide (f = "+"));
          [apply elem_of_app|];
          destruct (bool_decide (k = f)); [apply elem_of_app|];
          rewrite elem_of_nil; tauto).
    rewrite elem_of_nil. split.
    + intros [(k & c & Hc & HD)|[]].
      destruct (decide (f = "#")) as [->|Hf].
      * rewrite bool_decide_eq_true_2 in Hpound, HD by done. simpl in HD.
        apply bool_decide_eq_true in Hpound as ->.
        apply (IH k c Hc [] true D eq_refl) in HD
          as (path & t & rm & _ & Hst & ->).
        exists (k :: path), t, rm. split; [done|]. split; [|done].
        apply stored_at_child. by exists c.
      * rewrite (bool_decide_eq_false_2 (f = "#")) in HD by done.
        simpl in HD.
        assert (D ∈ giveClientRetainedMessagesRecursively fs c max_qos ses
                      false
                ∧ (bool_decide (f = "+") || bool_decide (f = k)) = true)
          as [HD' Hhead].
        { destruct (bool_decide (f = "+")); [done|].
          case_bool_decide as Hk; [|by apply elem_of_nil in HD].
          subst k. by rewrite bool_decide_eq_true_2. }
        apply (IH k c Hc fs false D Hlast) in HD'
          as (path & t & rm & Hm & Hst & ->).
        exists (k :: path), t, rm. split; [|split; [|done]].
        -- simpl. rewrite (bool_decide_eq_false_2 (f = "#")) by done.
           simpl in Hm. by rewrite Hhead, Hm.
        -- apply stored_at_child. by exists c.
    + intros ([|k path] & t & rm & Hm & Hst & ->); [done|]. left.
      apply stored_at_child in Hst as (c & Hc & Hst). exists k, c.
      split; [done|]. simpl in Hm.
      destruct (decide (f = "#")) as [->|Hf].
      * rewrite bool_decide_eq_true_2 in Hpound |- * by done. simpl.
        apply bool_decide_eq_true in Hpound as ->.
        apply (IH k c Hc [] true _ eq_refl). by exists path, t, rm.
      * rewrite (bool_decide_eq_false_2 (f = "#")) in Hm |- * by done.
        apply andb_true_iff in Hm as [Hhead Hm]. simpl.
        assert (D' : ∀ D, D ∈ giveClientRetainedMessagesRecursively fs c
                                max_qos ses false
                          ↔ ∃ path t rm,
                              matches_below fs path = true
                              ∧ stored_at path t c = Some rm
                              ∧ D = replay max_qos ses rm)
          by (intros D0; apply (IH k c Hc fs false D0 Hlast)).
        destruct (bool_decide (f = "+")); simpl in *.
        -- apply D'. by exists path, t, rm.
        -- apply bool_decide_eq_true in Hhead as ->.
           rewrite bool_decide_eq_true_2 by done.
           apply D'. by exists path, t, rm.
Qed.

Lemma wildcard_free_pound_only_last subtopics :
  wildcard_free subtopics -> pound_only_last subtopics = true.
Proof.
  induction 1 as [|s rest [Hpound _] _ IH]; simpl; [done|].
  by rewrite bool_decide_eq_false_2.
Qed.

Lemma wildcard_free_matches_itself subtopics :
  wildcard_free subtopics -> matches_below subtopics subtopics = true.
Proof.
  induction 1 as [|s rest [Hpound _] _ IH]; simpl; [done|].
  rewrite bool_decide_eq_false_2 by done.
  by rewrite (bool_decide_eq_true_2 (s = s)), orb_true_r.
Qed.

(** **** The snapshot of the retained messages *)

Lemma getRetainedMessages_unfold n outputList :
  getRetainedMessages n outputList
  = map_fold (fun _ child acc => getRetainedMessages child acc)
      (map_fold (fun _ rm acc => acc ++ [rm]) outputList (retainedMessages n))
      (retained_children n).
Proof. by destruct n. Qed.

Lemma stored_payloads_unfold n :
  stored_payloads n
  = (size (retainedMessages n)
     + map_fold (fun _ child acc => stored_payloads child + acc) 0
         (retained_children n))%nat.
Proof. by destruct n. Qed.

(** The snapshot that is saved. [getRetainedMessages] appends to
    [outputList] exactly the messages stored in the subtree of the node: the
    list grows by the number of stored payloads, and a message is in it
    afterwards when it was in it before or is stored at some node of the
    subtree. *)
Theorem getRetainedMessages_collects_subtree (n : RetainedMessageNode)
    (outputList : list RetainedMessage) :
  length (getRetainedMessages n outputList)
  = (length outputList + stored_payloads n)%nat
  ∧ ∀ rm, rm ∈ getRetainedMessages n outputList
          ↔ rm ∈ outputList ∨ ∃ path t, stored_at path t n = Some rm.
Proof.
  revert outputList. induction n as [n IH] using retained_node_ind.
  intros outputList. rewrite getRetainedMessages_unfold. split.
  - rewrite (length_map_fold _ stored_payloads)
      by (intros k c acc Hc; rewrite (proj1 (IH k c Hc acc)); lia).
    rewrite (length_map_fold _ (fun _ => 1%nat))
      by (intros; rewrite length_app; simpl; lia).
    rewrite count_entries, stored_payloads_unfold. lia.
  - intros rm.
    rewrite (elem_of_map_fold
               (fun _ child acc => getRetainedMessages child acc)
               (fun _ child => getRetainedMessages child []))
      by (intros k c acc y Hc; rewrite !(proj2 (IH k c Hc _));
          rewrite elem_of_nil; tauto).
    rewrite (elem_of_map_fold _ (fun _ rm => [rm]))
      by (intros; rewrite elem_of_app; tauto).
    setoid_rewrite list_elem_of_singleton. split.
    + intros [(k & c & Hc & Hrm)|[(t & rm' & Hrm & ->)|?]]; [|..|by left].
      * apply (IH k c Hc) in Hrm as [[]%elem_of_nil|(path & t & Hst)].
        right. exists (k :: path), t. apply stored_at_child. by exists c.
      * right. by exists [], t.
    + intros [?|([|k path] & t & Hst)]; [by right; right|..].
      * right. left. by exists t, rm.
      * left. apply stored_at_child in Hst as (c & Hc & Hst).
        exists k, c. split; [done|]. apply (IH k c Hc). right.
        by exists path, t.
Qed.

Section WithSession.

Context {Session : Type}.

Local Abbreviation SubscriptionStore := (@Store.SubscriptionStore Session).

(** What [setRetainedMessage] does with a payload. It stores the message
    with this payload and QoS as the retained entry of the topic, in place
    of the entry the topic had, leaves every other retained entry of both
    trees as it was, and keeps [retainedMessageCount] equal to the number of
    stored payloads (here for a count that leaves an [int64_t] room for one
    more). *)
Theorem setRetainedMessage_payload (st : SubscriptionStore)
    (t : string) (subtopics : list string) (p : string) (q : Z) :
  p ≠ "" ->
  retainedMessageCount st = Z.of_nat (stored st) ->
  Z.of_nat (stored st) < 2 ^ 63 - 1 ->
  let st' := setRetainedMessage t subtopics p q st in
  let tree (s : SubscriptionStore) :=
    if first_subtopic_dollar subtopics
    then retainedMessagesRootDollar s else retainedMessagesRoot s in
  let other (s : SubscriptionStore) :=
    if first_subtopic_dollar subtopics
    then retainedMessagesRoot s else retainedMessagesRootDollar s in
  stored_at subtopics t (tree st')
  = Some {| topic := t; payload := p; rm_qos := q |}
  ∧ (∀ path t', path ≠ subtopics ∨ t' ≠ t ->
                stored_at path t' (tree st') = stored_at path t' (tree st))
  ∧ other st' = other st
  ∧ retainedMessageCount st' = Z.of_nat (stored st').
Proof.
  intros Hp Hcount Hbound. cbv zeta. unfold setRetainedMessage, stored in *.
  assert (∀ m, retainedMessages
                 (fst (addPayload t p q (retainedMessageCount st) m)) !! t
               = Some {| topic := t; payload := p; rm_qos := q |}) as Hat
    by (intros m; rewrite addPayload_entry; by rewrite bool_decide_eq_false_2).
  destruct (first_subtopic_dollar subtopics); simpl.
  - repeat split.
    + by apply walk_creating_retained_at.
    + intros path t' Hother.
      by apply (walk_creating_retained_others _ t);
        [intros; apply addPayload_children
        |intros; apply addPayload_other_entries|].
    + pose proof (walk_creating_retained_count
                    (addPayload t p q (retainedMessageCount st))
                    (retainedMessageCount st)
                    (stored_payloads (retainedMessagesRootDollar st))
                    subtopics (retainedMessagesRootDollar st)) as Hwalk.
      assert (∀ m, (stored_payloads m
                    <= stored_payloads (retainedMessagesRootDollar st))%nat ->
                   snd (addPayload t p q (retainedMessageCount st) m)
                   - retainedMessageCount st
                   = Z.of_nat
                       (stored_payloads
                          (fst (addPayload t p q (retainedMessageCount st) m)))
                     - Z.of_nat (stored_payloads m)) as Hk
        by (intros m Hm; apply addPayload_count; lia).
      specialize (Hwalk Hk (Nat.le_refl _)). lia.
  - repeat split.
    + by apply walk_creating_retained_at.
    + intros path t' Hother.
      by apply (walk_creating_retained_others _ t);
        [intros; apply addPayload_children
        |intros; apply addPayload_other_entries|].
    + pose proof (walk_creating_retained_count
                    (addPayload t p q (retainedMessageCount st))
                    (retainedMessageCount st)
                    (stored_payloads (retainedMessagesRoot st))
                    subtopics (retainedMessagesRoot st)) as Hwalk.
      assert (∀ m, (stored_payloads m
                    <= stored_payloads (retainedMessagesRoot st))%nat ->
                   snd (addPayload t p q (retainedMessageCount st) m)
                   - retainedMessageCount st
                   = Z.of_nat
                       (stored_payloads
                          (fst (addPayload t p q (retainedMessageCount st) m)))
                     - Z.of_nat (stored_payloads m)) as Hk
        by (intros m Hm; apply addPayload_count; lia).
      specialize (Hwalk Hk (Nat.le_refl _)). lia.
Qed.

(** What does hold of the retained entries. [setRetainedMessage] with an
    empty payload removes the retained entry of the topic, leaves every
    other retained entry of both trees as it was and, when the topic had no
    entry, stores nothing; it keeps [retainedMessageCount] equal to the
    number of stored payloads (here for a count that an [int64_t] holds). *)
Theorem setRetainedMessage_empty_payload (st : SubscriptionStore)
    (t : string) (subtopics : list string) (q : Z) :
  retainedMessageCount st = Z.of_nat (stored st) ->
  Z.of_nat (stored st) < 2 ^ 63 ->
  let st' := setRetainedMessage t subtopics "" q st in
  let tree (s : SubscriptionStore) :=
    if first_subtopic_dollar subtopics
    then retainedMessagesRootDollar s else retainedMessagesRoot s in
  let other (s : SubscriptionStore) :=
    if first_subtopic_dollar subtopics
    then retainedMessagesRoot s else retainedMessagesRootDollar s in
  stored_at subtopics t (tree st') = None
  ∧ (∀ path t', path ≠ subtopics ∨ t' ≠ t ->
                stored_at path t' (tree st') = stored_at path t' (tree st))
  ∧ other st' = other st
  ∧ (stored_at subtopics t (tree st) = None -> stored st' = stored st)
  ∧ retainedMessageCount st' = Z.of_nat (stored st').
Proof.
  intros Hcount Hbound. cbv zeta. unfold setRetainedMessage, stored in *.
  destruct (first_subtopic_dollar subtopics); simpl.
  - repeat split.
    + apply walk_creating_retained_at. intros m. by rewrite addPayload_entry.
    + intros path t' Hother.
      by apply (walk_creating_retained_others _ t);
        [intros; apply addPayload_children
        |intros; apply addPayload_other_entries|].
    + intros Habsent. by rewrite walk_creating_retained_absent.
    + pose proof (walk_creating_retained_count
                    (addPayload t "" q (retainedMessageCount st))
                    (retainedMessageCount st)
                    (stored_payloads (retainedMessagesRootDollar st))
                    subtopics (retainedMessagesRootDollar st)) as Hwalk.
      assert (∀ m, (stored_payloads m <= stored_payloads (retainedMessagesRootDollar st))%nat ->
                   snd (addPayload t "" q (retainedMessageCount st) m)
                   - retainedMessageCount st
                   = Z.of_nat
                       (stored_payloads
                          (fst (addPayload t "" q (retainedMessageCount st) m)))
                     - Z.of_nat (stored_payloads m)) as Hk
        by (intros m Hm; apply addPayload_empty_count; lia).
      specialize (Hwalk Hk (Nat.le_refl _)). lia.
  - repeat split.
    + apply walk_creating_retained_at. intros m. by rewrite addPayload_entry.
    + intros path t' Hother.
      by apply (walk_creating_retained_others _ t);
        [intros; apply addPayload_children
        |intros; apply addPayload_other_entries|].
    + intros Habsent. by rewrite walk_creating_retained_absent.
    + pose proof (walk_creating_retained_count
                    (addPayload t "" q (retainedMessageCount st))
                    (retainedMessageCount st)
                    (stored_payloads (retainedMessagesRoot st))
                    subtopics (retainedMessagesRoot st)) as Hwalk.
      assert (∀ m, (stored_payloads m <= stored_payloads (retainedMessagesRoot st))%nat ->
                   snd (addPayload t "" q (retainedMessageCount st) m)
                   - retainedMessageCount st
                   = Z.of_nat
                       (stored_payloads
                          (fst (addPayload t "" q (retainedMessageCount st) m)))
                     - Z.of_nat (stored_payloads m)) as Hk
        by (intros m Hm; apply addPayload_empty_count; lia).
      specialize (Hwalk Hk (Nat.le_refl _)). lia.
Qed.

End WithSession.

Section WithSubscriber.

Context {Session : Type}.
Variable getClientId : Session -> string.

Local Abbreviation SubscriptionStore := (@Store.SubscriptionStore Session).
Local Abbreviation addSubscription :=
  (@Store.addSubscription Session getClientId).

(** The retained messages a subscription is given. For a filter in which
    [#] stands at the last level only, [giveClientRetainedMessages] calls
    [writePacket], with the retain flag set and the QoS of the subscription
    as the maximum, for exactly the messages stored under the root the
    filter's first level selects at a node whose path the filter matches,
    where [+] matches one level and a final [#] one or more levels: the
    message stored at [a] itself is not given to a subscriber of [a/#]. *)
Theorem retained_messages_given_to_subscriber (st : SubscriptionStore)
    (ses : SessionPtr) (filter : list string) (max_qos : Z) (D : Delivery) :
  pound_only_last filter = true ->
  D ∈ giveClientRetainedMessages ses filter max_qos st
  ↔ ∃ path t rm,
      matches_below filter path = true
      ∧ stored_at path t
          (if first_subtopic_dollar filter then retainedMessagesRootDollar st
           else retainedMessagesRoot st)
        = Some rm
      ∧ D = replay max_qos ses rm.
Proof.
  intros Hlast. unfold giveClientRetainedMessages.
  by rewrite giveClientRetainedMessagesRecursively_elem.
Qed.

(** A retained message reaches the next subscriber. After
    [setRetainedMessage] has stored a payload that is not empty for a topic
    without wildcards, a registered client that subscribes to that topic is
    given the message, with the retain flag set. *)
Theorem retained_message_reaches_next_subscriber (st : SubscriptionStore)
    (clientid topic : string) (ses : SessionPtr) (subtopics : list string)
    (t p : string) (q max_qos : Z) :
  p ≠ "" ->
  wildcard_free subtopics ->
  sessionsById st !! clientid = Some ses ->
  let st1 := setRetainedMessage t subtopics p q st in
  replay max_qos ses {| topic := t; payload := p; rm_qos := q |}
  ∈ snd (addSubscription clientid topic subtopics max_qos st1).
Proof.
  intros Hp Hfree Hses. cbv zeta. unfold Store.addSubscription.
  assert (sessionsById (setRetainedMessage t subtopics p q st) !! clientid
          = Some ses) as ->
    by (unfold setRetainedMessage; by destruct (first_subtopic_dollar subtopics)).
  cbn [snd]. unfold giveClientRetainedMessages.
  apply giveClientRetainedMessagesRecursively_elem;
    [by apply wildcard_free_pound_only_last|].
  exists subtopics, t, {| topic := t; payload := p; rm_qos := q |}.
  split; [simpl; by apply wildcard_free_matches_itself|]. split; [|done].
  unfold getDeepestNode, setRetainedMessage.
  destruct (starts_with_dollar topic), (first_subtopic_dollar subtopics);
    cbn [retainedMessagesRoot retainedMessagesRootDollar set_root
         set_rootDollar fst];
    apply walk_creating_retained_at; intros m;
    by rewrite addPayload_entry, bool_decide_eq_false_2.
Qed.

(** What is saved of the retained messages. After [setRetainedMessage] has
    stored a payload that is not empty, the list [saveRetainedMessages]
    collects for the file holds the message when the topic's first level
    does not start with [$]; when it does, the list is what it was before:
    the messages under the dollar root are not collected. *)
Theorem saveRetainedMessages_after_setRetainedMessage (st : SubscriptionStore)
    (t : string) (subtopics : list string) (p : string) (q : Z) :
  p ≠ "" ->
  let st' := setRetainedMessage t subtopics p q st in
  if first_subtopic_dollar subtopics
  then saveRetainedMessages st' = saveRetainedMessages st
  else {| topic := t; payload := p; rm_qos := q |} ∈ saveRetainedMessages st'.
Proof.
  intros Hp. cbv zeta. unfold saveRetainedMessages, setRetainedMessage.
  destruct (first_subtopic_dollar subtopics); cbn [retainedMessagesRoot];
    [done|].
  apply getRetainedMessages_collects_subtree. right. exists subtopics, t.
  apply walk_creating_retained_at. intros m.
  by rewrite addPayload_entry, bool_decide_eq_false_2.
Qed.

End WithSubscriber.

(** C4 fails on the code: nothing is retained, and [setRetainedMessage]
    with an empty payload for [a/b] makes the nodes [a] and [a/b], so the
    retained tree is not what it was. *)
Theorem empty_payload_makes_nodes :
  let st' := setRetainedMessage "a/b" ["a"; "b"] "" 0 Sample.one_client in
  stored_at ["a"; "b"] "a/b" (retainedMessagesRoot Sample.one_client) = None
  ∧ retained_node_at ["a"] (retainedMessagesRoot Sample.one_client) = None
  ∧ retained_node_at ["a"; "b"] (retainedMessagesRoot st')
    = Some new_RetainedMessageNode
  ∧ retainedMessagesRoot st' ≠ retainedMessagesRoot Sample.one_client.
Proof.
  cbv zeta. repeat split; try (vm_compute; reflexivity).
  intros Heq.
  assert (retained_node_at ["a"]
            (retainedMessagesRoot
               (setRetainedMessage "a/b" ["a"; "b"] "" 0 Sample.one_client))
          = None) as Hnode by (by rewrite Heq).
  vm_compute in Hnode. discriminate Hnode.
Qed.

Lemma setRetainedMessage_payload_witness :
  let st :=
    setRetainedMessage "home/light" ["home"; "light"] "on" 1 Sample.one_client in
  retainedMessageCount Sample.one_client = 0
  ∧ stored_at ["home"; "light"] "home/light" (retainedMessagesRoot st)
    = Some {| topic := "home/light"; payload := "on"; rm_qos := 1 |}
  ∧ retainedMessageCount st = 1.
Proof.
  cbv zeta.
  assert ("on" ≠ "") as Hp by discriminate.
  pose proof (setRetainedMessage_payload Sample.one_client "home/light"
                ["home"; "light"] "on" 1 Hp eq_refl eq_refl) as Hset.
  cbv zeta in Hset. destruct Hset as (Hstored & _ & _ & Hcount).
  split; [reflexivity|]. split; [exact Hstored|].
  rewrite Hcount. reflexivity.
Defined.

Lemma setRetainedMessage_empty_payload_witness :
  let st :=
    setRetainedMessage "home/light" ["home"; "light"] "on" 1 Sample.one_client in
  let st' := setRetainedMessage "home/light" ["home"; "light"] "" 0 st in
  retainedMessageCount st = 1
  ∧ stored_at ["home"; "light"] "home/light" (retainedMessagesRoot st)
    = Some {| topic := "home/light"; payload := "on"; rm_qos := 1 |}
  ∧ stored_at ["home"; "light"] "home/light" (retainedMessagesRoot st') = None
  ∧ retainedMessageCount st' = 0.
Proof.
  cbv zeta.
  pose proof (setRetainedMessage_empty_payload
                (setRetainedMessage "home/light" ["home"; "light"] "on" 1
                   Sample.one_client)
                "home/light" ["home"; "light"] 0 eq_refl eq_refl) as Hset.
  cbv zeta in Hset. destruct Hset as (Herased & _ & _ & _ & Hcount).
  split; [reflexivity|]. split; [reflexivity|].
  split; [exact Herased|]. rewrite Hcount. reflexivity.
Defined.

Lemma retained_messages_given_to_subscriber_witness :
  replay 1 1%nat {| topic := "home/door"; payload := "shut"; rm_qos := 0 |}
  ∈ giveClientRetainedMessages 1%nat ["home"; "#"] 1 Sample.with_retained
  ∧ length (giveClientRetainedMessages 1%nat ["home"; "#"] 1
              Sample.with_retained) = 3%nat
  ∧ giveClientRetainedMessages 1%nat ["home"; "+"; "#"] 1 Sample.with_retained
    = [replay 1 1%nat
         {| topic := "home/light/level"; payload := "7"; rm_qos := 0 |}].
Proof.
  split; [|split; vm_compute; reflexivity].
  apply (retained_messages_given_to_subscriber Sample.with_retained 1%nat
           ["home"; "#"] 1 _ eq_refl).
  exists ["home"; "door"], "home/door",
    {| topic := "home/door"; payload := "shut"; rm_qos := 0 |}.
  repeat split; vm_compute; reflexivity.
Defined.

Lemma retained_message_reaches_next_subscriber_witness :
  let st1 :=
    setRetainedMessage "home/light" ["home"; "light"] "on" 1 Sample.one_client in
  replay 0 1%nat {| topic := "home/light"; payload := "on"; rm_qos := 1 |}
  ∈ snd (addSubscription Sample.getClientId "alice" "home/light"
           ["home"; "light"] 0 st1).
Proof.
  cbv zeta.
  apply (retained_message_reaches_next_subscriber Sample.getClientId
           Sample.one_client "alice" "home/light" 1%nat ["home"; "light"]
           "home/light" "on" 1 0);
    [discriminate|repeat constructor; discriminate|reflexivity].
Defined.

Lemma saveRetainedMessages_after_setRetainedMessage_witness :
  saveRetainedMessages
    (setRetainedMessage "home/light" ["home"; "light"] "on" 1 Sample.one_client)
  = [{| topic := "home/light"; payload := "on"; rm_qos := 1 |}]
  ∧ saveRetainedMessages
      (setRetainedMessage "$SYS/uptime" ["$SYS"; "uptime"] "7" 0
         Sample.one_client)
    = saveRetainedMessages Sample.one_client.
Proof.
  split; [vm_compute; reflexivity|].
  apply (saveRetainedMessages_after_setRetainedMessage Sample.one_client
           "$SYS/uptime" ["$SYS"; "uptime"] "7" 0).
  discriminate.
Defined.

End RetainedProperties.
